(** * Multiplayer Tic-Tac-Toe server: rules engine and session core

    A shallow embedding of the Go packages [models], [game] and [handlers].

    - Go [int] is a 64-bit two's-complement integer: a [Z] with the
      wrap-around written out ([wrap64]).
    - Go [float64] is IEEE 754 binary64: Rocq's primitive [float].
    - A [*Player] is an address into a heap of [Player] objects, so the
      sharing of one player between the registry, the connection table and
      several games is kept.
    - [uuid.New()] and [time.Now()] are inputs of the operations that call
      them. *)

From Stdlib Require Import ZArith Floats Lia Reals Lra.
From stdpp Require Import gmap strings list functions sorting.

Local Open Scope Z_scope.
Local Open Scope string_scope.

(** ** Machine integers and floats *)

Definition wrap64 (z : Z) : Z := (z + 2 ^ 63) mod 2 ^ 64 - 2 ^ 63.

Definition in_int64 (z : Z) : Prop := - 2 ^ 63 <= z < 2 ^ 63.

(** [float64(n)] for an [int] n: the nearest binary64, ties to even. *)
Definition float64_of_int (z : Z) : float :=
  SF2Prim (binary_normalize prec emax z 0 false).

(** The integer part of a finite binary64 (truncation toward zero). *)
Definition float64_trunc (f : float) : option Z :=
  match Prim2SF f with
  | S754_zero _ => Some 0
  | S754_finite s m e =>
      let a := if decide (0 <= e) then Z.pos m * 2 ^ e
               else Z.shiftr (Z.pos m) (- e) in
      Some (if s then - a else a)
  | S754_infinity _ | S754_nan => None
  end.

(** ** package models *)

Module models.

(** Address of a heap-allocated [Player]. *)
Definition ptr := nat.

Record Player := mkPlayer {
  ID : string;
  Name : string;
  Symbol : string;
  Wins : Z;
  Losses : Z;
  Draws : Z;
  Rating : Z;
  LastSeen : Z
}.

Record Game := mkGame {
  Game_ID : string;
  Board : list string;
  PlayerX : option ptr;
  PlayerO : option ptr;
  CurrentTurn : string;
  Status : string;
  Winner : string;
  StartTime : Z;
  EndTime : option Z
}.

Definition MSG_JOIN_QUEUE := "join_queue".
Definition MSG_LEAVE_QUEUE := "leave_queue".
Definition MSG_GAME_FOUND := "game_found".
Definition MSG_MAKE_MOVE := "make_move".
Definition MSG_GAME_UPDATE := "game_update".
Definition MSG_GAME_END := "game_end".
Definition MSG_ERROR := "error".
Definition MSG_LEADERBOARD := "leaderboard".
Definition MSG_PLAYER_UPDATE := "player_update".

Definition STATUS_WAITING := "waiting".
Definition STATUS_PLAYING := "playing".
Definition STATUS_FINISHED := "finished".

(** [NewGame()]; [id] is the fresh uuid and [now] the clock reading. *)
Definition NewGame (id : string) (now : Z) : Game :=
  {| Game_ID := id;
     Board := replicate 9 "";
     PlayerX := None;
     PlayerO := None;
     CurrentTurn := "X";
     Status := STATUS_WAITING;
     Winner := "";
     StartTime := now;
     EndTime := None |}.

(** [NewPlayer(name)]. *)
Definition NewPlayer (id : string) (now : Z) (name : string) : Player :=
  {| ID := id;
     Name := name;
     Symbol := "";
     Wins := 0;
     Losses := 0;
     Draws := 0;
     Rating := 1000;
     LastSeen := now |}.

(** Field assignments. *)
Definition set_Symbol (s : string) (p : Player) : Player :=
  mkPlayer (ID p) (Name p) s (Wins p) (Losses p) (Draws p) (Rating p) (LastSeen p).
Definition set_Wins (n : Z) (p : Player) : Player :=
  mkPlayer (ID p) (Name p) (Symbol p) n (Losses p) (Draws p) (Rating p) (LastSeen p).
Definition set_Losses (n : Z) (p : Player) : Player :=
  mkPlayer (ID p) (Name p) (Symbol p) (Wins p) n (Draws p) (Rating p) (LastSeen p).
Definition set_Draws (n : Z) (p : Player) : Player :=
  mkPlayer (ID p) (Name p) (Symbol p) (Wins p) (Losses p) n (Rating p) (LastSeen p).
Definition set_Rating (n : Z) (p : Player) : Player :=
  mkPlayer (ID p) (Name p) (Symbol p) (Wins p) (Losses p) (Draws p) n (LastSeen p).
Definition set_LastSeen (t : Z) (p : Player) : Player :=
  mkPlayer (ID p) (Name p) (Symbol p) (Wins p) (Losses p) (Draws p) (Rating p) t.

Definition set_Board (b : list string) (g : Game) : Game :=
  mkGame (Game_ID g) b (PlayerX g) (PlayerO g) (CurrentTurn g) (Status g)
         (Winner g) (StartTime g) (EndTime g).
Definition set_PlayerX (p : option ptr) (g : Game) : Game :=
  mkGame (Game_ID g) (Board g) p (PlayerO g) (CurrentTurn g) (Status g)
         (Winner g) (StartTime g) (EndTime g).
Definition set_PlayerO (p : option ptr) (g : Game) : Game :=
  mkGame (Game_ID g) (Board g) (PlayerX g) p (CurrentTurn g) (Status g)
         (Winner g) (StartTime g) (EndTime g).
Definition set_CurrentTurn (s : string) (g : Game) : Game :=
  mkGame (Game_ID g) (Board g) (PlayerX g) (PlayerO g) s (Status g)
         (Winner g) (StartTime g) (EndTime g).
Definition set_Status (s : string) (g : Game) : Game :=
  mkGame (Game_ID g) (Board g) (PlayerX g) (PlayerO g) (CurrentTurn g) s
         (Winner g) (StartTime g) (EndTime g).
Definition set_Winner (s : string) (g : Game) : Game :=
  mkGame (Game_ID g) (Board g) (PlayerX g) (PlayerO g) (CurrentTurn g) (Status g)
         s (StartTime g) (EndTime g).
Definition set_EndTime (t : option Z) (g : Game) : Game :=
  mkGame (Game_ID g) (Board g) (PlayerX g) (PlayerO g) (CurrentTurn g) (Status g)
         (Winner g) (StartTime g) t.

Local Unset Elimination Schemes.

(** A decoded JSON value, as [encoding/json] stores it in an
    [interface{}]: a number is a [float64], an object a
    [map[string]interface{}] (here an association list read at the first
    entry of a key). *)
Inductive jvalue :=
| JNull
| JBool (b : bool)
| JNumber (f : float)
| JString (s : string)
| JArray (l : list jvalue)
| JObject (m : list (string * jvalue)).

Local Set Elimination Schemes.

(** An inbound [GameMessage]. *)
Record GameMessage := mkGameMessage {
  Msg_Type : string;
  Msg_Data : jvalue;
  Msg_GameID : string;
  Msg_PlayerID : string
}.

Definition set_Msg_PlayerID (id : string) (m : GameMessage) : GameMessage :=
  mkGameMessage (Msg_Type m) (Msg_Data m) (Msg_GameID m) id.

(** The heap of [Player] objects. A Go pointer that is not nil always
    points to a live object, so the heap is total. *)
Abbreviation heap := (ptr -> Player).

(** [board[i]] for a [[9]string]. *)
Definition cell (board : list string) (i : nat) : string :=
  default "" (board !! i).

End models.

Import models.

(** ** package game *)

(** A Go [error]: [None] is nil, [Some s] is [errors.New(s)]. *)
Definition error := option string.

(** The messages of the rule violations, under the specification's names. *)
Definition NotPlaying := "game is not in playing state".
Definition OutOfRange := "invalid position".
Definition CellOccupied := "position already occupied".
Definition PlayerNotInGame := "player not in this game".
Definition NotYourTurn := "not your turn".

(** ** The rating formula of the specification *)

(** The expected score of the X player with real exponentiation,
    [1 / (1 + 10^((ratingO - ratingX) / 400))]. *)
Definition spec_expectedX (ratingX ratingO : Z) : R :=
  (1 / (1 + Rpower 10 (IZR (ratingO - ratingX) / 400)))%R.

(** The nearest integer (halves upward). *)
Definition round (x : R) : Z := up (x + 1 / 2)%R - 1.

(** [round(K * (actualOwn - expectedOwn))] with K = 32. *)
Definition spec_ratingChange (actualOwn expectedOwn : R) : Z :=
  round (32 * (actualOwn - expectedOwn))%R.

(** ** Conversions of the Go compiler *)

(** On amd64 [int(f)] is CVTTSD2SQ: every operand without an [int] value
    gives the "integer indefinite" [-2^63]. *)
Definition amd64_unrepresentable (f : float) : Z := - 2 ^ 63.

(** On arm64 [int(f)] is FCVTZS: it saturates, and NaN gives 0. *)
Definition arm64_unrepresentable (f : float) : Z :=
  if (f <? 0)%float then - 2 ^ 63
  else if (0 <? f)%float then 2 ^ 63 - 1
  else 0.

Section server.

(** A conversion [int(f)] whose operand is infinite, NaN or beyond the
    range of [int] succeeds in Go with an implementation-dependent value:
    that value is a parameter. *)
Variable unrepresentable : float -> Z.

Definition int_of_float64 (f : float) : Z :=
  match float64_trunc f with
  | Some z => if decide (in_int64 z) then z else unrepresentable f
  | None => unrepresentable f
  end.

(** [p != nil && p.ID == playerID]. *)
Definition is_player (h : heap) (p : option ptr) (playerID : string) : bool :=
  match p with
  | Some a => bool_decide (ID (h a) = playerID)
  | None => false
  end.

(** [IsValidMove]. *)
Definition IsValidMove (h : heap) (game : Game) (playerID : string)
    (position : Z) : error :=
  if decide (Status game <> STATUS_PLAYING) then Some NotPlaying
  else if decide (position < 0 \/ position > 8) then Some OutOfRange
  else if decide (cell (Board game) (Z.to_nat position) <> "") then Some CellOccupied
  else
    let playerSymbol :=
      if is_player h (PlayerX game) playerID then Some "X"
      else if is_player h (PlayerO game) playerID then Some "O"
      else None in
    match playerSymbol with
    | None => Some PlayerNotInGame
    | Some playerSymbol =>
        if decide (CurrentTurn game <> playerSymbol) then Some NotYourTurn
        else None
    end.

(** [CheckWinner]: the winning combinations and the scan over them. *)
Definition winningCombos : list (nat * nat * nat) :=
  [ (0, 1, 2); (3, 4, 5); (6, 7, 8);
    (0, 3, 6); (1, 4, 7); (2, 5, 8);
    (0, 4, 8); (2, 4, 6) ]%nat.

Definition combo_matches (board : list string) (combo : nat * nat * nat) : Prop :=
  let '(c0, c1, c2) := combo in
  cell board c0 <> "" /\ cell board c0 = cell board c1 /\ cell board c1 = cell board c2.

Global Instance combo_matches_dec board combo : Decision (combo_matches board combo).
Proof. destruct combo as [[c0 c1] c2]. unfold combo_matches. apply _. Defined.

Fixpoint scanCombos (board : list string) (combos : list (nat * nat * nat)) : string :=
  match combos with
  | [] => ""
  | combo :: rest =>
      if decide (combo_matches board combo) then cell board (combo.1.1)
      else scanCombos board rest
  end.

Definition CheckWinner (board : list string) : string :=
  scanCombos board winningCombos.

(** [IsBoardFull]. *)
Fixpoint IsBoardFull (board : list string) : bool :=
  match board with
  | [] => true
  | c :: rest => if decide (c = "") then false else IsBoardFull rest
  end.

(** [updateRating]. In Go [^] is bitwise exclusive or, and both untyped
    constants [10.0] and [400.0] take the type [int] of the other operand:
    the quotient is the truncated integer quotient. *)
Definition K : float := 32%float.

Definition expectedX (ratingX ratingO : Z) : float :=
  (1 / (1 + float64_of_int (Z.lxor 10 (Z.quot (wrap64 (ratingO - ratingX)) 400))))%float.

Definition ratingChangeX (ratingX ratingO : Z) (score : float) : Z :=
  int_of_float64 (K * (score - expectedX ratingX ratingO))%float.

Definition ratingChangeO (ratingX ratingO : Z) (score : float) : Z :=
  int_of_float64 (K * ((1 - score) - (1 - expectedX ratingX ratingO)))%float.

Definition updateRating (h : heap) (playerX playerO : ptr) (score : float) : heap :=
  let changeX := ratingChangeX (Rating (h playerX)) (Rating (h playerO)) score in
  let changeO := ratingChangeO (Rating (h playerX)) (Rating (h playerO)) score in
  let h := <[playerX := set_Rating (wrap64 (Rating (h playerX) + changeX)) (h playerX)]> h in
  let h := <[playerO := set_Rating (wrap64 (Rating (h playerO) + changeO)) (h playerO)]> h in
  let h := if decide (Rating (h playerX) < 0)
           then <[playerX := set_Rating 0 (h playerX)]> h else h in
  let h := if decide (Rating (h playerO) < 0)
           then <[playerO := set_Rating 0 (h playerO)]> h else h in
  h.

(** [updatePlayerStats]. *)
Definition updatePlayerStats (h : heap) (game : Game) : heap :=
  match PlayerX game, PlayerO game with
  | Some px, Some po =>
      if decide (Winner game = "X") then
        let h := <[px := set_Wins (wrap64 (Wins (h px) + 1)) (h px)]> h in
        let h := <[po := set_Losses (wrap64 (Losses (h po) + 1)) (h po)]> h in
        updateRating h px po 1%float
      else if decide (Winner game = "O") then
        let h := <[po := set_Wins (wrap64 (Wins (h po) + 1)) (h po)]> h in
        let h := <[px := set_Losses (wrap64 (Losses (h px) + 1)) (h px)]> h in
        updateRating h px po 0%float
      else if decide (Winner game = "draw") then
        let h := <[px := set_Draws (wrap64 (Draws (h px) + 1)) (h px)]> h in
        let h := <[po := set_Draws (wrap64 (Draws (h po) + 1)) (h po)]> h in
        updateRating h px po 0.5%float
      else h
  | _, _ => h
  end.

(** [MakeMove]: the heap and the game after the call, and the error. *)
Definition MakeMove (h : heap) (game : Game) (playerID : string)
    (position : Z) : heap * Game * error :=
  match IsValidMove h game playerID position with
  | Some err => (h, game, Some err)
  | None =>
      let game := set_Board (<[Z.to_nat position := CurrentTurn game]> (Board game)) game in
      let winner := CheckWinner (Board game) in
      if decide (winner <> "") then
        let game := set_Status STATUS_FINISHED game in
        let game := set_Winner winner game in
        (updatePlayerStats h game, game, None)
      else if IsBoardFull (Board game) then
        let game := set_Status STATUS_FINISHED game in
        let game := set_Winner "draw" game in
        (updatePlayerStats h game, game, None)
      else
        let game := if decide (CurrentTurn game = "X")
                    then set_CurrentTurn "O" game
                    else set_CurrentTurn "X" game in
        (h, game, None)
  end.

(** The specification's [evaluateTermination]: the outcome that the
    branches of [MakeMove] read off the board. *)
Inductive Termination :=
| NoTermination
| WinnerIs (symbol : string)
| Draw.

Definition evaluateTermination (board : list string) : Termination :=
  let winner := CheckWinner board in
  if decide (winner <> "") then WinnerIs winner
  else if IsBoardFull board then Draw
  else NoTermination.

(** [GetGameStateForPlayer]. *)
Record GameState := mkGameState {
  gameId : string;
  board : list string;
  currentTurn : string;
  status : string;
  winner : string;
  mySymbol : string;
  opponentName : string;
  isMyTurn : bool
}.

Definition GetGameStateForPlayer (h : heap) (game : Game) (playerID : string) : GameState :=
  let '(mySymbol, opponentName) :=
    if is_player h (PlayerX game) playerID then
      ("X", match PlayerO game with Some po => Name (h po) | None => "" end)
    else if is_player h (PlayerO game) playerID then
      ("O", match PlayerX game with Some px => Name (h px) | None => "" end)
    else ("", "") in
  {| gameId := Game_ID game;
     board := Board game;
     currentTurn := CurrentTurn game;
     status := Status game;
     winner := Winner game;
     mySymbol := mySymbol;
     opponentName := opponentName;
     isMyTurn := bool_decide (CurrentTurn game = mySymbol)
                 && bool_decide (Status game = STATUS_PLAYING) |}.

(** ** package handlers *)

(** A WebSocket connection. *)
Definition conn := nat.

(** What a handler writes: the payload of an outbound message. The ranking
    sent with a [leaderboard] message is read from the registry in map
    iteration order and is left out. *)
Inductive payload :=
| PlayerInfo (p : Player)
| GameStateOf (v : GameState)
| ErrorText (errorMsg : string)
| LeaderboardOf.

Inductive event :=
| SendToClient (c : conn) (type : string) (data : payload)
| SendToPlayer (playerID : string) (type : string) (data : payload) (gameID : string)
| Broadcast (type : string) (data : payload).

(** [GameServer]: the three maps, the queue, and the heap the [*Player]
    values of the maps and of the games point into ([brk] is the next free
    address). *)
Record GameServer := mkGameServer {
  clients : gmap conn ptr;
  games : gmap string Game;
  players : gmap string ptr;
  matchmaking : list string;
  memory : heap;
  brk : ptr
}.

Definition set_clients (c : gmap conn ptr) (gs : GameServer) : GameServer :=
  mkGameServer c (games gs) (players gs) (matchmaking gs) (memory gs) (brk gs).
Definition set_games (g : gmap string Game) (gs : GameServer) : GameServer :=
  mkGameServer (clients gs) g (players gs) (matchmaking gs) (memory gs) (brk gs).
Definition set_players (p : gmap string ptr) (gs : GameServer) : GameServer :=
  mkGameServer (clients gs) (games gs) p (matchmaking gs) (memory gs) (brk gs).
Definition set_matchmaking (q : list string) (gs : GameServer) : GameServer :=
  mkGameServer (clients gs) (games gs) (players gs) q (memory gs) (brk gs).
Definition set_memory (h : heap) (gs : GameServer) : GameServer :=
  mkGameServer (clients gs) (games gs) (players gs) (matchmaking gs) h (brk gs).
Definition set_brk (b : ptr) (gs : GameServer) : GameServer :=
  mkGameServer (clients gs) (games gs) (players gs) (matchmaking gs) (memory gs) b.

(** [NewGameServer]. *)
Definition NewGameServer (h : heap) : GameServer :=
  {| clients := ∅; games := ∅; players := ∅; matchmaking := [];
     memory := h; brk := 0%nat |}.

Definition sendError (playerID errorMsg : string) : event :=
  SendToPlayer playerID MSG_ERROR (ErrorText errorMsg) "".

Definition sendLeaderboard (c : conn) : event :=
  SendToClient c MSG_LEADERBOARD LeaderboardOf.

Definition broadcastLeaderboard : event :=
  Broadcast MSG_LEADERBOARD LeaderboardOf.

(** [sendGameUpdate]. *)
Definition sendGameUpdate (h : heap) (gameInstance : Game) : list event :=
  ((match PlayerX gameInstance with
   | Some px =>
       [SendToPlayer (ID (h px)) MSG_GAME_UPDATE
          (GameStateOf (GetGameStateForPlayer h gameInstance (ID (h px))))
          (Game_ID gameInstance)]
   | None => []
   end) ++
  (match PlayerO gameInstance with
   | Some po =>
       [SendToPlayer (ID (h po)) MSG_GAME_UPDATE
          (GameStateOf (GetGameStateForPlayer h gameInstance (ID (h po))))
          (Game_ID gameInstance)]
   | None => []
   end))%list.

(** The registration at the head of [HandleWebSocket]: a fresh [Player] for
    the connection, entered in [clients] and [players]. *)
Definition HandleWebSocket_register (gs : GameServer) (c : conn)
    (name uuid : string) (now : Z) : GameServer * list event :=
  let playerName := if decide (name = "") then "Anonymous" else name in
  let player := brk gs in
  let gs := set_memory (<[player := NewPlayer uuid now playerName]> (memory gs)) gs in
  let gs := set_brk (S player) gs in
  let gs := set_clients (<[c := player]> (clients gs)) gs in
  let gs := set_players (<[uuid := player]> (players gs)) gs in
  (gs, [SendToClient c MSG_PLAYER_UPDATE (PlayerInfo (memory gs player));
        sendLeaderboard c]).

(** [createMatch]; [uuid] and [now] are what [NewGame] draws. *)
Definition createMatch (gs : GameServer) (uuid : string) (now : Z)
    : GameServer * list event :=
  match matchmaking gs with
  | player1ID :: player2ID :: rest =>
      let gs := set_matchmaking rest gs in
      match players gs !! player1ID, players gs !! player2ID with
      | Some player1, Some player2 =>
          let newGame := NewGame uuid now in
          let newGame := set_PlayerX (Some player1) newGame in
          let newGame := set_PlayerO (Some player2) newGame in
          let newGame := set_Status STATUS_PLAYING newGame in
          let h := memory gs in
          let h := <[player1 := set_Symbol "X" (h player1)]> h in
          let h := <[player2 := set_Symbol "O" (h player2)]> h in
          let gs := set_memory h gs in
          let gs := set_games (<[Game_ID newGame := newGame]> (games gs)) gs in
          (gs,
           [SendToPlayer (ID (h player1)) MSG_GAME_FOUND
              (GameStateOf (GetGameStateForPlayer h newGame (ID (h player1))))
              (Game_ID newGame);
            SendToPlayer (ID (h player2)) MSG_GAME_FOUND
              (GameStateOf (GetGameStateForPlayer h newGame (ID (h player2))))
              (Game_ID newGame)])
      | _, _ => (gs, [])
      end
  | _ => (gs, [])
  end.

(** [handleJoinQueue]. *)
Definition handleJoinQueue (gs : GameServer) (player : ptr) (uuid : string)
    (now : Z) : GameServer * list event :=
  if decide (ID (memory gs player) ∈ matchmaking gs) then (gs, [])
  else
    let gs := set_matchmaking (matchmaking gs ++ [ID (memory gs player)])%list gs in
    if decide (2 <= length (matchmaking gs))%nat then createMatch gs uuid now
    else (gs, []).

(** [append(q[:i], q[i+1:]...)] at the first [i] with [q[i] == playerID]. *)
Fixpoint removeFirst (playerID : string) (q : list string) : list string :=
  match q with
  | [] => []
  | x :: rest => if decide (x = playerID) then rest else x :: removeFirst playerID rest
  end.

(** [handleLeaveQueue]. *)
Definition handleLeaveQueue (gs : GameServer) (player : ptr) : GameServer * list event :=
  (set_matchmaking (removeFirst (ID (memory gs player)) (matchmaking gs)) gs, []).

(** [moveData[key]] after [json.Unmarshal] into a [map[string]interface{}]:
    a payload that is not an object leaves the map nil. *)
Fixpoint assoc (key : string) (m : list (string * jvalue)) : option jvalue :=
  match m with
  | [] => None
  | (k, v) :: rest => if decide (k = key) then Some v else assoc key rest
  end.

Definition moveData (data : jvalue) (key : string) : option jvalue :=
  match data with
  | JObject m => assoc key m
  | _ => None
  end.

(** [handleMakeMove]. The game is mutated in place: what [MakeMove] leaves
    is written back under the key it was read from. *)
Definition handleMakeMove (gs : GameServer) (msg : GameMessage) (now : Z)
    : GameServer * list event :=
  match moveData (Msg_Data msg) "gameId" with
  | Some (JString gameID) =>
      match moveData (Msg_Data msg) "position" with
      | Some (JNumber position) =>
          match games gs !! gameID with
          | None => (gs, [sendError (Msg_PlayerID msg) "Game not found"])
          | Some gameInstance =>
              let '(h, gameInstance, err) :=
                MakeMove (memory gs) gameInstance (Msg_PlayerID msg)
                         (int_of_float64 position) in
              let gs := set_memory h gs in
              let gs := set_games (<[gameID := gameInstance]> (games gs)) gs in
              match err with
              | Some e => (gs, [sendError (Msg_PlayerID msg) e])
              | None =>
                  let updates := sendGameUpdate h gameInstance in
                  if decide (Status gameInstance = STATUS_FINISHED) then
                    let gameInstance := set_EndTime (Some now) gameInstance in
                    (set_games (<[gameID := gameInstance]> (games gs)) gs,
                     (updates ++ [broadcastLeaderboard])%list)
                  else (gs, updates)
              end
          end
      | _ => (gs, [])
      end
  | _ => (gs, [])
  end.

(** [handleMessage]. *)
Definition handleMessage (gs : GameServer) (c : conn) (msg : GameMessage)
    (uuid : string) (now : Z) : GameServer * list event :=
  match clients gs !! c with
  | None => (gs, [])
  | Some player =>
      let msg := set_Msg_PlayerID (ID (memory gs player)) msg in
      if decide (Msg_Type msg = MSG_JOIN_QUEUE) then handleJoinQueue gs player uuid now
      else if decide (Msg_Type msg = MSG_LEAVE_QUEUE) then handleLeaveQueue gs player
      else if decide (Msg_Type msg = MSG_MAKE_MOVE) then handleMakeMove gs msg now
      else if decide (Msg_Type msg = MSG_LEADERBOARD) then (gs, [sendLeaderboard c])
      else (gs, [])
  end.

(** [handleDisconnect]. *)
Definition handleDisconnect (gs : GameServer) (c : conn) (now : Z) : GameServer :=
  match clients gs !! c with
  | None => gs
  | Some player =>
      let gs := set_matchmaking (removeFirst (ID (memory gs player)) (matchmaking gs)) gs in
      let gs := set_memory (<[player := set_LastSeen now (memory gs player)]> (memory gs)) gs in
      set_clients (delete c (clients gs)) gs
  end.

(** ** Games in play *)

(** The game that [createMatch] builds from [NewGame]. *)
Definition matchGame (uuid : string) (now : Z) (player1 player2 : ptr) : Game :=
  set_Status STATUS_PLAYING
    (set_PlayerO (Some player2) (set_PlayerX (Some player1) (NewGame uuid now))).

(** [played n game]: [game] is a match after [n] moves that [MakeMove]
    accepted, on any heap and by any identifier. *)
Inductive played : nat -> Game -> Prop :=
| played_start uuid now player1 player2 :
    played 0 (matchGame uuid now player1 player2)
| played_move n game h playerID position h' game' :
    played n game ->
    MakeMove h game playerID position = (h', game', None) ->
    played (S n) game'.

(** [reachable game]: [game] was created by [NewGame], made a match, and
    went through any calls of [MakeMove], accepted or not;
    [handleMakeMove] may have recorded its end time. *)
Inductive reachable : Game -> Prop :=
| reachable_NewGame uuid now :
    reachable (NewGame uuid now)
| reachable_match uuid now player1 player2 :
    reachable (matchGame uuid now player1 player2)
| reachable_MakeMove game h playerID position :
    reachable game ->
    reachable (MakeMove h game playerID position).1.2
| reachable_EndTime game t :
    reachable game ->
    reachable (set_EndTime t game).

(** The winning lines in the specification's words: 3 rows, 3 columns and
    2 diagonals of the 3 x 3 board. *)
Definition rows : list (nat * nat * nat) :=
  (fun r => (3 * r, 3 * r + 1, 3 * r + 2)%nat) <$> [0; 1; 2]%nat.
Definition columns : list (nat * nat * nat) :=
  (fun c => (c, c + 3, c + 6)%nat) <$> [0; 1; 2]%nat.
Definition diagonals : list (nat * nat * nat) :=
  [(0, 4, 8); (2, 4, 6)]%nat.

(** Some line holds three equal non-empty cells. *)
Definition has_line (board : list string) : Prop :=
  exists combo, combo ∈ (rows ++ columns ++ diagonals)%list /\ combo_matches board combo.

(** The number of cells holding [s]. *)
Fixpoint countSym (s : string) (board : list string) : nat :=
  match board with
  | [] => 0
  | c :: rest => ((if decide (c = s) then 1 else 0) + countSym s rest)%nat
  end.

(** Every cell is empty or holds one of the two symbols. *)
Definition cells_ok (board : list string) : Prop :=
  Forall (fun c => c = "" \/ c = "X" \/ c = "O") board.


(** ** Vocabulary of the properties *)

(** "The identifier matches neither assigned player". *)
Definition matches_neither (h : heap) (game : Game) (playerID : string) : Prop :=
  (forall p, PlayerX game = Some p -> ID (h p) <> playerID) /\
  (forall p, PlayerO game = Some p -> ID (h p) <> playerID).

(** "The matching player's symbol": X for the player assigned X, otherwise O
    for the player assigned O. *)
Inductive matching_symbol (h : heap) (game : Game) (playerID : string) : string -> Prop :=
| matching_X p :
    PlayerX game = Some p -> ID (h p) = playerID ->
    matching_symbol h game playerID "X"
| matching_O p :
    (forall q, PlayerX game = Some q -> ID (h q) <> playerID) ->
    PlayerO game = Some p -> ID (h p) = playerID ->
    matching_symbol h game playerID "O".

(** X moves first and the turns alternate: the board of a match after [n]
    moves holds [n] symbols, as many X as O or one more. *)
Definition moves_inv (n : nat) (game : Game) : Prop :=
  length (Board game) = 9%nat /\
  cells_ok (Board game) /\
  (countSym "X" (Board game) + countSym "O" (Board game) = n)%nat /\
  (countSym "O" (Board game) <= countSym "X" (Board game)
   <= countSym "O" (Board game) + 1)%nat /\
  (Status game = STATUS_PLAYING ->
   (CurrentTurn game = "X" /\ countSym "X" (Board game) = countSym "O" (Board game)) \/
   (CurrentTurn game = "O" /\
    countSym "X" (Board game) = S (countSym "O" (Board game)))).

(** What holds of the status and the winner of every game. *)
Definition status_inv (game : Game) : Prop :=
  cells_ok (Board game) /\
  (((Status game = STATUS_WAITING \/ Status game = STATUS_PLAYING) /\ Winner game = "") \/
   (Status game = STATUS_FINISHED /\
    (Winner game = "X" \/ Winner game = "O" \/ Winner game = "draw"))).

(** The changes depend on the ratings through the truncated quotient of
    their difference by 400 only. *)
Definition ratingBucket (ratingX ratingO : Z) : Z :=
  Z.quot (wrap64 (ratingO - ratingX)) 400.

Definition zero_sum_at (bucket : Z) : bool :=
  forallb (fun score =>
    let expected := (1 / (1 + float64_of_int (Z.lxor 10 bucket)))%float in
    (int_of_float64 (K * (score - expected))%float
     + int_of_float64 (K * ((1 - score) - (1 - expected)))%float =? 0)%Z)
    [1%float; 0%float; 0.5%float].

(** The rating of a newcomer after [n] wins in a row as X, each over a
    player rated 1000: the X side of [updateRating], [n] times. *)
Definition winStreak (n : nat) : Z :=
  Nat.iter n
    (fun rating =>
       let rating := wrap64 (rating + ratingChangeX rating 1000 1) in
       if decide (rating < 0) then 0 else rating)
    1000.

(** ** Server states *)

(** The states the server goes through: connections register, messages are
    handled one at a time, connections drop. *)
Inductive server_reachable : GameServer -> Prop :=
| server_new h :
    server_reachable (NewGameServer h)
| server_register gs c name uuid now :
    server_reachable gs ->
    server_reachable (HandleWebSocket_register gs c name uuid now).1
| server_message gs c msg uuid now :
    server_reachable gs ->
    server_reachable (handleMessage gs c msg uuid now).1
| server_disconnect gs c now :
    server_reachable gs ->
    server_reachable (handleDisconnect gs c now).


(** ** Vocabulary of the further properties *)

(** Two records that differ in the rating at most. *)
Definition same_but_Rating (a b : Player) : Prop :=
  ID a = ID b /\ Name a = Name b /\ Symbol a = Symbol b /\ Wins a = Wins b /\
  Losses a = Losses b /\ Draws a = Draws b /\ LastSeen a = LastSeen b.

(** How a match stands: in play without a line and with a cell free, or
    finished as a draw on a full board without a line, or finished with
    the symbol of a line as winner. *)
Definition outcome_inv (game : Game) : Prop :=
  (Status game = STATUS_PLAYING /\ Winner game = "" /\
   IsBoardFull (Board game) = false /\ ~ has_line (Board game)) \/
  (Status game = STATUS_FINISHED /\ Winner game = "draw" /\
   IsBoardFull (Board game) = true /\ ~ has_line (Board game)) \/
  (Status game = STATUS_FINISHED /\ (Winner game = "X" \/ Winner game = "O") /\
   has_line (Board game) /\ Winner game = CheckWinner (Board game)).

(** The registry of a server state is in order: every connection and
    every registered identifier leads to an allocated player, a player is
    registered under its own identifier, the waiting identifiers are
    registered and differ, and every game is stored under its own
    identifier, has two players of different identifiers, was produced by
    the engine, is playing or finished, and has an end time exactly when
    it is finished. *)
Definition server_inv (gs : GameServer) : Prop :=
  (forall c p, clients gs !! c = Some p ->
     (p < brk gs)%nat /\ is_Some (players gs !! ID (memory gs p))) /\
  (forall id p, players gs !! id = Some p ->
     (p < brk gs)%nat /\ ID (memory gs p) = id) /\
  ((forall id, id ∈ matchmaking gs -> is_Some (players gs !! id)) /\
   NoDup (matchmaking gs)) /\
  (forall gid game, games gs !! gid = Some game ->
     Game_ID game = gid /\ reachable game /\
     (exists p1 p2, PlayerX game = Some p1 /\ PlayerO game = Some p2 /\
                    (p1 < brk gs)%nat /\ (p2 < brk gs)%nat /\
                    ID (memory gs p1) <> ID (memory gs p2)) /\
     (Status game = STATUS_PLAYING \/ Status game = STATUS_FINISHED) /\
     (is_Some (EndTime game) <-> Status game = STATUS_FINISHED)).

(** Both changes of one bucket stay within 64 points. *)
Definition within_64_at (bucket : Z) : bool :=
  forallb (fun score =>
    let expected := (1 / (1 + float64_of_int (Z.lxor 10 bucket)))%float in
    (Z.abs (int_of_float64 (K * (score - expected))%float) <=? 64)%Z
    && (Z.abs (int_of_float64 (K * ((1 - score) - (1 - expected)))%float) <=? 64)%Z)
    [1%float; 0%float; 0.5%float].

(** [getLeaderboard]. The players are ranged over in the order [ranged]
    (Go leaves the order of a map iteration open) and [sortSlice] stands
    for [sort.Slice], given the comparison of two elements. *)
Definition getLeaderboard (sortSlice : (ptr -> ptr -> bool) -> list ptr -> list ptr)
    (h : heap) (ranged : list ptr) : list ptr :=
  let players :=
    filter (fun player =>
              wrap64 (wrap64 (Wins (h player) + Losses (h player)) + Draws (h player)) > 0)
           ranged in
  let players :=
    sortSlice (fun i j => bool_decide (Rating (h i) > Rating (h j))) players in
  if decide (10 < length players)%nat then take 10 players else players.

(** What [sort.Slice] promises for a comparison by a key, larger keys
    first: the result is a rearrangement of the slice in which no element
    is followed by one with a larger key. *)
Definition sorts_by_key (sortSlice : (ptr -> ptr -> bool) -> list ptr -> list ptr) : Prop :=
  forall (key : ptr -> Z) (l : list ptr),
    let sorted := sortSlice (fun i j => bool_decide (key i > key j)) l in
    sorted ≡ₚ l /\
    (forall i j a b, (i < j)%nat -> sorted !! i = Some a -> sorted !! j = Some b ->
                     key b <= key a).

(** [sendToPlayer]: the connection the message is written to, if any.
    The connections are ranged over in the order [ranged] (Go leaves the
    order of a map iteration open) up to the first whose player has the
    identifier. *)
Fixpoint sendToPlayer (h : heap) (ranged : list (conn * ptr)) (playerID : string)
    : option conn :=
  match ranged with
  | [] => None
  | (c, player) :: rest =>
      if decide (ID (h player) = playerID) then Some c
      else sendToPlayer h rest playerID
  end.

(** [handleBroadcast]: the connections a broadcast message is written
    to. *)
Definition handleBroadcast (ranged : list (conn * ptr)) : list conn := ranged.*1.

(** ** The lock *)

(** The handlers above give what a handler does to the registry and which
    messages it hands over for writing, with the handlers taken one at a
    time. The registry is guarded by one [sync.RWMutex]; what follows is
    the use the handlers make of it. *)

(** [sync.RWMutex]: free, held by a writer, or held by [n + 1] readers. *)
Inductive RWMutex := Free | Writing | Reading (n : nat).

(** What a goroutine does with the lock and with the connections, in
    program order. *)
Inductive action :=
| Lock
| Unlock
| RLock
| RUnlock
| Emit (e : event).

(** How the actions of a goroutine end when no other goroutine releases a
    lock meanwhile: the goroutine returns, or it waits for a lock that is
    held ([Lock] on a lock that is not free, [RLock] on a lock held by a
    writer), or the runtime stops the program at the unlock of a lock that
    is not held. The messages are those written so far. *)
Inductive outcome :=
| Returns (m : RWMutex) (sent : list event)
| Blocks (m : RWMutex) (sent : list event)
| Fatal (sent : list event).

Fixpoint run (m : RWMutex) (sent : list event) (todo : list action) : outcome :=
  match todo with
  | [] => Returns m sent
  | Emit e :: rest => run m (sent ++ [e])%list rest
  | Lock :: rest =>
      match m with
      | Free => run Writing sent rest
      | _ => Blocks m sent
      end
  | RLock :: rest =>
      match m with
      | Free => run (Reading 0) sent rest
      | Reading n => run (Reading (S n)) sent rest
      | Writing => Blocks m sent
      end
  | Unlock :: rest =>
      match m with
      | Writing => run Free sent rest
      | _ => Fatal sent
      end
  | RUnlock :: rest =>
      match m with
      | Reading 0 => run Free sent rest
      | Reading (S n) => run (Reading n) sent rest
      | _ => Fatal sent
      end
  end.

(** The lock around a message. [sendToPlayer] holds the read lock while it
    looks for the connection and writes to it; [sendLeaderboard] and
    [broadcastLeaderboard] read the ranking under the read lock
    ([getLeaderboard]) and hand the message over after; [sendToClient]
    takes no lock. *)
Definition deliver (e : event) : list action :=
  match e with
  | SendToPlayer _ _ _ _ => [RLock; Emit e; RUnlock]
  | SendToClient _ _ LeaderboardOf => [RLock; RUnlock; Emit e]
  | Broadcast _ LeaderboardOf => [RLock; RUnlock; Emit e]
  | _ => [Emit e]
  end.

(** [handleJoinQueue] locks on entry and unlocks on return ([defer]); the
    messages of [createMatch] are sent in between. *)
Definition handleJoinQueue_actions (gs : GameServer) (player : ptr) (uuid : string)
    (now : Z) : list action :=
  ([Lock] ++ concat (deliver <$> (handleJoinQueue gs player uuid now).2) ++ [Unlock])%list.

Definition handleLeaveQueue_actions : list action := [Lock; Unlock].

(** [handleMakeMove] locks for the lookup of the game only, after the
    payload is read; the move and the messages come after the unlock. *)
Definition handleMakeMove_actions (gs : GameServer) (msg : GameMessage) (now : Z)
    : list action :=
  match moveData (Msg_Data msg) "gameId", moveData (Msg_Data msg) "position" with
  | Some (JString _), Some (JNumber _) =>
      ([Lock; Unlock] ++ concat (deliver <$> (handleMakeMove gs msg now).2))%list
  | _, _ => []
  end.

(** [handleMessage] locks for the lookup of the connection. *)
Definition handleMessage_actions (gs : GameServer) (c : conn) (msg : GameMessage)
    (uuid : string) (now : Z) : list action :=
  ([Lock; Unlock] ++
   match clients gs !! c with
   | None => []
   | Some player =>
       let msg := set_Msg_PlayerID (ID (memory gs player)) msg in
       if decide (Msg_Type msg = MSG_JOIN_QUEUE) then
         handleJoinQueue_actions gs player uuid now
       else if decide (Msg_Type msg = MSG_LEAVE_QUEUE) then handleLeaveQueue_actions
       else if decide (Msg_Type msg = MSG_MAKE_MOVE) then handleMakeMove_actions gs msg now
       else if decide (Msg_Type msg = MSG_LEADERBOARD) then deliver (sendLeaderboard c)
       else []
   end)%list.

Definition handleDisconnect_actions : list action := [Lock; Unlock].

(** The registration of [HandleWebSocket] locks for the two entries. *)
Definition HandleWebSocket_register_actions (gs : GameServer) (c : conn)
    (name uuid : string) (now : Z) : list action :=
  ([Lock; Unlock]
   ++ concat (deliver <$> (HandleWebSocket_register gs c name uuid now).2))%list.

(** ** Sample data *)

Definition alice : Player := NewPlayer "alice" 0 "Alice".
Definition bob : Player := NewPlayer "bob" 0 "Bob".
Definition carol : Player := NewPlayer "carol" 0 "Carol".

(** Alice at address 0, Bob at 1, Carol everywhere else. *)
Definition sample_heap : heap :=
  fun p => match p with 0%nat => alice | 1%nat => bob | _ => carol end.

(** The same players with given ratings for Alice and Bob. *)
Definition rated_heap (ratingX ratingO : Z) : heap :=
  fun p => match p with
           | 0%nat => set_Rating ratingX alice
           | 1%nat => set_Rating ratingO bob
           | _ => carol
           end.

(** Alice (X) against Bob (O). *)
Definition sample_game : Game := matchGame "game-1" 0 0%nat 1%nat.

(** [MakeMove] for each move of a list in turn. *)
Fixpoint playMoves (h : heap) (game : Game) (moves : list (string * Z)) : heap * Game :=
  match moves with
  | [] => (h, game)
  | (playerID, position) :: rest =>
      let '(h, game, _) := MakeMove h game playerID position in
      playMoves h game rest
  end.

(** Alice plays 0, Bob 4, Alice 1, Bob 5, Alice 2: the top row. *)
Definition scenario : list (string * Z) :=
  [("alice", 0); ("bob", 4); ("alice", 1); ("bob", 5); ("alice", 2)].

(** A full board without a line. *)
Definition drawn_board : list string :=
  ["X"; "O"; "X";
   "X"; "O"; "O";
   "O"; "X"; "X"].

(** Alice, Bob and Carol connected on 0, 1 and 2. *)
Definition sample_server : GameServer :=
  {| clients := {[ 0%nat := 0%nat; 1%nat := 1%nat; 2%nat := 2%nat ]};
     games := {[ "game-1" := sample_game ]};
     players := {[ "alice" := 0%nat; "bob" := 1%nat; "carol" := 2%nat ]};
     matchmaking := [];
     memory := sample_heap;
     brk := 3%nat |}.

(** Alice's move to cell 0 of game-1, and the same message claiming to
    come from Bob, in the envelope and in the payload. *)
Definition honest_move : GameMessage :=
  {| Msg_Type := MSG_MAKE_MOVE;
     Msg_Data := JObject [("gameId", JString "game-1"); ("position", JNumber 0%float)];
     Msg_GameID := "game-1";
     Msg_PlayerID := "alice" |}.

Definition forged_move : GameMessage :=
  {| Msg_Type := MSG_MAKE_MOVE;
     Msg_Data := JObject [("playerId", JString "bob"); ("gameId", JString "game-1");
                          ("position", JNumber 0%float)];
     Msg_GameID := "";
     Msg_PlayerID := "bob" |}.


(** A sort for the samples: merge sort, an element before another when
    the other is not less. *)
Definition not_less (less : ptr -> ptr -> bool) : relation ptr :=
  fun a b => less b a = false.

Global Instance not_less_dec less a b : Decision (not_less less a b).
Proof. unfold not_less. apply _. Defined.

Definition sample_sort (less : ptr -> ptr -> bool) (l : list ptr) : list ptr :=
  merge_sort (not_less less) l.

(** Twelve players who have each won a game, the player at address [p]
    rated [1000 + p]. *)
Definition veterans : heap :=
  fun p => set_Wins 1 (set_Rating (1000 + Z.of_nat p) alice).

(** Alice and Bob connect on 0 and 1 to a new server, Bob without a
    name. *)
Definition lobby : GameServer :=
  (HandleWebSocket_register
     (HandleWebSocket_register (NewGameServer sample_heap) 0%nat "Alice" "alice" 0).1
     1%nat "" "bob" 0).1.

Definition join_queue : GameMessage :=
  {| Msg_Type := MSG_JOIN_QUEUE; Msg_Data := JNull; Msg_GameID := ""; Msg_PlayerID := "" |}.

(** Alice joins the queue of the lobby and waits; Bob joins and game-1 is
    made. *)
Definition waiting_room : GameServer :=
  (handleMessage lobby 0%nat join_queue "game-0" 1).1.

Definition match_room : GameServer :=
  (handleMessage waiting_room 1%nat join_queue "game-1" 2).1.

(** * Properties of the rules engine *)

(** ** Move validation *)

Lemma is_player_true h p playerID :
  is_player h p playerID = true <-> exists a, p = Some a /\ ID (h a) = playerID.
Proof.
  destruct p as [a|]; simpl.
  - rewrite bool_decide_eq_true. split; [eauto | intros (b & [= <-] & ?); done].
  - split; [done | intros (b & ? & _); done].
Qed.

Lemma is_player_false h p playerID :
  is_player h p playerID = false <-> forall a, p = Some a -> ID (h a) <> playerID.
Proof.
  destruct p as [a|]; simpl.
  - rewrite bool_decide_eq_false. split; [intros ? b [= <-]; done | eauto].
  - split; [intros _ b ?; done | done].
Qed.

Lemma matches_neither_is_player h game playerID :
  matches_neither h game playerID <->
  is_player h (PlayerX game) playerID = false /\
  is_player h (PlayerO game) playerID = false.
Proof. unfold matches_neither. by rewrite !is_player_false. Qed.

Lemma matching_symbol_is_player h game playerID s :
  matching_symbol h game playerID s <->
  (is_player h (PlayerX game) playerID = true /\ s = "X") \/
  (is_player h (PlayerX game) playerID = false /\
   is_player h (PlayerO game) playerID = true /\ s = "O").
Proof.
  rewrite !is_player_true, is_player_false. split.
  - intros [p Hp Hid | p Hx Hp Hid]; [left | right]; eauto 10.
  - intros [[(p & Hp & Hid) ->] | (Hx & (p & Hp & Hid) & ->)].
    + by eapply matching_X.
    + by eapply matching_O.
Qed.

(** The branch of [IsValidMove] that decides, for every input. *)
Lemma IsValidMove_cases h game playerID position :
  (Status game <> STATUS_PLAYING /\
   IsValidMove h game playerID position = Some NotPlaying) \/
  (Status game = STATUS_PLAYING /\ (position < 0 \/ position > 8) /\
   IsValidMove h game playerID position = Some OutOfRange) \/
  (Status game = STATUS_PLAYING /\ 0 <= position <= 8 /\
   cell (Board game) (Z.to_nat position) <> "" /\
   IsValidMove h game playerID position = Some CellOccupied) \/
  (Status game = STATUS_PLAYING /\ 0 <= position <= 8 /\
   cell (Board game) (Z.to_nat position) = "" /\
   matches_neither h game playerID /\
   IsValidMove h game playerID position = Some PlayerNotInGame) \/
  (Status game = STATUS_PLAYING /\ 0 <= position <= 8 /\
   cell (Board game) (Z.to_nat position) = "" /\
   (exists s, matching_symbol h game playerID s /\ CurrentTurn game <> s) /\
   IsValidMove h game playerID position = Some NotYourTurn) \/
  (Status game = STATUS_PLAYING /\ 0 <= position <= 8 /\
   cell (Board game) (Z.to_nat position) = "" /\
   matching_symbol h game playerID (CurrentTurn game) /\
   IsValidMove h game playerID position = None).
Proof.
  unfold IsValidMove.
  destruct (decide (Status game <> STATUS_PLAYING)) as [?|Hs%dec_stable]; [by left|right].
  destruct (decide (position < 0 \/ position > 8)) as [?|Hr]; [by left|right].
  assert (0 <= position <= 8) by lia.
  destruct (decide (cell (Board game) (Z.to_nat position) <> "")) as [?|Hc%dec_stable];
    [by left|right].
  destruct (is_player h (PlayerX game) playerID) eqn:Hx.
  - right. destruct (decide (CurrentTurn game <> "X")) as [?|Ht%dec_stable]; [left|right].
    + split_and!; try done; try lia. exists "X". split; [|done].
      apply matching_symbol_is_player. by left.
    + split_and!; try done; try lia. rewrite Ht. apply matching_symbol_is_player. by left.
  - destruct (is_player h (PlayerO game) playerID) eqn:Ho.
    + right. destruct (decide (CurrentTurn game <> "O")) as [?|Ht%dec_stable]; [left|right].
      * split_and!; try done; try lia. exists "O". split; [|done].
        apply matching_symbol_is_player. by right.
      * split_and!; try done; try lia. rewrite Ht. apply matching_symbol_is_player. by right.
    + left. split_and!; try done; try lia. by apply matches_neither_is_player.
Qed.

Lemma matching_symbol_fun h game playerID s t :
  matching_symbol h game playerID s -> matching_symbol h game playerID t -> s = t.
Proof.
  rewrite !matching_symbol_is_player. intros [[? ->]|(? & ? & ->)] [[? ->]|(? & ? & ->)];
    congruence.
Qed.

Lemma matching_symbol_not_neither h game playerID s :
  matching_symbol h game playerID s -> matches_neither h game playerID -> False.
Proof.
  rewrite matching_symbol_is_player, matches_neither_is_player.
  intros [[? ->]|(? & ? & ->)] [? ?]; congruence.
Qed.

(** C2: [IsValidMove] (validateMove) fails with NotPlaying when the status
    is not playing; otherwise with OutOfRange when the position is outside
    0..8; otherwise with CellOccupied when the cell is not empty; otherwise
    with PlayerNotInGame when the identifier matches neither assigned
    player; otherwise with NotYourTurn when the matching player's symbol is
    not the current turn; and succeeds otherwise. It is a pure check: an
    error is all it returns, the heap and the game are not among its
    results. *)
Theorem IsValidMove_outcome h game playerID position :
  (Status game <> STATUS_PLAYING ->
   IsValidMove h game playerID position = Some NotPlaying) /\
  (Status game = STATUS_PLAYING -> position < 0 \/ position > 8 ->
   IsValidMove h game playerID position = Some OutOfRange) /\
  (Status game = STATUS_PLAYING -> 0 <= position <= 8 ->
   cell (Board game) (Z.to_nat position) <> "" ->
   IsValidMove h game playerID position = Some CellOccupied) /\
  (Status game = STATUS_PLAYING -> 0 <= position <= 8 ->
   cell (Board game) (Z.to_nat position) = "" ->
   matches_neither h game playerID ->
   IsValidMove h game playerID position = Some PlayerNotInGame) /\
  (Status game = STATUS_PLAYING -> 0 <= position <= 8 ->
   cell (Board game) (Z.to_nat position) = "" ->
   forall s, matching_symbol h game playerID s -> CurrentTurn game <> s ->
   IsValidMove h game playerID position = Some NotYourTurn) /\
  (Status game = STATUS_PLAYING -> 0 <= position <= 8 ->
   cell (Board game) (Z.to_nat position) = "" ->
   forall s, matching_symbol h game playerID s -> CurrentTurn game = s ->
   IsValidMove h game playerID position = None).
Proof.
  pose proof (IsValidMove_cases h game playerID position) as Hcases.
  split_and!.
  - intros Hs. destruct Hcases as [[_ ?]|Hrest]; [done|].
    destruct Hrest as [H|[H|[H|[H|H]]]]; by destruct H as [? _].
  - intros Hs Hr.
    destruct Hcases as [[? _]|[(_ & _ & ?)|[H|[H|[H|H]]]]]; try done;
      destruct H as (_ & ? & _); lia.
  - intros Hs Hr Hc.
    destruct Hcases as [[? _]|[(_ & ? & _)|[(_ & _ & _ & ?)|[H|[H|H]]]]]; try done;
      try lia; by destruct H as (_ & _ & ? & _).
  - intros Hs Hr Hc Hn.
    destruct Hcases as [[? _]|[(_ & ? & _)|[(_ & _ & ? & _)|[(_ & _ & _ & _ & ?)|[H|H]]]]];
      try done; try lia.
    + destruct H as (_ & _ & _ & (s & Hm & _) & _).
      destruct (matching_symbol_not_neither _ _ _ _ Hm Hn).
    + destruct H as (_ & _ & _ & Hm & _).
      destruct (matching_symbol_not_neither _ _ _ _ Hm Hn).
  - intros Hs Hr Hc s Hm Ht.
    destruct Hcases as [[? _]|[(_ & ? & _)|[(_ & _ & ? & _)|[H|[H|H]]]]];
      try done; try lia.
    + destruct H as (_ & _ & _ & Hn & _).
      destruct (matching_symbol_not_neither _ _ _ _ Hm Hn).
    + by destruct H as (_ & _ & _ & _ & ?).
    + destruct H as (_ & _ & _ & Hm' & _).
      destruct Ht. eapply matching_symbol_fun; eauto.
  - intros Hs Hr Hc s Hm Ht.
    destruct Hcases as [[? _]|[(_ & ? & _)|[(_ & _ & ? & _)|[H|[H|H]]]]];
      try done; try lia.
    + destruct H as (_ & _ & _ & Hn & _).
      destruct (matching_symbol_not_neither _ _ _ _ Hm Hn).
    + destruct H as (_ & _ & _ & (t & Hm' & Hne) & _).
      destruct Hne. rewrite Ht. eapply matching_symbol_fun; eauto.
    + by destruct H as (_ & _ & _ & _ & ?).
Qed.

(** ** Applying a move *)

Lemma cell_insert_eq (b : list string) i x :
  (i < length b)%nat -> cell (<[i:=x]> b) i = x.
Proof. intros Hi. unfold cell. by rewrite list_lookup_insert_eq. Qed.

Lemma cell_insert_ne (b : list string) i j x :
  i <> j -> cell (<[i:=x]> b) j = cell b j.
Proof. intros Hij. unfold cell. by rewrite list_lookup_insert_ne. Qed.

(** What [MakeMove] does once the validation has passed, by the outcome
    read off the new board. *)
Lemma MakeMove_valid h game playerID position :
  IsValidMove h game playerID position = None ->
  let board' := <[Z.to_nat position := CurrentTurn game]> (Board game) in
  let moved := set_Board board' game in
  MakeMove h game playerID position =
    match evaluateTermination board' with
    | WinnerIs s =>
        let final := set_Winner s (set_Status STATUS_FINISHED moved) in
        (updatePlayerStats h final, final, None)
    | Draw =>
        let final := set_Winner "draw" (set_Status STATUS_FINISHED moved) in
        (updatePlayerStats h final, final, None)
    | NoTermination =>
        (h, set_CurrentTurn (if decide (CurrentTurn game = "X") then "O" else "X") moved,
         None)
    end.
Proof.
  intros Hv. unfold MakeMove, evaluateTermination. rewrite Hv. simpl.
  destruct (decide (CheckWinner _ <> "")); [done|].
  destruct (IsBoardFull _); [done|].
  by destruct (decide (CurrentTurn game = "X")).
Qed.

Lemma MakeMove_invalid h game playerID position e :
  IsValidMove h game playerID position = Some e ->
  MakeMove h game playerID position = (h, game, Some e).
Proof. intros Hv. unfold MakeMove. by rewrite Hv. Qed.

(** A move that passes the validation is made on the turn of "X" or "O". *)
Lemma IsValidMove_turn h game playerID position :
  IsValidMove h game playerID position = None ->
  Status game = STATUS_PLAYING /\ 0 <= position <= 8 /\
  cell (Board game) (Z.to_nat position) = "" /\
  (CurrentTurn game = "X" \/ CurrentTurn game = "O").
Proof.
  intros Hv.
  destruct (IsValidMove_cases h game playerID position)
    as [[_ H]|[(_ & _ & H)|[(_ & _ & _ & H)|[(_ & _ & _ & _ & H)|[(_ & _ & _ & _ & H)|H]]]]];
    try congruence.
  destruct H as (? & ? & ? & Hm & _). split_and!; try done; try lia.
  apply matching_symbol_is_player in Hm. destruct Hm as [[_ ?]|(_ & _ & ?)]; auto.
Qed.

(** C3: when the validation succeeds, [MakeMove] (applyMove) writes the
    current-turn symbol into the cell and evaluates termination on the new
    board: on a winning line or a full board the status becomes finished
    and the turn is left as it is; otherwise the game stays in play and the
    turn is flipped to the other symbol. *)
Theorem MakeMove_applies_move h game playerID position :
  length (Board game) = 9%nat ->
  IsValidMove h game playerID position = None ->
  exists h' game',
    MakeMove h game playerID position = (h', game', None) /\
    Board game' = <[Z.to_nat position := CurrentTurn game]> (Board game) /\
    cell (Board game') (Z.to_nat position) = CurrentTurn game /\
    (forall i, i <> Z.to_nat position -> cell (Board game') i = cell (Board game) i) /\
    match evaluateTermination (Board game') with
    | WinnerIs s =>
        Status game' = STATUS_FINISHED /\ Winner game' = s /\
        CurrentTurn game' = CurrentTurn game
    | Draw =>
        Status game' = STATUS_FINISHED /\ Winner game' = "draw" /\
        CurrentTurn game' = CurrentTurn game
    | NoTermination =>
        Status game' = STATUS_PLAYING /\ Winner game' = Winner game /\ h' = h /\
        ((CurrentTurn game = "X" /\ CurrentTurn game' = "O") \/
         (CurrentTurn game = "O" /\ CurrentTurn game' = "X"))
    end.
Proof.
  intros Hlen Hv.
  destruct (IsValidMove_turn _ _ _ _ Hv) as (Hs & Hr & _ & Ht).
  pose proof (MakeMove_valid _ _ _ _ Hv) as Hm. simpl in Hm.
  assert (Hcell : cell (<[Z.to_nat position := CurrentTurn game]> (Board game))
                    (Z.to_nat position) = CurrentTurn game)
    by (apply cell_insert_eq; lia).
  assert (Hother : forall i, i <> Z.to_nat position ->
            cell (<[Z.to_nat position := CurrentTurn game]> (Board game)) i
            = cell (Board game) i)
    by (intros i Hi; by apply cell_insert_ne).
  destruct (evaluateTermination _) eqn:He;
    eexists _, _; (split; [exact Hm|]); simpl; rewrite ?He; split_and!; try done.
  destruct Ht as [Ht|Ht]; rewrite Ht; [left|right]; done.
Qed.

(** C5: if [MakeMove] (applyMove) returns an error, the error is one of the
    five rule violations and the heap (both players' win, loss and draw
    counts and ratings) and the game (board, current turn, status, winner)
    are what they were. A move by an identifier that matches neither
    assigned player is always rejected that way; the error is
    PlayerNotInGame when the game is in play, the position in range and the
    cell empty. *)
Theorem MakeMove_rejected_unchanged h game playerID position :
  (forall h' game' e,
     MakeMove h game playerID position = (h', game', Some e) ->
     h' = h /\ game' = game /\
     e ∈ [NotPlaying; OutOfRange; CellOccupied; PlayerNotInGame; NotYourTurn]) /\
  (matches_neither h game playerID ->
   exists e,
     MakeMove h game playerID position = (h, game, Some e) /\
     (Status game = STATUS_PLAYING -> 0 <= position <= 8 ->
      cell (Board game) (Z.to_nat position) = "" -> e = PlayerNotInGame)).
Proof.
  split.
  - intros h' game' e Hm.
    destruct (IsValidMove h game playerID position) as [e'|] eqn:Hv.
    + rewrite (MakeMove_invalid _ _ _ _ _ Hv) in Hm. injection Hm as <- <- <-.
      split_and!; try done.
      destruct (IsValidMove_cases h game playerID position)
        as [[_ H]|[(_ & _ & H)|[(_ & _ & _ & H)|[(_ & _ & _ & _ & H)|[(_ & _ & _ & _ & H)|H]]]]];
        try (rewrite Hv in H; injection H as ->; set_solver).
      destruct H as (_ & _ & _ & _ & H). congruence.
    + pose proof (MakeMove_valid _ _ _ _ Hv) as Hm'. simpl in Hm'. rewrite Hm' in Hm.
      destruct (evaluateTermination _); discriminate.
  - intros Hn.
    destruct (IsValidMove_cases h game playerID position)
      as [[Hs' H]|[(_ & Hr' & H)|[(_ & _ & Hc' & H)|[(_ & _ & _ & _ & H)|[H|H]]]]].
    1-4: eexists; split; [by apply MakeMove_invalid|]; intros Hs Hr Hc;
         try done; try lia.
    + destruct H as (_ & _ & _ & (s & Hm & _) & _).
      destruct (matching_symbol_not_neither _ _ _ _ Hm Hn).
    + destruct H as (_ & _ & _ & Hm & _).
      destruct (matching_symbol_not_neither _ _ _ _ Hm Hn).
Qed.

(** ** Termination *)

Lemma winningCombos_lines : winningCombos = (rows ++ columns ++ diagonals)%list.
Proof. reflexivity. Qed.

Lemma scanCombos_matches board combos :
  scanCombos board combos <> "" <->
  exists combo, combo ∈ combos /\ combo_matches board combo.
Proof.
  induction combos as [|combo rest IH]; simpl.
  - split; [done | intros (c & Hc & _); by apply elem_of_nil in Hc].
  - destruct (decide (combo_matches board combo)) as [Hm|Hm].
    + split; [intros _; exists combo; split; [left | done] |].
      intros _. destruct combo as [[c0 c1] c2]. simpl. by destruct Hm.
    + rewrite IH. split.
      * intros (c & Hc & Hcm). exists c. split; [by right | done].
      * intros (c & Hc & Hcm). apply elem_of_cons in Hc as [->|Hc]; [done|eauto].
Qed.

(** The symbol reported is the one on the first matching line. *)
Lemma scanCombos_first board combos :
  scanCombos board combos <> "" ->
  exists before combo after,
    combos = (before ++ combo :: after)%list /\
    Forall (fun c => ~ combo_matches board c) before /\
    combo_matches board combo /\
    scanCombos board combos = cell board (combo.1.1).
Proof.
  induction combos as [|combo rest IH]; simpl; [done|].
  destruct (decide (combo_matches board combo)) as [Hm|Hm].
  - intros _. by exists [], combo, rest.
  - intros (before & c & after & -> & Hb & Hc & Hs)%IH.
    exists (combo :: before), c, after. split_and!; try done. by constructor.
Qed.

Lemma CheckWinner_has_line board : CheckWinner board <> "" <-> has_line board.
Proof. unfold CheckWinner, has_line. rewrite scanCombos_matches. by rewrite winningCombos_lines. Qed.

Lemma IsBoardFull_Forall board :
  IsBoardFull board = true <-> Forall (fun c => c <> "") board.
Proof.
  induction board as [|c rest IH]; simpl.
  - split; [constructor | done].
  - destruct (decide (c = "")) as [->|Hc].
    + split; [done | by intros [? _]%Forall_cons_1].
    + rewrite IH. split; [by constructor | by intros [_ ?]%Forall_cons_1].
Qed.

Lemma IsBoardFull_cells board :
  length board = 9%nat ->
  IsBoardFull board = true <-> forall i, (i < 9)%nat -> cell board i <> "".
Proof.
  intros Hlen. rewrite IsBoardFull_Forall, Forall_lookup. unfold cell. split.
  - intros Hall i Hi. destruct (board !! i) as [c|] eqn:Hc; simpl; [eauto|].
    apply lookup_ge_None in Hc. lia.
  - intros Hall i c Hc. pose proof (lookup_lt_Some _ _ _ Hc) as Hi.
    specialize (Hall i). rewrite Hc in Hall. apply Hall. lia.
Qed.

Lemma cell_empty_lookup (board : list string) i :
  (i < length board)%nat -> cell board i = "" -> board !! i = Some "".
Proof.
  unfold cell. intros Hi Hc. destruct (board !! i) as [c|] eqn:Hl; simpl in *.
  - by rewrite Hc.
  - apply lookup_ge_None in Hl. lia.
Qed.

Lemma IsBoardFull_false board :
  IsBoardFull board = false <-> exists i, board !! i = Some "".
Proof.
  induction board as [|c rest IH]; simpl.
  - split; [done | intros [i Hi]; by rewrite lookup_nil in Hi].
  - destruct (decide (c = "")) as [->|Hc].
    + split; [by exists 0%nat | done].
    + rewrite IH. split.
      * intros [i Hi]. by exists (S i).
      * intros [[|i] Hi]; simpl in Hi; [by injection Hi | eauto].
Qed.

Lemma IsBoardFull_false_cells board :
  length board = 9%nat ->
  IsBoardFull board = false <-> exists i, (i < 9)%nat /\ cell board i = "".
Proof.
  intros Hlen. rewrite IsBoardFull_false. unfold cell. split.
  - intros [i Hi]. exists i. rewrite Hi. split; [|done].
    apply lookup_lt_Some in Hi. lia.
  - intros (i & Hi & Hc). exists i. apply cell_empty_lookup; [lia | done].
Qed.

Lemma evaluateTermination_winner board s :
  evaluateTermination board = WinnerIs s <-> has_line board /\ s = CheckWinner board.
Proof.
  unfold evaluateTermination. rewrite <- CheckWinner_has_line.
  destruct (decide (CheckWinner board <> "")) as [Hw|Hw].
  - split; [by intros [= <-] | by intros [_ ->]].
  - split; [by destruct (IsBoardFull board) | by intros [? _]].
Qed.

Lemma evaluateTermination_draw board :
  evaluateTermination board = Draw <-> IsBoardFull board = true /\ ~ has_line board.
Proof.
  unfold evaluateTermination. rewrite <- CheckWinner_has_line.
  destruct (decide (CheckWinner board <> "")) as [Hw|Hw].
  - split; [done | by intros [_ ?]].
  - destruct (IsBoardFull board); split; try done. by intros [? _].
Qed.

Lemma evaluateTermination_none board :
  evaluateTermination board = NoTermination <-> IsBoardFull board = false /\ ~ has_line board.
Proof.
  unfold evaluateTermination. rewrite <- CheckWinner_has_line.
  destruct (decide (CheckWinner board <> "")) as [Hw|Hw].
  - split; [done | by intros [_ ?]].
  - destruct (IsBoardFull board); split; try done. by intros [? _].
Qed.

(** *** Counting the symbols on the board *)

Lemma countSym_insert (board : list string) i s t :
  board !! i = Some "" -> s <> "" -> t <> "" ->
  countSym t (<[i:=s]> board) =
  (countSym t board + (if decide (s = t) then 1 else 0))%nat.
Proof.
  revert i. induction board as [|c rest IH]; intros i Hi Hs Ht; [done|].
  destruct i as [|i]; simpl in *.
  - injection Hi as ->. rewrite (decide_False (P := "" = t)) by done. lia.
  - rewrite (IH i) by done. lia.
Qed.

Lemma cells_ok_insert board i s :
  cells_ok board -> s = "X" \/ s = "O" -> cells_ok (<[i:=s]> board).
Proof. intros Hok Hs. apply Forall_insert; [done | by right]. Qed.

Lemma cells_ok_cell board i :
  cells_ok board -> cell board i = "" \/ cell board i = "X" \/ cell board i = "O".
Proof.
  intros Hok. unfold cell. destruct (board !! i) as [c|] eqn:Hc; simpl; [|by left].
  by eapply Forall_lookup_1 in Hok.
Qed.

(** Three equal cells on a line are three occurrences of their symbol. *)
Lemma line_countSym board combo :
  length board = 9%nat -> combo ∈ winningCombos -> combo_matches board combo ->
  (3 <= countSym (cell board (combo.1.1)) board)%nat.
Proof.
  intros Hlen Hin Hm.
  do 9 (destruct board as [|? board]; [done|]). destruct board; [|done].
  unfold winningCombos in Hin.
  repeat (apply elem_of_cons in Hin as [->|Hin]; [
    destruct Hm as (_ & H1 & H2); unfold cell in *; simpl in *; subst;
    repeat case_decide; try done; lia |]).
  by apply elem_of_nil in Hin.
Qed.

(** *** Games after [n] accepted moves *)

Lemma moves_inv_start uuid now player1 player2 :
  moves_inv 0 (matchGame uuid now player1 player2).
Proof.
  unfold moves_inv. simpl. split_and!; try done; try lia.
  - repeat constructor.
  - intros _. left. done.
Qed.

Lemma moves_inv_move n game h playerID position h' game' :
  moves_inv n game ->
  MakeMove h game playerID position = (h', game', None) ->
  moves_inv (S n) game'.
Proof.
  intros (Hlen & Hok & Hn & Hbal & Hturn) Hm.
  destruct (IsValidMove h game playerID position) as [e|] eqn:Hv.
  { rewrite (MakeMove_invalid _ _ _ _ _ Hv) in Hm. discriminate. }
  destruct (IsValidMove_turn _ _ _ _ Hv) as (Hs & Hr & Hc & Ht).
  assert (Hl : Board game !! Z.to_nat position = Some "")
    by (apply cell_empty_lookup; [lia | done]).
  set (board' := <[Z.to_nat position := CurrentTurn game]> (Board game)).
  assert (Hboard : Board game' = board').
  { pose proof (MakeMove_valid _ _ _ _ Hv) as Hm'. simpl in Hm'. rewrite Hm' in Hm.
    destruct (evaluateTermination _); by injection Hm as <- <-. }
  assert (Hstat : Status game' = STATUS_PLAYING ->
                  CurrentTurn game' = if decide (CurrentTurn game = "X") then "O" else "X").
  { pose proof (MakeMove_valid _ _ _ _ Hv) as Hm'. simpl in Hm'. rewrite Hm' in Hm.
    destruct (evaluateTermination _); injection Hm as <- <-; simpl; done. }
  unfold moves_inv. rewrite Hboard. unfold board'.
  assert (HX : countSym "X" board' =
               (countSym "X" (Board game) + if decide (CurrentTurn game = "X") then 1 else 0)%nat).
  { unfold board'. rewrite countSym_insert; try done; by destruct Ht as [-> | ->]. }
  assert (HO : countSym "O" board' =
               (countSym "O" (Board game) + if decide (CurrentTurn game = "O") then 1 else 0)%nat).
  { unfold board'. rewrite countSym_insert; try done; by destruct Ht as [-> | ->]. }
  fold board'. rewrite HX, HO.
  destruct (Hturn Hs) as [[HtX Heq]|[HtO Heq]].
  - rewrite HtX in *. repeat case_decide; try done.
    split_and!; try lia.
    + unfold board'. by rewrite length_insert.
    + unfold board'. apply cells_ok_insert; [done | by left].
    + intros Hs'. right. split; [by apply Hstat | lia].
  - rewrite HtO in *. repeat case_decide; try done.
    split_and!; try lia.
    + unfold board'. by rewrite length_insert.
    + unfold board'. apply cells_ok_insert; [done | by right].
    + intros Hs'. left. split; [by apply Hstat | lia].
Qed.

Lemma played_moves_inv n game : played n game -> moves_inv n game.
Proof.
  induction 1 as [|n game h playerID position h' game' _ IH Hm].
  - apply moves_inv_start.
  - by eapply moves_inv_move.
Qed.

(** A board with a complete line, X and O alternating from X, holds at
    least five symbols. *)
Lemma moves_inv_winner n game :
  moves_inv n game -> has_line (Board game) -> (5 <= n)%nat.
Proof.
  intros (Hlen & Hok & Hn & Hbal & _) (combo & Hin & Hm).
  rewrite <- winningCombos_lines in Hin.
  pose proof (line_countSym _ _ Hlen Hin Hm) as H3.
  destruct combo as [[c0 c1] c2]. simpl in H3. destruct Hm as (Hne & _).
  destruct (cells_ok_cell _ c0 Hok) as [He|[He|He]]; [done| |]; rewrite He in H3; lia.
Qed.

(** C4: the termination evaluation of [MakeMove] ([CheckWinner], then
    [IsBoardFull]) reports a winner exactly when one of the 8 winning lines
    (3 rows, 3 columns, 2 diagonals) holds three equal non-empty cells, the
    winner being the symbol of the first such line in scan order; hence
    never for a match with fewer than 5 accepted moves; it reports a draw
    exactly when all 9 cells are filled and no line matches, and nothing
    otherwise. *)
Theorem evaluateTermination_correct :
  winningCombos = (rows ++ columns ++ diagonals)%list /\
  length winningCombos = 8%nat /\
  (forall board,
     (exists s, evaluateTermination board = WinnerIs s) <-> has_line board) /\
  (forall board s,
     evaluateTermination board = WinnerIs s ->
     s <> "" /\
     exists before combo after,
       winningCombos = (before ++ combo :: after)%list /\
       Forall (fun c => ~ combo_matches board c) before /\
       combo_matches board combo /\
       s = cell board (combo.1.1)) /\
  (forall n game,
     played n game ->
     (exists s, evaluateTermination (Board game) = WinnerIs s) -> (5 <= n)%nat) /\
  (forall board,
     length board = 9%nat ->
     (evaluateTermination board = Draw <->
      (forall i, (i < 9)%nat -> cell board i <> "") /\ ~ has_line board)) /\
  (forall board,
     length board = 9%nat ->
     (evaluateTermination board = NoTermination <->
      (exists i, (i < 9)%nat /\ cell board i = "") /\ ~ has_line board)).
Proof.
  split_and!; try done.
  - intros board. split.
    + intros [s Hs]. by apply evaluateTermination_winner in Hs as [? _].
    + intros Hl. exists (CheckWinner board). by apply evaluateTermination_winner.
  - intros board s [Hl ->]%evaluateTermination_winner.
    apply CheckWinner_has_line in Hl. split; [done|].
    destruct (scanCombos_first _ _ Hl) as (before & combo & after & ? & ? & ? & ?).
    by exists before, combo, after.
  - intros n game Hp [s Hs]. apply evaluateTermination_winner in Hs as [Hl _].
    eapply moves_inv_winner; [by apply played_moves_inv | done].
  - intros board Hlen. rewrite evaluateTermination_draw.
    by rewrite (IsBoardFull_cells _ Hlen).
  - intros board Hlen. rewrite evaluateTermination_none.
    by rewrite (IsBoardFull_false_cells _ Hlen).
Qed.

(** ** Winner and status *)

Lemma CheckWinner_symbol board :
  cells_ok board -> CheckWinner board <> "" ->
  CheckWinner board = "X" \/ CheckWinner board = "O".
Proof.
  intros Hok Hw.
  destruct (scanCombos_first _ _ Hw) as (_ & combo & _ & _ & _ & _ & Hs).
  unfold CheckWinner in *. rewrite Hs in *.
  destruct (cells_ok_cell _ (combo.1.1) Hok) as [?|?]; done.
Qed.

Lemma status_inv_MakeMove game h playerID position :
  status_inv game -> status_inv (MakeMove h game playerID position).1.2.
Proof.
  intros [Hok Hst].
  destruct (IsValidMove h game playerID position) as [e|] eqn:Hv.
  { rewrite (MakeMove_invalid _ _ _ _ _ Hv). by split. }
  destruct (IsValidMove_turn _ _ _ _ Hv) as (Hs & _ & _ & Ht).
  pose proof (MakeMove_valid _ _ _ _ Hv) as Hm. simpl in Hm. rewrite Hm.
  assert (Hok' : cells_ok (<[Z.to_nat position := CurrentTurn game]> (Board game)))
    by (by apply cells_ok_insert).
  destruct (evaluateTermination _) as [|s|] eqn:He; simpl; (split; [done|]); simpl.
  - left. split; [by right|]. destruct Hst as [[_ ?]|[Hf _]]; [done|].
    rewrite Hs in Hf. discriminate.
  - right. split; [done|]. apply evaluateTermination_winner in He as [Hl ->].
    apply CheckWinner_has_line in Hl.
    destruct (CheckWinner_symbol _ Hok' Hl) as [->| ->]; auto.
  - right. auto.
Qed.

Lemma reachable_status_inv game : reachable game -> status_inv game.
Proof.
  induction 1 as [uuid now|uuid now p1 p2|game h playerID position _ IH|game t _ IH].
  - split; [repeat constructor | left; split; [by left | done]].
  - split; [repeat constructor | left; split; [by right | done]].
  - by apply status_inv_MakeMove.
  - done.
Qed.

(** C8: for every game created by [NewGame], made a match and taken
    through any sequence of [MakeMove] calls, the winner field is non-empty
    exactly when the status is finished, and a non-empty winner is "X", "O"
    or "draw". *)
Theorem winner_iff_finished game :
  reachable game ->
  (Winner game <> "" <-> Status game = STATUS_FINISHED) /\
  (Winner game <> "" -> Winner game ∈ ["X"; "O"; "draw"]).
Proof.
  intros [_ Hst]%reachable_status_inv.
  destruct Hst as [[Hs Hw]|[Hs Hw]].
  - rewrite Hw. split; [|done]. split; [done|].
    intros Hf. destruct Hs as [Hs|Hs]; rewrite Hs in Hf; discriminate.
  - split.
    + split; [done|]. intros _. destruct Hw as [->|[->| ->]]; done.
    + intros _. destruct Hw as [->|[->| ->]]; set_solver.
Qed.

(** * Properties of the session core *)

(** ** The matchmaking queue *)

Lemma set_matchmaking_same gs : set_matchmaking (matchmaking gs) gs = gs.
Proof. by destruct gs. Qed.

Lemma removeFirst_absent playerID q : playerID ∉ q -> removeFirst playerID q = q.
Proof.
  induction q as [|x rest IH]; simpl; [done|].
  intros [Hx Hrest]%not_elem_of_cons. rewrite decide_False by done. by rewrite IH.
Qed.

Lemma removeFirst_present playerID q :
  playerID ∈ q ->
  exists before after,
    q = (before ++ playerID :: after)%list /\ (playerID ∉ before) /\
    removeFirst playerID q = (before ++ after)%list.
Proof.
  induction q as [|x rest IH]; simpl; [by intros ?%elem_of_nil|].
  destruct (decide (x = playerID)) as [->|Hx].
  - intros _. exists [], rest. split_and!; [done | apply not_elem_of_nil | done].
  - intros [?|Hin]%elem_of_cons; [done|].
    destruct (IH Hin) as (before & after & -> & Hb & ->).
    exists (x :: before), after. split_and!; try done.
    apply not_elem_of_cons. by split.
Qed.

Lemma removeFirst_subseteq playerID q x : x ∈ removeFirst playerID q -> x ∈ q.
Proof.
  induction q as [|y rest IH]; simpl; [done|].
  destruct (decide (y = playerID)).
  - intros ?. by right.
  - intros [->|?]%elem_of_cons; [left | right; auto].
Qed.

Lemma removeFirst_NoDup playerID q : NoDup q -> NoDup (removeFirst playerID q).
Proof.
  intros Hq. induction Hq as [|x rest Hx Hnd IH]; simpl; [constructor|].
  destruct (decide (x = playerID)); [done|].
  constructor; [|done]. intros Hin. apply Hx. by eapply removeFirst_subseteq.
Qed.

Lemma removeFirst_NoDup_gone playerID q : NoDup q -> playerID ∉ removeFirst playerID q.
Proof.
  intros Hq. induction Hq as [|x rest Hx Hnd IH]; simpl; [apply not_elem_of_nil|].
  destruct (decide (x = playerID)) as [->|Hne]; [done|].
  apply not_elem_of_cons. by split.
Qed.

Lemma createMatch_matchmaking gs uuid now :
  matchmaking (createMatch gs uuid now).1 =
  if decide (2 <= length (matchmaking gs))%nat then drop 2 (matchmaking gs)
  else matchmaking gs.
Proof.
  unfold createMatch. destruct (matchmaking gs) as [|a [|b rest]] eqn:Hq; simpl; try done.
  by destruct (players gs !! a), (players gs !! b).
Qed.

Lemma createMatch_NoDup gs uuid now :
  NoDup (matchmaking gs) -> NoDup (matchmaking (createMatch gs uuid now).1).
Proof.
  intros Hnd. rewrite createMatch_matchmaking. case_decide; [|done].
  destruct (matchmaking gs) as [|a [|b rest]]; simpl in *; try lia.
  by apply NoDup_cons_1_2, NoDup_cons_1_2 in Hnd.
Qed.

Lemma handleJoinQueue_present gs player uuid now :
  ID (memory gs player) ∈ matchmaking gs ->
  handleJoinQueue gs player uuid now = (gs, []).
Proof. intros Hin. unfold handleJoinQueue. by rewrite decide_True. Qed.

Lemma handleJoinQueue_absent gs player uuid now :
  ID (memory gs player) ∉ matchmaking gs ->
  handleJoinQueue gs player uuid now =
  let joined := set_matchmaking (matchmaking gs ++ [ID (memory gs player)])%list gs in
  if decide (2 <= length (matchmaking joined))%nat then createMatch joined uuid now
  else (joined, []).
Proof. intros Hin. unfold handleJoinQueue. by rewrite decide_False. Qed.

Lemma handleJoinQueue_NoDup gs player uuid now :
  NoDup (matchmaking gs) -> NoDup (matchmaking (handleJoinQueue gs player uuid now).1).
Proof.
  intros Hnd. destruct (decide (ID (memory gs player) ∈ matchmaking gs)) as [Hin|Hin].
  - by rewrite handleJoinQueue_present.
  - rewrite handleJoinQueue_absent by done. simpl.
    assert (NoDup (matchmaking gs ++ [ID (memory gs player)])) as Hnd'.
    { apply list.NoDup_app. split_and!; [done | | apply NoDup_singleton].
      intros x Hx ->%list_elem_of_singleton. done. }
    case_decide; [|done]. by apply createMatch_NoDup.
Qed.

Lemma handleMakeMove_matchmaking gs msg now :
  matchmaking (handleMakeMove gs msg now).1 = matchmaking gs.
Proof.
  unfold handleMakeMove.
  destruct (moveData _ "gameId") as [[| | |gameID| |]|]; try done.
  destruct (moveData _ "position") as [[| |position| | |]|]; try done.
  destruct (games gs !! gameID) as [g|]; [|done].
  destruct (MakeMove _ _ _ _) as [[h g'] [e|]]; [done|].
  by case_decide.
Qed.

Lemma handleMessage_NoDup gs c msg uuid now :
  NoDup (matchmaking gs) -> NoDup (matchmaking (handleMessage gs c msg uuid now).1).
Proof.
  intros Hnd. unfold handleMessage. destruct (clients gs !! c) as [player|]; [|done].
  repeat case_decide; try done.
  - by apply handleJoinQueue_NoDup.
  - by apply removeFirst_NoDup.
  - by rewrite handleMakeMove_matchmaking.
Qed.

Lemma handleDisconnect_NoDup gs c now :
  NoDup (matchmaking gs) -> NoDup (matchmaking (handleDisconnect gs c now)).
Proof.
  intros Hnd. unfold handleDisconnect. destruct (clients gs !! c) as [player|]; [|done].
  by apply removeFirst_NoDup.
Qed.

Lemma server_reachable_NoDup gs : server_reachable gs -> NoDup (matchmaking gs).
Proof.
  induction 1 as [h|gs c name uuid now _ IH|gs c msg uuid now _ IH|gs c now _ IH].
  - constructor.
  - done.
  - by apply handleMessage_NoDup.
  - by apply handleDisconnect_NoDup.
Qed.

Lemma createMatch_memory_ID gs uuid now a :
  ID (memory (createMatch gs uuid now).1 a) = ID (memory gs a).
Proof.
  unfold createMatch. destruct (matchmaking gs) as [|x [|y rest]]; simpl; try done.
  destruct (players gs !! x) as [p1|], (players gs !! y) as [p2|]; simpl; try done.
  unfold insert, fn_insert. repeat case_decide; by subst.
Qed.

Lemma removeFirst_length playerID q : (length (removeFirst playerID q) <= length q)%nat.
Proof.
  induction q as [|x rest IH]; simpl; [done|].
  destruct (decide (x = playerID)); simpl; lia.
Qed.

Lemma handleJoinQueue_short gs player uuid now :
  (length (matchmaking gs) <= 1)%nat ->
  (length (matchmaking (handleJoinQueue gs player uuid now).1) <= 1)%nat.
Proof.
  intros Hlen. destruct (decide (ID (memory gs player) ∈ matchmaking gs)) as [Hin|Hin].
  - by rewrite handleJoinQueue_present.
  - rewrite handleJoinQueue_absent by done. simpl.
    destruct (matchmaking gs) as [|x [|y rest]]; simpl in *; try lia.
    rewrite createMatch_matchmaking. simpl. lia.
Qed.

(** One player joining twice in a row, from a list of at most one entry. *)
Lemma handleJoinQueue_twice gs player uuid now uuid' now' :
  (length (matchmaking gs) <= 1)%nat ->
  matchmaking (handleJoinQueue (handleJoinQueue gs player uuid now).1
                 player uuid' now').1 = [ID (memory gs player)].
Proof.
  intros Hlen. destruct (decide (ID (memory gs player) ∈ matchmaking gs)) as [Hin|Hin].
  - rewrite (handleJoinQueue_present gs) by done. simpl.
    rewrite handleJoinQueue_present by done. simpl.
    destruct (matchmaking gs) as [|x [|y rest]]; simpl in *; try lia.
    + by apply elem_of_nil in Hin.
    + by apply list_elem_of_singleton in Hin as ->.
  - rewrite (handleJoinQueue_absent gs) by done. simpl.
    destruct (matchmaking gs) as [|x [|y rest]] eqn:Hq; simpl in *; try lia.
    + rewrite handleJoinQueue_present by (simpl; by apply list_elem_of_singleton).
      done.
    + set (joined := set_matchmaking [x; ID (memory gs player)] gs).
      assert (Hm : matchmaking (createMatch joined uuid now).1 = [])
        by (by rewrite createMatch_matchmaking).
      assert (Hid : ID (memory (createMatch joined uuid now).1 player)
                    = ID (memory gs player))
        by (by rewrite createMatch_memory_ID).
      rewrite handleJoinQueue_absent by (rewrite Hm; apply not_elem_of_nil).
      simpl. rewrite Hm, Hid. done.
Qed.

Lemma server_reachable_short gs :
  server_reachable gs -> (length (matchmaking gs) <= 1)%nat.
Proof.
  induction 1 as [h|gs c name uuid now _ IH|gs c msg uuid now _ IH|gs c now _ IH].
  - simpl. lia.
  - done.
  - unfold handleMessage. destruct (clients gs !! c) as [player|]; [|done].
    repeat case_decide; try done.
    + by apply handleJoinQueue_short.
    + simpl. etrans; [apply removeFirst_length | done].
    + by rewrite handleMakeMove_matchmaking.
  - unfold handleDisconnect. destruct (clients gs !! c) as [player|]; [|done].
    simpl. etrans; [apply removeFirst_length | done].
Qed.

(** C7: the waiting list never holds an identifier twice. [handleJoinQueue]
    (joinQueue) changes nothing when the identifier is already in the list,
    so two joins in a row by one player leave the list with that one entry
    (from the empty list the second join changes nothing; in every state of
    the server the list has length 1 after the two joins);
    [handleLeaveQueue] (leaveQueue) removes the first occurrence and changes
    nothing when there is none; every operation on the queue keeps it free
    of duplicates, and so it is in every state of the server. *)
Theorem matchmaking_NoDup :
  (forall gs player uuid now,
     ID (memory gs player) ∈ matchmaking gs ->
     handleJoinQueue gs player uuid now = (gs, [])) /\
  (forall gs player uuid now uuid' now',
     matchmaking gs = [] ->
     let once := (handleJoinQueue gs player uuid now).1 in
     let twice := (handleJoinQueue once player uuid' now').1 in
     matchmaking once = [ID (memory gs player)] /\ twice = once /\
     length (matchmaking twice) = 1%nat) /\
  (forall gs player uuid now uuid' now',
     server_reachable gs ->
     let once := (handleJoinQueue gs player uuid now).1 in
     let twice := (handleJoinQueue once player uuid' now').1 in
     matchmaking twice = [ID (memory gs player)] /\
     length (matchmaking twice) = 1%nat) /\
  (forall gs player,
     ID (memory gs player) ∉ matchmaking gs ->
     handleLeaveQueue gs player = (gs, [])) /\
  (forall gs player,
     ID (memory gs player) ∈ matchmaking gs ->
     exists before after,
       matchmaking gs = (before ++ ID (memory gs player) :: after)%list /\
       (ID (memory gs player) ∉ before) /\
       handleLeaveQueue gs player = (set_matchmaking (before ++ after)%list gs, [])) /\
  (forall gs,
     NoDup (matchmaking gs) ->
     (forall player uuid now,
        NoDup (matchmaking (handleJoinQueue gs player uuid now).1)) /\
     (forall player, NoDup (matchmaking (handleLeaveQueue gs player).1)) /\
     (forall uuid now, NoDup (matchmaking (createMatch gs uuid now).1)) /\
     (forall c msg uuid now,
        NoDup (matchmaking (handleMessage gs c msg uuid now).1)) /\
     (forall c now, NoDup (matchmaking (handleDisconnect gs c now))) /\
     (forall c name uuid now,
        NoDup (matchmaking (HandleWebSocket_register gs c name uuid now).1))) /\
  (forall gs, server_reachable gs -> NoDup (matchmaking gs)).
Proof.
  split_and!.
  - intros. by apply handleJoinQueue_present.
  - intros gs player uuid now uuid' now' Hq. simpl.
    assert (Hone : handleJoinQueue gs player uuid now =
                   (set_matchmaking [ID (memory gs player)] gs, [])).
    { rewrite handleJoinQueue_absent by (rewrite Hq; apply not_elem_of_nil).
      simpl. rewrite Hq. done. }
    rewrite Hone. simpl.
    rewrite handleJoinQueue_present by (simpl; apply list_elem_of_singleton; done).
    done.
  - intros gs player uuid now uuid' now' Hr. simpl.
    rewrite handleJoinQueue_twice by (by apply server_reachable_short). done.
  - intros gs player Hin. unfold handleLeaveQueue.
    by rewrite removeFirst_absent, set_matchmaking_same.
  - intros gs player Hin.
    destruct (removeFirst_present _ _ Hin) as (before & after & Hq & Hb & Hr).
    exists before, after. unfold handleLeaveQueue. by rewrite Hr.
  - intros gs Hnd. split_and!; intros.
    + by apply handleJoinQueue_NoDup.
    + by apply removeFirst_NoDup.
    + by apply createMatch_NoDup.
    + by apply handleMessage_NoDup.
    + by apply handleDisconnect_NoDup.
    + done.
  - apply server_reachable_NoDup.
Qed.

(** ** Matching *)

(** The state after [createMatch] when the two heads of the queue resolve. *)
Lemma createMatch_found gs uuid now player1ID player2ID rest player1 player2 :
  matchmaking gs = player1ID :: player2ID :: rest ->
  players gs !! player1ID = Some player1 ->
  players gs !! player2ID = Some player2 ->
  let h := <[player2 := set_Symbol "O" (<[player1 := set_Symbol "X" (memory gs player1)]>
                                          (memory gs) player2)]>
             (<[player1 := set_Symbol "X" (memory gs player1)]> (memory gs)) in
  (createMatch gs uuid now).1 =
  mkGameServer (clients gs) (<[uuid := matchGame uuid now player1 player2]> (games gs))
               (players gs) rest h (brk gs).
Proof. intros Hq H1 H2. unfold createMatch. rewrite Hq. simpl. by rewrite H1, H2. Qed.

Lemma createMatch_lost gs uuid now player1ID player2ID rest :
  matchmaking gs = player1ID :: player2ID :: rest ->
  players gs !! player1ID = None \/ players gs !! player2ID = None ->
  createMatch gs uuid now = (set_matchmaking rest gs, []).
Proof.
  intros Hq Hno. unfold createMatch. rewrite Hq. simpl.
  destruct Hno as [-> | ->]; [done|]. by destruct (players gs !! player1ID).
Qed.

(** C6: matching is first-in-first-out. When the waiting list holds two or
    more entries after a join that entered the list, its two earliest
    entries are removed and, if both resolve to registered players, a game
    in playing status is stored with the first as X and the second as O; if
    one does not resolve no game is made. A list [A; B] joined by C yields a
    match of A with B and leaves C alone in the list. *)
Theorem createMatch_fifo gs player uuid now first second rest :
  ID (memory gs player) ∉ matchmaking gs ->
  (matchmaking gs ++ [ID (memory gs player)])%list = first :: second :: rest ->
  let gs' := (handleJoinQueue gs player uuid now).1 in
  matchmaking gs' = rest /\
  (forall player1 player2,
     players gs !! first = Some player1 ->
     players gs !! second = Some player2 ->
     games gs' = <[uuid := matchGame uuid now player1 player2]> (games gs) /\
     (exists game,
        games gs' !! uuid = Some game /\
        Status game = STATUS_PLAYING /\
        PlayerX game = Some player1 /\ PlayerO game = Some player2 /\
        Board game = replicate 9 "" /\ CurrentTurn game = "X" /\ Winner game = "") /\
     Symbol (memory gs' player2) = "O" /\
     (player1 <> player2 -> Symbol (memory gs' player1) = "X")) /\
  (players gs !! first = None \/ players gs !! second = None ->
   games gs' = games gs /\ memory gs' = memory gs) /\
  (forall A B,
     matchmaking gs = [A; B] ->
     first = A /\ second = B /\ matchmaking gs' = [ID (memory gs player)]).
Proof.
  intros Hin Hq. simpl. rewrite handleJoinQueue_absent by done. simpl.
  rewrite Hq. simpl.
  set (joined := set_matchmaking (first :: second :: rest) gs).
  assert (Hjq : matchmaking joined = first :: second :: rest) by done.
  split_and!.
  - by rewrite createMatch_matchmaking, Hjq.
  - intros player1 player2 H1 H2.
    rewrite (createMatch_found joined uuid now _ _ _ _ _ Hjq H1 H2). simpl.
    split_and!.
    + done.
    + eexists. split; [apply lookup_insert_eq|]. done.
    + unfold insert, fn_insert. by rewrite decide_True.
    + intros Hne. unfold insert, fn_insert. rewrite decide_False by done.
      by rewrite decide_True.
  - intros Hno. by rewrite (createMatch_lost joined uuid now _ _ _ Hjq Hno).
  - intros A B HAB. rewrite HAB in Hq. injection Hq as <- <- <-.
    split_and!; try done.
    by rewrite createMatch_matchmaking, Hjq.
Qed.

(** ** Attribution of moves *)

(** [handleMakeMove] reads the payload at "gameId" and "position" only, and
    the identifier that [handleMessage] put into the message. *)
Lemma handleMakeMove_reads gs msg1 msg2 now :
  moveData (Msg_Data msg1) "gameId" = moveData (Msg_Data msg2) "gameId" ->
  moveData (Msg_Data msg1) "position" = moveData (Msg_Data msg2) "position" ->
  Msg_PlayerID msg1 = Msg_PlayerID msg2 ->
  handleMakeMove gs msg1 now = handleMakeMove gs msg2 now.
Proof. intros H1 H2 H3. unfold handleMakeMove. by rewrite H1, H2, H3. Qed.

Lemma handleMessage_make_move gs c msg uuid now player :
  clients gs !! c = Some player ->
  Msg_Type msg = MSG_MAKE_MOVE ->
  handleMessage gs c msg uuid now =
  handleMakeMove gs (set_Msg_PlayerID (ID (memory gs player)) msg) now.
Proof.
  intros Hc Ht. unfold handleMessage. rewrite Hc. simpl. rewrite Ht.
  by repeat case_decide.
Qed.

Lemma handleMakeMove_found gs msg now gameID position game :
  moveData (Msg_Data msg) "gameId" = Some (JString gameID) ->
  moveData (Msg_Data msg) "position" = Some (JNumber position) ->
  games gs !! gameID = Some game ->
  let result := MakeMove (memory gs) game (Msg_PlayerID msg) (int_of_float64 position) in
  let stored :=
    if decide (result.2 = None /\ Status result.1.2 = STATUS_FINISHED)
    then set_EndTime (Some now) result.1.2 else result.1.2 in
  (handleMakeMove gs msg now).1 =
  set_games (<[gameID := stored]> (games gs)) (set_memory result.1.1 gs).
Proof.
  intros Hg Hp Hgame. unfold handleMakeMove. rewrite Hg, Hp, Hgame. simpl.
  destruct (MakeMove _ _ _ _) as [[h' game'] [e|]]; simpl.
  - done.
  - destruct (decide (Status game' = STATUS_FINISHED)) as [Hf|Hf]; simpl.
    + rewrite decide_True by done. unfold set_games. simpl.
      by rewrite insert_insert_eq.
    + rewrite decide_False by (by intros [_ ?]). done.
Qed.

(** C10: the handling of an inbound message does not depend on the player
    identifier the client supplies. [handleMessage] overwrites the
    message's PlayerID with the identifier of the player registered for the
    connection, and [handleMakeMove] reads the game identifier and the
    position from the payload and nothing else: two messages of one kind
    that agree on those two payload entries produce the same state and the
    same outbound messages, whatever their identifier fields; and the move
    is made by [MakeMove] under the identifier of the connection's own
    player. *)
Theorem handleMessage_ignores_claimed_identity gs c msg1 msg2 uuid now :
  Msg_Type msg1 = Msg_Type msg2 ->
  moveData (Msg_Data msg1) "gameId" = moveData (Msg_Data msg2) "gameId" ->
  moveData (Msg_Data msg1) "position" = moveData (Msg_Data msg2) "position" ->
  handleMessage gs c msg1 uuid now = handleMessage gs c msg2 uuid now /\
  (forall claimed,
     handleMessage gs c (set_Msg_PlayerID claimed msg1) uuid now =
     handleMessage gs c msg1 uuid now) /\
  (forall player gameID position game,
     clients gs !! c = Some player ->
     Msg_Type msg1 = MSG_MAKE_MOVE ->
     moveData (Msg_Data msg1) "gameId" = Some (JString gameID) ->
     moveData (Msg_Data msg1) "position" = Some (JNumber position) ->
     games gs !! gameID = Some game ->
     let result :=
       MakeMove (memory gs) game (ID (memory gs player)) (int_of_float64 position) in
     let gs' := (handleMessage gs c msg1 uuid now).1 in
     memory gs' = result.1.1 /\
     games gs' =
       <[gameID := if decide (result.2 = None /\ Status result.1.2 = STATUS_FINISHED)
                   then set_EndTime (Some now) result.1.2 else result.1.2]> (games gs)).
Proof.
  intros Ht Hg Hp.
  assert (Hsame : forall m1 m2,
            Msg_Type m1 = Msg_Type m2 ->
            moveData (Msg_Data m1) "gameId" = moveData (Msg_Data m2) "gameId" ->
            moveData (Msg_Data m1) "position" = moveData (Msg_Data m2) "position" ->
            handleMessage gs c m1 uuid now = handleMessage gs c m2 uuid now).
  { intros m1 m2 Ht' Hg' Hp'. unfold handleMessage.
    destruct (clients gs !! c) as [player|]; [|done]. simpl. rewrite Ht'.
    repeat case_decide; try done. by apply handleMakeMove_reads. }
  split_and!.
  - by apply Hsame.
  - intros claimed. by apply Hsame.
  - intros player gameID position game Hc Hmm Hgid Hpos Hgame. simpl.
    rewrite (handleMessage_make_move _ _ _ _ _ _ Hc Hmm).
    by rewrite (handleMakeMove_found gs (set_Msg_PlayerID (ID (memory gs player)) msg1)
                 now _ _ _ Hgid Hpos Hgame).
Qed.

(** * Properties of the rating update *)

Lemma round_IZR z : round (IZR z) = z.
Proof.
  unfold round. assert (up (IZR z + 1 / 2) = z + 1) as ->; [|lia].
  symmetry. apply tech_up; rewrite plus_IZR; lra.
Qed.

Lemma spec_expectedX_equal r : spec_expectedX r r = (1 / 2)%R.
Proof.
  unfold spec_expectedX. rewrite Z.sub_diag.
  replace (0 / 400)%R with 0%R by lra. rewrite Rpower_O by lra. lra.
Qed.

(** The floor at 0: whatever the changes are, no rating is negative after
    [updateRating], also when both pointers are the same player. *)
Lemma updateRating_nonneg h playerX playerO score :
  0 <= Rating (updateRating h playerX playerO score playerX) /\
  0 <= Rating (updateRating h playerX playerO score playerO).
Proof.
  unfold updateRating. cbv zeta.
  set (cx := ratingChangeX _ _ _). set (co := ratingChangeO _ _ _).
  set (h1 := <[playerX := _]> h). set (h2 := <[playerO := _]> h1).
  set (h3 := if decide (Rating (h2 playerX) < 0)
             then <[playerX := set_Rating 0 (h2 playerX)]> h2 else h2).
  assert (H3 : 0 <= Rating (h3 playerX)).
  { unfold h3. case_decide; [by rewrite fn_lookup_insert | lia]. }
  split.
  - case_decide; [|done].
    destruct (decide (playerO = playerX)) as [->|Hne].
    + by rewrite fn_lookup_insert.
    + by rewrite fn_lookup_insert_ne.
  - case_decide; [by rewrite fn_lookup_insert | lia].
Qed.

(** Both players' ratings after a settlement that took place. *)
Lemma updatePlayerStats_nonneg h game px po :
  PlayerX game = Some px -> PlayerO game = Some po ->
  Winner game ∈ ["X"; "O"; "draw"] ->
  0 <= Rating (updatePlayerStats h game px) /\
  0 <= Rating (updatePlayerStats h game po).
Proof.
  intros Hx Ho Hw. unfold updatePlayerStats. rewrite Hx, Ho.
  repeat case_decide; try apply updateRating_nonneg.
  exfalso. rewrite !elem_of_cons in Hw.
  destruct Hw as [?|[?|[?|Hnil]]]; try done. by apply elem_of_nil in Hnil.
Qed.

Lemma zero_sum_buckets :
  forallb (fun bucket => (bucket =? -11)%Z || zero_sum_at bucket) (seqZ (-250) 501) = true.
Proof. vm_compute. reflexivity. Qed.

(** Away from the bucket -11, where the expected score is infinite, the two
    changes sum to zero for every outcome, decisive or drawn (ratings up to
    100000). *)
Lemma ratingChange_zero_sum ratingX ratingO score :
  0 <= ratingX <= 100000 -> 0 <= ratingO <= 100000 ->
  ratingBucket ratingX ratingO <> -11 ->
  score ∈ [1%float; 0%float; 0.5%float] ->
  ratingChangeX ratingX ratingO score + ratingChangeO ratingX ratingO score = 0.
Proof.
  intros HX HO Hb Hs.
  assert (Hw : wrap64 (ratingO - ratingX) = ratingO - ratingX).
  { unfold wrap64. rewrite Z.mod_small; lia. }
  assert (Hin : ratingBucket ratingX ratingO ∈ seqZ (-250) 501).
  { apply elem_of_seqZ. unfold ratingBucket. rewrite Hw.
    pose proof (Z.quot_le_mono (ratingO - ratingX) 100000 400 ltac:(lia) ltac:(lia)).
    pose proof (Z.quot_le_mono (-100000) (ratingO - ratingX) 400 ltac:(lia) ltac:(lia)).
    change (100000 ÷ 400) with 250 in *. change (-100000 ÷ 400) with (-250) in *. lia. }
  pose proof zero_sum_buckets as Hall. rewrite forallb_forall in Hall.
  apply list_elem_of_In in Hin. specialize (Hall _ Hin).
  apply orb_true_iff in Hall as [Heq%Z.eqb_eq|Hz]; [done|].
  unfold zero_sum_at in Hz. rewrite forallb_forall in Hz.
  apply list_elem_of_In in Hs. specialize (Hz _ Hs). apply Z.eqb_eq in Hz.
  exact Hz.
Qed.

(** C1: at equal ratings the exponent is 0, so the expected score of the
    formula [1 / (1 + 10^((ratingO - ratingX) / 400))] is 1/2 and a win
    moves 16 points. [updateRating] computes [1 / (1 + (10 xor 0))], which
    is 1/11, and moves 29 points; an O win moves 2 and a draw moves 13
    points to X. *)
Theorem updateRating_xor_for_power :
  expectedX 1000 1000 = (1 / 11)%float /\
  spec_expectedX 1000 1000 = (1 / 2)%R /\
  (ratingChangeX 1000 1000 1 = 29 /\ ratingChangeO 1000 1000 1 = -29) /\
  (spec_ratingChange 1 (spec_expectedX 1000 1000) = 16 /\
   spec_ratingChange 0 (1 - spec_expectedX 1000 1000) = -16) /\
  (ratingChangeX 1000 1000 0 = -2 /\ ratingChangeO 1000 1000 0 = 2) /\
  (ratingChangeX 1000 1000 0.5 = 13 /\ ratingChangeO 1000 1000 0.5 = -13) /\
  Rating (updateRating (rated_heap 1000 1000) 0%nat 1%nat 1 0%nat) = 1029 /\
  Rating (updateRating (rated_heap 1000 1000) 0%nat 1%nat 1 1%nat) = 971.
Proof.
  split_and!; try (vm_compute; reflexivity).
  - apply spec_expectedX_equal.
  - rewrite spec_expectedX_equal. unfold spec_ratingChange.
    replace (32 * (1 - 1 / 2))%R with (IZR 16) by lra. apply round_IZR.
  - rewrite spec_expectedX_equal. unfold spec_ratingChange.
    replace (32 * (0 - (1 - 1 / 2)))%R with (IZR (-16)) by lra. apply round_IZR.
Qed.

(** ** Sequences of moves *)

Lemma played_step n game h playerID position :
  played n game ->
  (MakeMove h game playerID position).2 = None ->
  played (S n) (MakeMove h game playerID position).1.2.
Proof.
  intros Hp He. destruct (MakeMove h game playerID position) as [[h' game'] e] eqn:Hm.
  simpl in *. subst e. by eapply played_move.
Qed.

Lemma reachable_playMoves h game moves :
  reachable game -> reachable (playMoves h game moves).2.
Proof.
  revert h game. induction moves as [|[playerID position] rest IH]; intros h game Hr; [done|].
  simpl. pose proof (reachable_MakeMove game h playerID position Hr) as Hr'.
  destruct (MakeMove h game playerID position) as [[h' game'] e]. by apply IH.
Qed.

(** * Further properties of the rules engine *)

(** ** Games out of play *)

Lemma playMoves_not_playing h game moves :
  Status game <> STATUS_PLAYING -> playMoves h game moves = (h, game).
Proof.
  intros Hs. induction moves as [|[playerID position] rest IH]; simpl; [done|].
  destruct (IsValidMove_cases h game playerID position) as [[_ Hv]|Hrest].
  - by rewrite (MakeMove_invalid _ _ _ _ _ Hv).
  - destruct Hrest as [H|[H|[H|[H|H]]]]; by destruct H as [? _].
Qed.

(** X1: a game that is not in play (waiting or finished) is out of reach of
    [MakeMove]: whatever moves are tried, by whomever, the players and the
    game stay as they are. *)
Theorem MakeMove_out_of_play h game moves :
  Status game <> STATUS_PLAYING ->
  playMoves h game moves = (h, game) /\
  (forall playerID position,
     MakeMove h game playerID position = (h, game, Some NotPlaying)).
Proof.
  intros Hs. split; [by apply playMoves_not_playing|].
  intros playerID position. apply MakeMove_invalid.
  destruct (IsValidMove_cases h game playerID position) as [[_ Hv]|Hrest]; [done|].
  destruct Hrest as [H|[H|[H|[H|H]]]]; by destruct H as [? _].
Qed.

(** X2: the statistics are settled exactly once, by the move that finishes
    the game: after any sequence of attempted moves on a game in play,
    either the game is still in play and no player has changed, or it is
    finished and the players are what [updatePlayerStats] made of the
    players at the start. *)
Theorem playMoves_settles_once h game moves :
  Status game = STATUS_PLAYING ->
  (Status (playMoves h game moves).2 = STATUS_PLAYING /\
   (playMoves h game moves).1 = h) \/
  (Status (playMoves h game moves).2 = STATUS_FINISHED /\
   (playMoves h game moves).1 = updatePlayerStats h (playMoves h game moves).2).
Proof.
  revert game. induction moves as [|[playerID position] rest IH]; intros game Hs.
  { left. done. }
  simpl. destruct (IsValidMove h game playerID position) as [e|] eqn:Hv.
  { rewrite (MakeMove_invalid _ _ _ _ _ Hv). by apply IH. }
  pose proof (MakeMove_valid _ _ _ _ Hv) as Hm. simpl in Hm. rewrite Hm.
  destruct (evaluateTermination _) as [|s|].
  - apply IH. done.
  - right. rewrite playMoves_not_playing by done. done.
  - right. rewrite playMoves_not_playing by done. done.
Qed.

(** ** What a move keeps *)

(** The fields [MakeMove] does not write, and the status. *)
Lemma MakeMove_fields h game playerID position :
  let game' := (MakeMove h game playerID position).1.2 in
  (Status game' = Status game \/
   (Status game = STATUS_PLAYING /\ Status game' = STATUS_FINISHED)) /\
  Game_ID game' = Game_ID game /\
  PlayerX game' = PlayerX game /\ PlayerO game' = PlayerO game /\
  StartTime game' = StartTime game /\ EndTime game' = EndTime game.
Proof.
  simpl. destruct (IsValidMove h game playerID position) as [e|] eqn:Hv.
  { rewrite (MakeMove_invalid _ _ _ _ _ Hv). simpl. split_and!; auto. }
  destruct (IsValidMove_turn _ _ _ _ Hv) as (Hs & _).
  pose proof (MakeMove_valid _ _ _ _ Hv) as Hm. simpl in Hm. rewrite Hm.
  destruct (evaluateTermination _); simpl; split_and!; auto.
Qed.

(** X3: [MakeMove] never overwrites a cell that holds a symbol, never takes
    the status back (it stays, or goes from playing to finished), and never
    touches the identifier or the players of the game. *)
Theorem MakeMove_keeps h game playerID position :
  let game' := (MakeMove h game playerID position).1.2 in
  (forall i, cell (Board game) i <> "" -> cell (Board game') i = cell (Board game) i) /\
  (Status game' = Status game \/
   (Status game = STATUS_PLAYING /\ Status game' = STATUS_FINISHED)) /\
  length (Board game') = length (Board game) /\
  Game_ID game' = Game_ID game /\
  PlayerX game' = PlayerX game /\ PlayerO game' = PlayerO game /\
  StartTime game' = StartTime game /\ EndTime game' = EndTime game.
Proof.
  pose proof (MakeMove_fields h game playerID position)
    as (Hstat & Hid & HX & HO & Hst & Het).
  simpl in *. split_and!; try assumption.
  - intros i Hi. destruct (IsValidMove h game playerID position) as [e|] eqn:Hv.
    { by rewrite (MakeMove_invalid _ _ _ _ _ Hv). }
    destruct (IsValidMove_turn _ _ _ _ Hv) as (_ & _ & Hc & _).
    pose proof (MakeMove_valid _ _ _ _ Hv) as Hm. simpl in Hm. rewrite Hm.
    assert (Hcell : cell (<[Z.to_nat position := CurrentTurn game]> (Board game)) i
                    = cell (Board game) i).
    { apply cell_insert_ne. intros <-. done. }
    by destruct (evaluateTermination _).
  - destruct (IsValidMove h game playerID position) as [e|] eqn:Hv.
    { by rewrite (MakeMove_invalid _ _ _ _ _ Hv). }
    pose proof (MakeMove_valid _ _ _ _ Hv) as Hm. simpl in Hm. rewrite Hm.
    destruct (evaluateTermination _); simpl; by rewrite length_insert.
Qed.

(** ** The statistics *)

Lemma same_but_Rating_refl a : same_but_Rating a a.
Proof. by repeat split. Qed.

Lemma same_but_Rating_set r a b : same_but_Rating a b -> same_but_Rating (set_Rating r a) b.
Proof. by intros (? & ? & ? & ? & ? & ? & ?). Qed.

Lemma updateRating_fields h playerX playerO score p :
  same_but_Rating (updateRating h playerX playerO score p) (h p).
Proof.
  unfold updateRating. cbv zeta.
  set (cx := ratingChangeX _ _ _). set (co := ratingChangeO _ _ _).
  set (h1 := <[playerX := _]> h).
  assert (H1 : forall q, same_but_Rating (h1 q) (h q)).
  { intros q. unfold h1. destruct (decide (playerX = q)) as [->|Hne].
    - rewrite fn_lookup_insert. apply same_but_Rating_set, same_but_Rating_refl.
    - rewrite fn_lookup_insert_ne by done. apply same_but_Rating_refl. }
  set (h2 := <[playerO := _]> h1).
  assert (H2 : forall q, same_but_Rating (h2 q) (h q)).
  { intros q. unfold h2. destruct (decide (playerO = q)) as [->|Hne].
    - rewrite fn_lookup_insert. by apply same_but_Rating_set.
    - by rewrite fn_lookup_insert_ne. }
  set (h3 := if decide (Rating (h2 playerX) < 0)
             then <[playerX := set_Rating 0 (h2 playerX)]> h2 else h2).
  assert (H3 : forall q, same_but_Rating (h3 q) (h q)).
  { intros q. unfold h3. case_decide; [|done].
    destruct (decide (playerX = q)) as [->|Hne].
    - rewrite fn_lookup_insert. by apply same_but_Rating_set.
    - by rewrite fn_lookup_insert_ne. }
  case_decide; [|done].
  destruct (decide (playerO = p)) as [->|Hne].
  - rewrite fn_lookup_insert. by apply same_but_Rating_set.
  - by rewrite fn_lookup_insert_ne.
Qed.

Lemma updateRating_frame h playerX playerO score p :
  p <> playerX -> p <> playerO -> updateRating h playerX playerO score p = h p.
Proof.
  intros Hx Ho. unfold updateRating. cbv zeta.
  repeat case_decide; by rewrite ?fn_lookup_insert_ne by done.
Qed.

Lemma updatePlayerStats_unfold h game px po :
  PlayerX game = Some px -> PlayerO game = Some po ->
  updatePlayerStats h game =
  if decide (Winner game = "X") then
    updateRating
      (<[po := set_Losses (wrap64 (Losses
                 (<[px := set_Wins (wrap64 (Wins (h px) + 1)) (h px)]> h po) + 1))
                 (<[px := set_Wins (wrap64 (Wins (h px) + 1)) (h px)]> h po)]>
         (<[px := set_Wins (wrap64 (Wins (h px) + 1)) (h px)]> h)) px po 1%float
  else if decide (Winner game = "O") then
    updateRating
      (<[px := set_Losses (wrap64 (Losses
                 (<[po := set_Wins (wrap64 (Wins (h po) + 1)) (h po)]> h px) + 1))
                 (<[po := set_Wins (wrap64 (Wins (h po) + 1)) (h po)]> h px)]>
         (<[po := set_Wins (wrap64 (Wins (h po) + 1)) (h po)]> h)) px po 0%float
  else if decide (Winner game = "draw") then
    updateRating
      (<[po := set_Draws (wrap64 (Draws
                 (<[px := set_Draws (wrap64 (Draws (h px) + 1)) (h px)]> h po) + 1))
                 (<[px := set_Draws (wrap64 (Draws (h px) + 1)) (h px)]> h po)]>
         (<[px := set_Draws (wrap64 (Draws (h px) + 1)) (h px)]> h)) px po 0.5%float
  else h.
Proof. intros Hx Ho. unfold updatePlayerStats. by rewrite Hx, Ho. Qed.

(** X4: [updatePlayerStats] counts one game for each of two distinct
    players: a win and a loss, or a draw each, by the winner field; it
    leaves every other player alone and never changes an identifier, name,
    symbol or last-seen time. With a player missing, or a winner field
    other than "X", "O" and "draw", it does nothing. *)
Theorem updatePlayerStats_counts h game :
  (PlayerX game = None \/ PlayerO game = None -> updatePlayerStats h game = h) /\
  (forall px po,
     PlayerX game = Some px -> PlayerO game = Some po -> px <> po ->
     let h' := updatePlayerStats h game in
     let counts := fun (k : heap) p => (Wins (k p), Losses (k p), Draws (k p)) in
     (Winner game = "X" ->
      counts h' px = (wrap64 (Wins (h px) + 1), Losses (h px), Draws (h px)) /\
      counts h' po = (Wins (h po), wrap64 (Losses (h po) + 1), Draws (h po))) /\
     (Winner game = "O" ->
      counts h' px = (Wins (h px), wrap64 (Losses (h px) + 1), Draws (h px)) /\
      counts h' po = (wrap64 (Wins (h po) + 1), Losses (h po), Draws (h po))) /\
     (Winner game = "draw" ->
      counts h' px = (Wins (h px), Losses (h px), wrap64 (Draws (h px) + 1)) /\
      counts h' po = (Wins (h po), Losses (h po), wrap64 (Draws (h po) + 1))) /\
     (Winner game <> "X" -> Winner game <> "O" -> Winner game <> "draw" -> h' = h) /\
     (forall p, p <> px -> p <> po -> h' p = h p) /\
     (forall p, ID (h' p) = ID (h p) /\ Name (h' p) = Name (h p) /\
                Symbol (h' p) = Symbol (h p) /\ LastSeen (h' p) = LastSeen (h p))).
Proof.
  split.
  { unfold updatePlayerStats. intros [-> | ->]; [done|]. by destruct (PlayerX game). }
  intros px po Hx Ho Hne. cbv zeta. rewrite (updatePlayerStats_unfold _ _ _ _ Hx Ho).
  assert (Hfld : forall k s p, same_but_Rating (updateRating k px po s p) (k p))
    by (intros; apply updateRating_fields).
  split_and!.
  - intros Hw. rewrite decide_True by done.
    pose proof (Hfld _ 1%float px) as (_ & _ & _ & -> & -> & -> & _).
    pose proof (Hfld _ 1%float po) as (_ & _ & _ & -> & -> & -> & _).
    unfold insert, fn_insert; repeat (case_decide; subst; try done).
  - intros Hw. rewrite decide_False, decide_True by (done || by rewrite Hw).
    pose proof (Hfld _ 0%float px) as (_ & _ & _ & -> & -> & -> & _).
    pose proof (Hfld _ 0%float po) as (_ & _ & _ & -> & -> & -> & _).
    unfold insert, fn_insert; repeat (case_decide; subst; try done).
  - intros Hw. rewrite !decide_False, decide_True by (done || by rewrite Hw).
    pose proof (Hfld _ 0.5%float px) as (_ & _ & _ & -> & -> & -> & _).
    pose proof (Hfld _ 0.5%float po) as (_ & _ & _ & -> & -> & -> & _).
    unfold insert, fn_insert; repeat (case_decide; subst; try done).
  - intros H1 H2 H3. by rewrite !decide_False by done.
  - intros p Hpx Hpo.
    repeat case_decide; try done;
      rewrite updateRating_frame by done; by rewrite !fn_lookup_insert_ne by done.
  - intros p.
    repeat case_decide; try done;
      match goal with
      | |- context [updateRating ?k px po ?s p] =>
          pose proof (Hfld k s p) as (-> & -> & -> & _ & _ & _ & ->)
      end;
      unfold insert, fn_insert; repeat (case_decide; subst; try done).
Qed.

(** ** Ratings stay at or above 0 *)

Lemma updatePlayerStats_Rating_nonneg h game :
  (forall p, 0 <= Rating (h p)) -> forall p, 0 <= Rating (updatePlayerStats h game p).
Proof.
  intros Hall p. unfold updatePlayerStats.
  destruct (PlayerX game) as [px|]; [|done]. destruct (PlayerO game) as [po|]; [|done].
  assert (Hgen : forall k s, (forall q, Rating (k q) = Rating (h q)) ->
                             0 <= Rating (updateRating k px po s p)).
  { intros k s Hk. destruct (decide (p = px)) as [->|Hpx]; [apply updateRating_nonneg|].
    destruct (decide (p = po)) as [->|Hpo]; [apply updateRating_nonneg|].
    rewrite updateRating_frame by done. rewrite Hk. done. }
  repeat case_decide; try done; apply Hgen; intros q;
    unfold insert, fn_insert; repeat case_decide; subst; done.
Qed.

(** X5: no rating is ever negative. [updateRating] leaves both players at
    0 or above whatever the changes are (also when both pointers are one
    player), and if no player has a negative rating before a call of
    [MakeMove], none has one after. *)
Theorem MakeMove_ratings_nonneg h game playerID position :
  (forall playerX playerO score,
     0 <= Rating (updateRating h playerX playerO score playerX) /\
     0 <= Rating (updateRating h playerX playerO score playerO)) /\
  ((forall p, 0 <= Rating (h p)) ->
   forall p, 0 <= Rating ((MakeMove h game playerID position).1.1 p)).
Proof.
  split; [intros; apply updateRating_nonneg|].
  intros Hall p. destruct (IsValidMove h game playerID position) as [e|] eqn:Hv.
  { rewrite (MakeMove_invalid _ _ _ _ _ Hv). done. }
  pose proof (MakeMove_valid _ _ _ _ Hv) as Hm. simpl in Hm. rewrite Hm.
  destruct (evaluateTermination _); simpl; try done;
    by apply updatePlayerStats_Rating_nonneg.
Qed.

(** ** The course of a match *)

Lemma cell_empty_board i : cell (replicate 9 "") i = "".
Proof.
  unfold cell. destruct (replicate 9 "" !! i) as [c|] eqn:Hc; [|done].
  by apply lookup_replicate in Hc as [-> _].
Qed.

Lemma empty_board_no_line : ~ has_line (replicate 9 "").
Proof.
  intros (combo & _ & Hm). destruct combo as [[c0 c1] c2].
  destruct Hm as (Hne & _). by rewrite cell_empty_board in Hne.
Qed.

Lemma played_outcome_inv n game : played n game -> outcome_inv game.
Proof.
  intros Hp. induction Hp as [uuid now p1 p2|n game h playerID position h' game' Hp IH Hm].
  { left. split_and!; try done. apply empty_board_no_line. }
  pose proof (played_moves_inv _ _ (played_move _ _ _ _ _ _ _ Hp Hm)) as (_ & Hok & _).
  destruct (IsValidMove h game playerID position) as [e|] eqn:Hv.
  { rewrite (MakeMove_invalid _ _ _ _ _ Hv) in Hm. discriminate. }
  destruct (IsValidMove_turn _ _ _ _ Hv) as (Hs & _).
  assert (Hw : Winner game = "").
  { destruct IH as [(_ & ? & _)|[(Hf & _)|(Hf & _)]]; [done| |];
      rewrite Hs in Hf; discriminate. }
  pose proof (MakeMove_valid _ _ _ _ Hv) as Hm'. simpl in Hm'. rewrite Hm' in Hm.
  destruct (evaluateTermination _) as [|s|] eqn:He; injection Hm as <- <-; simpl in *.
  - apply evaluateTermination_none in He as [? ?]. left. by split_and!.
  - apply evaluateTermination_winner in He as [Hl ->]. right. right.
    split_and!; try done. apply CheckWinner_symbol; [done|].
    by apply CheckWinner_has_line.
  - apply evaluateTermination_draw in He as [? ?]. right. left. by split_and!.
Qed.

Lemma countSym_bound board :
  (countSym "X" board + countSym "O" board <= length board)%nat.
Proof.
  induction board as [|c rest IH]; simpl; [done|].
  repeat case_decide; subst; try done; lia.
Qed.

Lemma countSym_free (board : list string) i :
  board !! i = Some "" ->
  (countSym "X" board + countSym "O" board < length board)%nat.
Proof.
  revert i. induction board as [|c rest IH]; intros i Hi; [done|].
  destruct i as [|i]; simpl in *.
  - injection Hi as ->. pose proof (countSym_bound rest).
    repeat case_decide; try done; lia.
  - specialize (IH i Hi). repeat case_decide; subst; try done; lia.
Qed.

Lemma countSym_full board :
  cells_ok board -> IsBoardFull board = true ->
  (countSym "X" board + countSym "O" board = length board)%nat.
Proof.
  intros Hok Hfull. apply IsBoardFull_Forall in Hfull.
  induction board as [|c rest IH]; simpl; [done|].
  apply Forall_cons_1 in Hok as [Hc Hok]. apply Forall_cons_1 in Hfull as [Hne Hfull].
  specialize (IH Hok Hfull).
  destruct Hc as [->|[->| ->]]; [done| |]; repeat case_decide; try done; lia.
Qed.

(** X6: a match is over within 9 accepted moves: no match has more, a
    match with 9 is finished, and a draw is declared at the ninth move
    only. *)
Theorem played_at_most_nine n game :
  played n game ->
  (n <= 9)%nat /\
  (n = 9%nat -> Status game = STATUS_FINISHED) /\
  (Winner game = "draw" -> n = 9%nat) /\
  (Status game = STATUS_PLAYING \/ Status game = STATUS_FINISHED).
Proof.
  intros Hp. pose proof (played_moves_inv _ _ Hp) as (Hlen & Hok & Hn & _).
  pose proof (countSym_bound (Board game)) as Hb.
  pose proof (played_outcome_inv _ _ Hp) as Ho.
  split_and!.
  - lia.
  - intros ->. destruct Ho as [(_ & _ & Hfree & _)|[(? & _)|(? & _)]]; try done.
    apply IsBoardFull_false in Hfree as [i Hi]. apply countSym_free in Hi. lia.
  - intros Hw. destruct Ho as [(_ & Hw' & _)|[(_ & _ & Hfull & _)|(_ & Hw' & _)]].
    + rewrite Hw in Hw'. discriminate.
    + pose proof (countSym_full _ Hok Hfull). lia.
    + rewrite Hw in Hw'. by destruct Hw'.
  - destruct Ho as [(? & _)|[(? & _)|(? & _)]]; auto.
Qed.

Lemma IsValidMove_matching h game playerID position :
  IsValidMove h game playerID position = None ->
  matching_symbol h game playerID (CurrentTurn game).
Proof.
  intros Hv.
  destruct (IsValidMove_cases h game playerID position)
    as [[_ H]|[(_ & _ & H)|[(_ & _ & _ & H)|[(_ & _ & _ & _ & H)|[(_ & _ & _ & _ & H)|H]]]]];
    try congruence.
  by destruct H as (_ & _ & _ & ? & _).
Qed.

(** X7: the winner of a match is the player who made the last move: when
    an accepted move leaves a winner other than "draw", that winner is the
    symbol whose turn it was, the symbol of the player who moved. *)
Theorem winner_is_mover n h game playerID position h' game' :
  played n game ->
  MakeMove h game playerID position = (h', game', None) ->
  Winner game' = "" \/ Winner game' = "draw" \/
  (Winner game' = CurrentTurn game /\
   matching_symbol h game playerID (Winner game') /\
   Status game' = STATUS_FINISHED).
Proof.
  intros Hp Hm.
  pose proof (played_moves_inv _ _ Hp) as (Hlen & _).
  destruct (IsValidMove h game playerID position) as [e|] eqn:Hv.
  { rewrite (MakeMove_invalid _ _ _ _ _ Hv) in Hm. discriminate. }
  destruct (IsValidMove_turn _ _ _ _ Hv) as (Hs & Hr & _ & _).
  pose proof (IsValidMove_matching _ _ _ _ Hv) as Hmatch.
  assert (Hnoline : ~ has_line (Board game)).
  { destruct (played_outcome_inv _ _ Hp) as [(_ & _ & _ & ?)|[(Hf & _)|(Hf & _)]];
      [done| |]; rewrite Hs in Hf; discriminate. }
  pose proof (MakeMove_valid _ _ _ _ Hv) as Hm'. simpl in Hm'. rewrite Hm' in Hm.
  set (board' := <[Z.to_nat position := CurrentTurn game]> (Board game)) in *.
  destruct (evaluateTermination board') as [|s|] eqn:He; injection Hm as <- <-; simpl.
  - left. destruct (played_outcome_inv _ _ Hp) as [(_ & ? & _)|[(Hf & _)|(Hf & _)]];
      [done| |]; rewrite Hs in Hf; discriminate.
  - right. right. apply evaluateTermination_winner in He as [Hl ->].
    apply CheckWinner_has_line in Hl.
    destruct (scanCombos_first _ _ Hl) as (before & combo & after & Hlist & _ & Hcm & Hsym).
    fold (CheckWinner board') in Hsym.
    assert (Hturn : cell board' (combo.1.1) = CurrentTurn game).
    { destruct combo as [[c0 c1] c2]. simpl. destruct Hcm as (Hne & H01 & H12).
      assert (Hpos : cell board' (Z.to_nat position) = CurrentTurn game)
        by (apply cell_insert_eq; lia).
      destruct (decide (c0 = Z.to_nat position)) as [->|H0]; [done|].
      destruct (decide (c1 = Z.to_nat position)) as [->|H1]; [by rewrite H01|].
      destruct (decide (c2 = Z.to_nat position)) as [->|H2]; [by rewrite H01, H12|].
      exfalso. apply Hnoline. exists (c0, c1, c2). split.
      - rewrite <- winningCombos_lines, Hlist. apply elem_of_app. right. by left.
      - assert (Hc : forall c, c <> Z.to_nat position ->
                  cell board' c = cell (Board game) c)
          by (intros c Hc; apply cell_insert_ne; congruence).
        unfold combo_matches.
        rewrite <- (Hc c0 H0), <- (Hc c1 H1), <- (Hc c2 H2). by split_and!. }
    rewrite Hsym, Hturn. by split_and!.
  - right. left. done.
Qed.

(** ** The view of a player *)

Lemma reachable_turn game :
  reachable game -> CurrentTurn game = "X" \/ CurrentTurn game = "O".
Proof.
  induction 1 as [uuid now|uuid now p1 p2|game h playerID position _ IH|game t _ IH].
  - by left.
  - by left.
  - destruct (IsValidMove h game playerID position) as [e|] eqn:Hv.
    { by rewrite (MakeMove_invalid _ _ _ _ _ Hv). }
    pose proof (MakeMove_valid _ _ _ _ Hv) as Hm. simpl in Hm. rewrite Hm.
    destruct (evaluateTermination _); simpl; try done.
    case_decide; auto.
  - done.
Qed.

(** X8: the [isMyTurn] flag of [GetGameStateForPlayer] agrees with the
    validation. For a game the engine has produced, the flag is set exactly
    when the game is in play and the requester holds the symbol whose turn
    it is; when it is set every move of the requester to an empty cell of
    the board is accepted, when it is not set every move is refused. A
    requester who is not in the game gets no symbol, no opponent and no
    turn. *)
Theorem isMyTurn_agrees h game playerID :
  reachable game ->
  let view := GetGameStateForPlayer h game playerID in
  (isMyTurn view = true <->
   Status game = STATUS_PLAYING /\ matching_symbol h game playerID (CurrentTurn game)) /\
  (isMyTurn view = true ->
   forall position, 0 <= position <= 8 ->
     cell (Board game) (Z.to_nat position) = "" ->
     IsValidMove h game playerID position = None) /\
  (isMyTurn view = false ->
   forall position, exists e, IsValidMove h game playerID position = Some e) /\
  (matches_neither h game playerID ->
   mySymbol view = "" /\ opponentName view = "" /\ isMyTurn view = false) /\
  (forall s, matching_symbol h game playerID s -> mySymbol view = s).
Proof.
  intros Hr. cbv zeta.
  pose proof (reachable_turn _ Hr) as Hturn.
  assert (Hiff : isMyTurn (GetGameStateForPlayer h game playerID) = true <->
                 Status game = STATUS_PLAYING /\
                 matching_symbol h game playerID (CurrentTurn game)).
  { rewrite matching_symbol_is_player. unfold GetGameStateForPlayer.
    destruct (is_player h (PlayerX game) playerID) eqn:Hx;
      [|destruct (is_player h (PlayerO game) playerID) eqn:Ho]; simpl;
      rewrite andb_true_iff, !bool_decide_eq_true.
    - split; [intros [? ?]; split; [done|]; by left|].
      intros [? [[_ ?]|(? & _)]]; done.
    - split; [intros [? ?]; split; [done|]; by right|].
      intros [? [[? _]|(_ & _ & ?)]]; done.
    - split; [intros [Ht _]; destruct Hturn as [Hx'|Ho']; congruence|].
      intros [_ [[? _]|(_ & ? & _)]]; done. }
  split_and!.
  - exact Hiff.
  - intros Hmine position Hpos Hc. apply Hiff in Hmine as [Hs Hm].
    destruct (IsValidMove_cases h game playerID position)
      as [[? _]|[(_ & ? & _)|[(_ & _ & ? & _)|[H|[H|H]]]]]; try done; try lia.
    + destruct H as (_ & _ & _ & Hn & _).
      destruct (matching_symbol_not_neither _ _ _ _ Hm Hn).
    + destruct H as (_ & _ & _ & (s & Hm' & Hne) & _).
      destruct Hne. eapply matching_symbol_fun; eauto.
    + by destruct H as (_ & _ & _ & _ & ?).
  - intros Hnot position.
    destruct (IsValidMove h game playerID position) as [e|] eqn:Hv; [eauto|].
    assert (isMyTurn (GetGameStateForPlayer h game playerID) = true) as Hyes.
    { apply Hiff. split; [by destruct (IsValidMove_turn _ _ _ _ Hv)|].
      by eapply IsValidMove_matching. }
    congruence.
  - intros [Hx Ho]%matches_neither_is_player. unfold GetGameStateForPlayer.
    rewrite Hx, Ho. simpl. split_and!; try done.
    apply andb_false_iff. left. apply bool_decide_eq_false.
    destruct Hturn as [-> | ->]; done.
  - intros s Hm. apply matching_symbol_is_player in Hm.
    unfold GetGameStateForPlayer.
    destruct Hm as [[-> ->]|(-> & -> & ->)]; done.
Qed.

(** * Further properties of the session core *)

(** ** The registry invariant *)

Lemma updatePlayerStats_ID h game p : ID (updatePlayerStats h game p) = ID (h p).
Proof.
  unfold updatePlayerStats.
  destruct (PlayerX game) as [px|]; [|done]. destruct (PlayerO game) as [po|]; [|done].
  repeat case_decide; try done;
    match goal with
    | |- context [updateRating ?k ?a ?b ?s p] =>
        pose proof (updateRating_fields k a b s p) as (-> & _)
    end;
    unfold insert, fn_insert; repeat (case_decide; subst; try done).
Qed.

Lemma MakeMove_ID h game playerID position p :
  ID ((MakeMove h game playerID position).1.1 p) = ID (h p).
Proof.
  destruct (IsValidMove h game playerID position) as [e|] eqn:Hv.
  { by rewrite (MakeMove_invalid _ _ _ _ _ Hv). }
  pose proof (MakeMove_valid _ _ _ _ Hv) as Hm. simpl in Hm. rewrite Hm.
  destruct (evaluateTermination _); simpl; try done; apply updatePlayerStats_ID.
Qed.

Lemma server_inv_set_memory gs h' :
  server_inv gs -> (forall q, ID (h' q) = ID (memory gs q)) ->
  server_inv (set_memory h' gs).
Proof.
  intros (Hc & Hp & Hq & Hg) Hid. split_and!; simpl.
  - intros c p Hcp. rewrite Hid. by apply (Hc c).
  - intros id p Hip. rewrite Hid. by apply Hp.
  - by destruct Hq.
  - by destruct Hq.
  - intros gid game Hl.
    destruct (Hg _ _ Hl) as (? & ? & (p1 & p2 & ? & ? & ? & ? & ?) & ? & ?).
    split_and!; try done. exists p1, p2. rewrite !Hid. by split_and!.
Qed.

Lemma server_inv_set_matchmaking gs q :
  server_inv gs -> (forall id, id ∈ q -> is_Some (players gs !! id)) -> NoDup q ->
  server_inv (set_matchmaking q gs).
Proof. intros (Hc & Hp & Hq & Hg) Hin Hnd. by split_and!. Qed.

Lemma server_inv_insert_game gs gid game :
  server_inv gs ->
  Game_ID game = gid -> reachable game ->
  (exists p1 p2, PlayerX game = Some p1 /\ PlayerO game = Some p2 /\
                 (p1 < brk gs)%nat /\ (p2 < brk gs)%nat /\
                 ID (memory gs p1) <> ID (memory gs p2)) ->
  (Status game = STATUS_PLAYING \/ Status game = STATUS_FINISHED) ->
  (is_Some (EndTime game) <-> Status game = STATUS_FINISHED) ->
  server_inv (set_games (<[gid := game]> (games gs)) gs).
Proof.
  intros (Hc & Hp & Hq & Hg) H1 H2 H3 H4 H5. split_and!; simpl; try done;
    try (by destruct Hq).
  intros gid' game' Hl. destruct (decide (gid = gid')) as [<-|Hne].
  - rewrite lookup_insert_eq in Hl. injection Hl as <-. by split_and!.
  - rewrite lookup_insert_ne in Hl by done. by apply Hg.
Qed.

Lemma createMatch_server_inv gs uuid now :
  server_inv gs -> server_inv (createMatch gs uuid now).1.
Proof.
  intros Hinv. unfold createMatch.
  destruct (matchmaking gs) as [|a [|b rest]] eqn:Hq; simpl; try done.
  pose proof Hinv as (_ & Hp & [Hqueue Hnd] & _). rewrite Hq in Hnd.
  assert (Hab : a <> b).
  { apply list.NoDup_cons in Hnd as [Hnot _]. intros ->. apply Hnot. by left. }
  assert (Hrest : server_inv (set_matchmaking rest gs)).
  { apply server_inv_set_matchmaking; [done| |].
    - intros id Hid. apply Hqueue. rewrite Hq.
      apply elem_of_cons. right. apply elem_of_cons. by right.
    - by apply NoDup_cons_1_2, NoDup_cons_1_2 in Hnd. }
  destruct (players gs !! a) as [p1|] eqn:H1; [|done].
  destruct (players gs !! b) as [p2|] eqn:H2; [|done]. simpl.
  destruct (Hp _ _ H1) as [Hlt1 Hid1]. destruct (Hp _ _ H2) as [Hlt2 Hid2].
  set (h := <[p2 := _]> (<[p1 := _]> (memory gs))).
  assert (Hh : forall q, ID (h q) = ID (memory gs q)).
  { intros q. unfold h, insert, fn_insert. repeat (case_decide; subst; try done). }
  apply (server_inv_insert_game
           (set_memory h (set_matchmaking rest gs)) uuid
           (set_Status STATUS_PLAYING
              (set_PlayerO (Some p2) (set_PlayerX (Some p1) (NewGame uuid now))))).
  - by apply server_inv_set_memory.
  - done.
  - apply reachable_match.
  - exists p1, p2. simpl. rewrite !Hh. split_and!; try done. congruence.
  - by left.
  - simpl. split; [by intros [? ?] | discriminate].
Qed.

Lemma handleJoinQueue_server_inv gs player uuid now :
  server_inv gs -> is_Some (players gs !! ID (memory gs player)) ->
  server_inv (handleJoinQueue gs player uuid now).1.
Proof.
  intros Hinv Hreg. unfold handleJoinQueue. case_decide as Hin; [done|].
  pose proof Hinv as (_ & _ & [Hqueue Hnd] & _).
  assert (Hjoined : server_inv
            (set_matchmaking (matchmaking gs ++ [ID (memory gs player)]) gs)).
  { apply server_inv_set_matchmaking; [done| |].
    - intros id [Hid|Hid]%elem_of_app; [by apply Hqueue|].
      by apply list_elem_of_singleton in Hid as ->.
    - apply list.NoDup_app. split_and!; [done| |apply NoDup_singleton].
      intros x Hx ->%list_elem_of_singleton. done. }
  case_decide; [|done]. by apply createMatch_server_inv.
Qed.

Lemma handleLeaveQueue_server_inv gs player :
  server_inv gs -> server_inv (handleLeaveQueue gs player).1.
Proof.
  intros Hinv. pose proof Hinv as (_ & _ & [Hqueue Hnd] & _).
  apply server_inv_set_matchmaking; [done| |by apply removeFirst_NoDup].
  intros id Hid. apply Hqueue. by eapply removeFirst_subseteq.
Qed.

(** What [handleMakeMove] stores for a game of the registry. *)
Lemma MakeMove_stored h game playerID position now :
  reachable game ->
  (Status game = STATUS_PLAYING \/ Status game = STATUS_FINISHED) ->
  (is_Some (EndTime game) <-> Status game = STATUS_FINISHED) ->
  let result := MakeMove h game playerID position in
  let stored :=
    if decide (result.2 = None /\ Status result.1.2 = STATUS_FINISHED)
    then set_EndTime (Some now) result.1.2 else result.1.2 in
  reachable stored /\
  Game_ID stored = Game_ID game /\
  PlayerX stored = PlayerX game /\ PlayerO stored = PlayerO game /\
  (Status stored = STATUS_PLAYING \/ Status stored = STATUS_FINISHED) /\
  (is_Some (EndTime stored) <-> Status stored = STATUS_FINISHED).
Proof.
  intros Hr Hst Hend. cbv zeta.
  pose proof (reachable_MakeMove game h playerID position Hr) as Hr'.
  pose proof (MakeMove_fields h game playerID position)
    as (Hstat & Hid & Hx & Ho & _ & Het). cbv zeta in *.
  destruct (IsValidMove h game playerID position) as [e|] eqn:Hv.
  { rewrite (MakeMove_invalid _ _ _ _ _ Hv) in *. simpl in *. by split_and!. }
  destruct (IsValidMove_turn _ _ _ _ Hv) as (Hs & _).
  assert (Hnone : EndTime game = None).
  { destruct (EndTime game) as [t|] eqn:Ht; [|done].
    assert (Status game = STATUS_FINISHED) as Hf by (apply Hend; eauto).
    rewrite Hs in Hf. discriminate. }
  assert (He : (MakeMove h game playerID position).2 = None).
  { pose proof (MakeMove_valid _ _ _ _ Hv) as Hm. simpl in Hm. rewrite Hm.
    by destruct (evaluateTermination _). }
  destruct (decide (Status (MakeMove h game playerID position).1.2 = STATUS_FINISHED))
    as [Hf|Hf].
  - rewrite decide_True by done. simpl.
    split_and!; try done; try (by apply reachable_EndTime); try (by right);
      try (split; [done | eauto]).
  - rewrite decide_False by (by intros [_ ?]).
    split_and!; try done.
    + destruct Hstat as [->|[_ ?]]; [by left | done].
    + rewrite Het, Hnone. split; [by intros [? ?] | done].
Qed.

Lemma handleMakeMove_server_inv gs msg now :
  server_inv gs -> server_inv (handleMakeMove gs msg now).1.
Proof.
  intros Hinv.
  destruct (moveData (Msg_Data msg) "gameId") as [[| | |gameID| |]|] eqn:Hg;
    try (unfold handleMakeMove; by rewrite Hg).
  destruct (moveData (Msg_Data msg) "position") as [[| |position| | |]|] eqn:Hp;
    try (unfold handleMakeMove; by rewrite Hg, Hp).
  destruct (games gs !! gameID) as [game|] eqn:Hgame;
    [|unfold handleMakeMove; by rewrite Hg, Hp, Hgame].
  rewrite (handleMakeMove_found _ _ _ _ _ _ Hg Hp Hgame). cbv zeta.
  pose proof Hinv as (_ & _ & _ & Hgames).
  destruct (Hgames _ _ Hgame) as (Hid & Hr & (p1 & p2 & Hpl) & Hst & Hend).
  destruct (MakeMove_stored (memory gs) game (Msg_PlayerID msg)
              (int_of_float64 position) now Hr Hst Hend)
    as (Hr' & Hid' & Hx' & Ho' & Hst' & Hend').
  cbv zeta in *.
  apply (server_inv_insert_game (set_memory _ gs)).
  - apply server_inv_set_memory; [done|]. intros q. apply MakeMove_ID.
  - congruence.
  - done.
  - simpl. rewrite Hx', Ho'. exists p1, p2. rewrite !MakeMove_ID. done.
  - done.
  - done.
Qed.

Lemma handleMessage_server_inv gs c msg uuid now :
  server_inv gs -> server_inv (handleMessage gs c msg uuid now).1.
Proof.
  intros Hinv. unfold handleMessage.
  destruct (clients gs !! c) as [player|] eqn:Hc; [|done].
  repeat case_decide; try done.
  - apply handleJoinQueue_server_inv; [done|].
    destruct Hinv as (Hcl & _). by destruct (Hcl _ _ Hc).
  - by apply handleLeaveQueue_server_inv.
  - by apply handleMakeMove_server_inv.
Qed.

Lemma register_server_inv gs c name uuid now :
  server_inv gs -> server_inv (HandleWebSocket_register gs c name uuid now).1.
Proof.
  intros (Hc & Hp & [Hq Hnd] & Hg). unfold HandleWebSocket_register. simpl.
  split_and!; simpl.
  - intros c' p Hl. destruct (decide (c = c')) as [<-|Hne].
    + rewrite lookup_insert_eq in Hl. injection Hl as <-. split; [lia|].
      rewrite fn_lookup_insert. simpl. rewrite lookup_insert_eq. eauto.
    + rewrite lookup_insert_ne in Hl by done. destruct (Hc _ _ Hl) as [Hlt Hreg].
      split; [lia|]. rewrite fn_lookup_insert_ne by lia.
      destruct (decide (uuid = ID (memory gs p))) as [<-|Hne'].
      * rewrite lookup_insert_eq. eauto.
      * by rewrite lookup_insert_ne.
  - intros id p Hl. destruct (decide (uuid = id)) as [<-|Hne].
    + rewrite lookup_insert_eq in Hl. injection Hl as <-. split; [lia|].
      by rewrite fn_lookup_insert.
    + rewrite lookup_insert_ne in Hl by done. destruct (Hp _ _ Hl) as [Hlt Hid].
      split; [lia|]. by rewrite fn_lookup_insert_ne by lia.
  - intros id Hid. destruct (decide (uuid = id)) as [<-|Hne].
    + rewrite lookup_insert_eq. eauto.
    + rewrite lookup_insert_ne by done. by apply Hq.
  - done.
  - intros gid game Hl.
    destruct (Hg _ _ Hl) as (? & ? & (p1 & p2 & ? & ? & ? & ? & ?) & ? & ?).
    split_and!; try done. exists p1, p2.
    rewrite !fn_lookup_insert_ne by lia. split_and!; try done; lia.
Qed.

Lemma handleDisconnect_server_inv gs c now :
  server_inv gs -> server_inv (handleDisconnect gs c now).
Proof.
  intros Hinv. unfold handleDisconnect.
  destruct (clients gs !! c) as [player|] eqn:Hc; [|done].
  assert (Hq : server_inv (set_matchmaking
                 (removeFirst (ID (memory gs player)) (matchmaking gs)) gs))
    by (by apply (handleLeaveQueue_server_inv gs player)).
  assert (Hm : server_inv (set_memory
                 (<[player := set_LastSeen now (memory gs player)]> (memory gs))
                 (set_matchmaking
                    (removeFirst (ID (memory gs player)) (matchmaking gs)) gs))).
  { apply server_inv_set_memory; [done|]. intros q. simpl.
    unfold insert, fn_insert. case_decide; by subst. }
  destruct Hm as (Hcl & Hp & Hqueue & Hg). split_and!; simpl in *; try done;
    try (by destruct Hqueue).
  intros c' p Hl. apply lookup_delete_Some in Hl as [_ Hl]. by apply (Hcl c').
Qed.

Lemma server_reachable_inv gs : server_reachable gs -> server_inv gs.
Proof.
  induction 1 as [h|gs c name uuid now _ IH|gs c msg uuid now _ IH|gs c now _ IH].
  - split_and!; simpl; intros *; try (rewrite lookup_empty; done).
    + by intros ?%elem_of_nil.
    + constructor.
  - by apply register_server_inv.
  - by apply handleMessage_server_inv.
  - by apply handleDisconnect_server_inv.
Qed.

(** ** The registry in every state of the server *)

(** X9: in every state of the server the waiting list holds at most one
    identifier, and a waiting identifier is that of a registered player: a
    second player who joins is matched at once, nobody waits behind
    another. *)
Theorem queue_at_most_one gs :
  server_reachable gs ->
  (length (matchmaking gs) <= 1)%nat /\
  (forall id, id ∈ matchmaking gs ->
     exists p, players gs !! id = Some p /\ ID (memory gs p) = id /\ (p < brk gs)%nat).
Proof.
  intros Hr. split; [by apply server_reachable_short|].
  intros id Hid. destruct (server_reachable_inv _ Hr) as (_ & Hp & [Hq _] & _).
  destruct (Hq _ Hid) as [p Hl]. exists p. destruct (Hp _ _ Hl). by split_and!.
Qed.

(** X10: every game of the registry, in every state of the server, is
    stored under its own identifier, has both its players, is playing or
    finished, has a winner exactly when it is finished, and has an end
    time exactly when it is finished. *)
Theorem stored_games_in_order gs gid game :
  server_reachable gs -> games gs !! gid = Some game ->
  Game_ID game = gid /\
  (exists p1 p2, PlayerX game = Some p1 /\ PlayerO game = Some p2) /\
  (Status game = STATUS_PLAYING \/ Status game = STATUS_FINISHED) /\
  (Winner game <> "" <-> Status game = STATUS_FINISHED) /\
  (is_Some (EndTime game) <-> Status game = STATUS_FINISHED) /\
  CheckWinner (Board game) ∈ [""; "X"; "O"].
Proof.
  intros Hr Hl. destruct (server_reachable_inv _ Hr) as (_ & _ & _ & Hg).
  destruct (Hg _ _ Hl) as (Hid & Hreach & (p1 & p2 & Hx & Ho & _) & Hst & Hend).
  destruct (reachable_status_inv _ Hreach) as [Hok Hw].
  split_and!; try done.
  - by exists p1, p2.
  - destruct Hw as [[Hs ->]|[Hs Hw]].
    + split; [done|]. intros Hf. destruct Hs as [Hs|Hs]; rewrite Hs in Hf; discriminate.
    + split; [done|]. intros _. destruct Hw as [->|[->| ->]]; done.
  - destruct (decide (CheckWinner (Board game) = "")) as [->|Hne]; [by left|].
    destruct (CheckWinner_symbol _ Hok Hne) as [-> | ->]; [right; by left|].
    right. right. by left.
Qed.

(** X11: in every state of the server, a registered player who joins while
    another identifier waits is matched: the lookups of [createMatch] find
    both players, the game is stored with the player who waited as X and
    the one who joined as O, the list is left empty, and in the view each
    has of the new game the first turn is with the player who waited. *)
Theorem second_join_matches gs c player uuid now waiting :
  server_reachable gs ->
  clients gs !! c = Some player ->
  matchmaking gs = [waiting] ->
  ID (memory gs player) <> waiting ->
  let gs' := (handleJoinQueue gs player uuid now).1 in
  exists p1 p2,
    players gs !! waiting = Some p1 /\
    players gs !! ID (memory gs player) = Some p2 /\
    matchmaking gs' = [] /\
    games gs' = <[uuid := matchGame uuid now p1 p2]> (games gs) /\
    (Symbol (memory gs' p1) = "X" /\ Symbol (memory gs' p2) = "O") /\
    (let v1 := GetGameStateForPlayer (memory gs') (matchGame uuid now p1 p2) waiting in
     mySymbol v1 = "X" /\ isMyTurn v1 = true /\
     status v1 = STATUS_PLAYING /\ board v1 = replicate 9 "") /\
    (let v2 := GetGameStateForPlayer (memory gs') (matchGame uuid now p1 p2)
                 (ID (memory gs player)) in
     mySymbol v2 = "O" /\ isMyTurn v2 = false).
Proof.
  intros Hr Hc Hq Hne.
  destruct (server_reachable_inv _ Hr) as (Hcl & Hp & [Hqueue _] & _).
  destruct (Hqueue waiting) as [p1 H1]; [rewrite Hq; by left|].
  destruct (Hcl _ _ Hc) as [_ [p2 H2]].
  destruct (Hp _ _ H1) as [_ Hid1]. destruct (Hp _ _ H2) as [_ Hid2].
  assert (Hp12 : p1 <> p2) by (intros ->; congruence).
  rewrite handleJoinQueue_absent
    by (rewrite Hq; intros ?%list_elem_of_singleton; done).
  cbv zeta. rewrite Hq. simpl. unfold createMatch. simpl. rewrite H1, H2. simpl.
  set (h := <[p2 := _]> (<[p1 := _]> (memory gs))).
  assert (Hh1 : ID (h p1) = waiting).
  { unfold h, insert, fn_insert. repeat (case_decide; subst; try done). }
  assert (Hh2 : ID (h p2) = ID (memory gs player)).
  { unfold h, insert, fn_insert. repeat (case_decide; subst; try done). }
  exists p1, p2. split_and!; try reflexivity; try done.
  - unfold h, insert, fn_insert. repeat (case_decide; subst; try done).
  - unfold h, insert, fn_insert. repeat (case_decide; subst; try done).
  - unfold GetGameStateForPlayer. simpl. by rewrite Hh1, bool_decide_eq_true_2.
  - unfold GetGameStateForPlayer. simpl. by rewrite Hh1, bool_decide_eq_true_2.
  - unfold GetGameStateForPlayer. simpl. by rewrite Hh1, bool_decide_eq_true_2.
  - unfold GetGameStateForPlayer. simpl. by rewrite Hh1, bool_decide_eq_true_2.
  - unfold GetGameStateForPlayer. simpl.
    rewrite Hh1, Hh2, bool_decide_eq_false_2, bool_decide_eq_true_2 by done. done.
  - unfold GetGameStateForPlayer. simpl.
    rewrite Hh1, Hh2, bool_decide_eq_false_2, bool_decide_eq_true_2 by done. done.
Qed.

(** ** Leaving and dropping *)

(** X12: when a connection drops, [handleDisconnect] takes it out of the
    connection table and its player out of the waiting list, and stamps the
    player's last-seen time; the registered players, their statistics and
    the games stay, and so do the other connections. A second drop, or the
    drop of an unknown connection, does nothing. *)
Theorem handleDisconnect_cleans gs c now :
  (clients gs !! c = None -> handleDisconnect gs c now = gs) /\
  (forall player,
     server_reachable gs -> clients gs !! c = Some player ->
     let gs' := handleDisconnect gs c now in
     clients gs' !! c = None /\
     (forall c', c' <> c -> clients gs' !! c' = clients gs !! c') /\
     (ID (memory gs player) ∉ matchmaking gs') /\
     players gs' = players gs /\ games gs' = games gs /\
     memory gs' player = set_LastSeen now (memory gs player) /\
     (forall q, q <> player -> memory gs' q = memory gs q) /\
     (forall now', handleDisconnect gs' c now' = gs')).
Proof.
  split.
  { intros Hc. unfold handleDisconnect. by rewrite Hc. }
  intros player Hr Hc. unfold handleDisconnect. rewrite Hc. simpl.
  split_and!; try done.
  - apply lookup_delete_eq.
  - intros c' Hne. by apply lookup_delete_ne.
  - by apply removeFirst_NoDup_gone, server_reachable_NoDup.
  - by rewrite fn_lookup_insert.
  - intros q Hq. by rewrite fn_lookup_insert_ne.
  - intros now'. by rewrite lookup_delete_eq.
Qed.

(** X13: joining and leaving undo each other: a player who joins the empty
    waiting list and leaves again puts the server back in the state it was
    in, and no message is sent. *)
Theorem join_leave_round_trip gs player uuid now :
  matchmaking gs = [] ->
  (handleJoinQueue gs player uuid now).2 = [] /\
  handleLeaveQueue (handleJoinQueue gs player uuid now).1 player = (gs, []).
Proof.
  intros Hq.
  rewrite handleJoinQueue_absent by (rewrite Hq; apply not_elem_of_nil).
  cbv zeta. simpl. rewrite Hq. simpl. split; [done|].
  unfold handleLeaveQueue. simpl. rewrite decide_True by done.
  destruct gs as [cl gm pl q m b]. simpl in Hq. by subst q.
Qed.

(** ** Moves that are not made *)

Lemma write_back_same gs gameID game :
  games gs !! gameID = Some game ->
  set_games (<[gameID := game]> (games gs)) (set_memory (memory gs) gs) = gs.
Proof.
  intros Hl. destruct gs as [cl gm pl q m b]. unfold set_games, set_memory. simpl in *.
  by rewrite insert_id.
Qed.

(** X14: what [handleMakeMove] does with a move it cannot make. A payload
    without a string "gameId" or without a numeric "position" is dropped:
    nothing changes and nothing is sent. For a game that is not in the
    registry the sender is sent "Game not found". For a move the engine
    refuses the sender is sent the reason. In each case the server state
    is what it was. *)
Theorem handleMakeMove_refusals gs msg now :
  ((forall gameID, moveData (Msg_Data msg) "gameId" <> Some (JString gameID)) ->
   handleMakeMove gs msg now = (gs, [])) /\
  ((forall position, moveData (Msg_Data msg) "position" <> Some (JNumber position)) ->
   handleMakeMove gs msg now = (gs, [])) /\
  (forall gameID position,
     moveData (Msg_Data msg) "gameId" = Some (JString gameID) ->
     moveData (Msg_Data msg) "position" = Some (JNumber position) ->
     games gs !! gameID = None ->
     handleMakeMove gs msg now
     = (gs, [SendToPlayer (Msg_PlayerID msg) MSG_ERROR (ErrorText "Game not found") ""])) /\
  (forall gameID position game e,
     moveData (Msg_Data msg) "gameId" = Some (JString gameID) ->
     moveData (Msg_Data msg) "position" = Some (JNumber position) ->
     games gs !! gameID = Some game ->
     IsValidMove (memory gs) game (Msg_PlayerID msg) (int_of_float64 position) = Some e ->
     handleMakeMove gs msg now
     = (gs, [SendToPlayer (Msg_PlayerID msg) MSG_ERROR (ErrorText e) ""])).
Proof.
  split_and!.
  - intros Hno. unfold handleMakeMove.
    destruct (moveData (Msg_Data msg) "gameId") as [[| | |gameID| |]|]; try done.
    by destruct (Hno gameID).
  - intros Hno. unfold handleMakeMove.
    destruct (moveData (Msg_Data msg) "gameId") as [[| | |gameID| |]|]; try done.
    destruct (moveData (Msg_Data msg) "position") as [[| |position| | |]|]; try done.
    by destruct (Hno position).
  - intros gameID position Hg Hp Hgame. unfold handleMakeMove.
    by rewrite Hg, Hp, Hgame.
  - intros gameID position game e Hg Hp Hgame Hv. unfold handleMakeMove.
    rewrite Hg, Hp, Hgame, (MakeMove_invalid _ _ _ _ _ Hv). simpl.
    f_equal. by apply write_back_same.
Qed.

(** ** Messages and the registry *)

Lemma createMatch_keeps gs uuid now :
  clients (createMatch gs uuid now).1 = clients gs /\
  players (createMatch gs uuid now).1 = players gs /\
  brk (createMatch gs uuid now).1 = brk gs.
Proof.
  unfold createMatch. destruct (matchmaking gs) as [|a [|b rest]]; simpl; try done.
  by destruct (players gs !! a), (players gs !! b).
Qed.

Lemma handleJoinQueue_keeps gs player uuid now :
  clients (handleJoinQueue gs player uuid now).1 = clients gs /\
  players (handleJoinQueue gs player uuid now).1 = players gs /\
  brk (handleJoinQueue gs player uuid now).1 = brk gs.
Proof.
  unfold handleJoinQueue. repeat case_decide; try done.
  by pose proof (createMatch_keeps
       (set_matchmaking (matchmaking gs ++ [ID (memory gs player)]) gs) uuid now)
    as (-> & -> & ->).
Qed.

Lemma handleMakeMove_keeps gs msg now :
  clients (handleMakeMove gs msg now).1 = clients gs /\
  players (handleMakeMove gs msg now).1 = players gs /\
  brk (handleMakeMove gs msg now).1 = brk gs.
Proof.
  unfold handleMakeMove.
  destruct (moveData _ "gameId") as [[| | |gameID| |]|]; try done.
  destruct (moveData _ "position") as [[| |position| | |]|]; try done.
  destruct (games gs !! gameID) as [g|]; [|done].
  destruct (MakeMove _ _ _ _) as [[h g'] [e|]]; [done|].
  by case_decide.
Qed.

(** X15: messages do not register or remove anybody: whatever the message,
    [handleMessage] leaves the connection table and the table of
    registered players as they are and changes no identifier. A message
    on a connection that is not registered, or of a kind other than
    join_queue, leave_queue, make_move and leaderboard, changes nothing
    and sends nothing. *)
Theorem handleMessage_keeps_registry gs c msg uuid now :
  clients (handleMessage gs c msg uuid now).1 = clients gs /\
  players (handleMessage gs c msg uuid now).1 = players gs /\
  (forall p, ID (memory (handleMessage gs c msg uuid now).1 p) = ID (memory gs p)) /\
  (clients gs !! c = None -> handleMessage gs c msg uuid now = (gs, [])) /\
  (Msg_Type msg ∉ [MSG_JOIN_QUEUE; MSG_LEAVE_QUEUE; MSG_MAKE_MOVE; MSG_LEADERBOARD] ->
   handleMessage gs c msg uuid now = (gs, [])).
Proof.
  unfold handleMessage. destruct (clients gs !! c) as [player|] eqn:Hc; simpl.
  2: { by split_and!. }
  split_and!.
  - repeat case_decide; try done.
    + by destruct (handleJoinQueue_keeps gs player uuid now) as (? & ? & ?).
    + by destruct (handleMakeMove_keeps gs
                     (set_Msg_PlayerID (ID (memory gs player)) msg) now) as (? & ? & ?).
  - repeat case_decide; try done.
    + by destruct (handleJoinQueue_keeps gs player uuid now) as (? & ? & ?).
    + by destruct (handleMakeMove_keeps gs
                     (set_Msg_PlayerID (ID (memory gs player)) msg) now) as (? & ? & ?).
  - intros p. repeat case_decide; try done.
    + unfold handleJoinQueue. repeat case_decide; try done.
      by rewrite createMatch_memory_ID.
    + unfold handleMakeMove.
      destruct (moveData _ "gameId") as [[| | |gameID| |]|]; try done.
      destruct (moveData _ "position") as [[| |position| | |]|]; try done.
      destruct (games gs !! gameID) as [g|]; [|done].
      pose proof (MakeMove_ID (memory gs) g (ID (memory gs player))
                    (int_of_float64 position) p) as Hid.
      simpl. destruct (MakeMove _ _ _ _) as [[h g'] [e|]]; [done|].
      by case_decide.
  - done.
  - intros Hno. rewrite !not_elem_of_cons in Hno. destruct Hno as (? & ? & ? & ? & _).
    by rewrite !decide_False by done.
Qed.

(** ** Registration *)

(** X16: a connection gets a player of its own: after the registration of
    [HandleWebSocket] the connection and the new identifier lead to a new
    player with rating 1000, no game counted, and the name given (or
    "Anonymous"); in every state of the server all other connections and
    identifiers keep their players, whose records are untouched, and the
    waiting list and the games are as before. *)
Theorem register_fresh gs c name uuid now :
  server_reachable gs ->
  let gs' := (HandleWebSocket_register gs c name uuid now).1 in
  let player := NewPlayer uuid now (if decide (name = "") then "Anonymous" else name) in
  clients gs' !! c = Some (brk gs) /\
  players gs' !! uuid = Some (brk gs) /\
  memory gs' (brk gs) = player /\
  (Rating player = 1000 /\ Wins player = 0 /\ Losses player = 0 /\ Draws player = 0) /\
  (forall c' p, c' <> c -> clients gs !! c' = Some p ->
     clients gs' !! c' = Some p /\ memory gs' p = memory gs p) /\
  (forall id p, id <> uuid -> players gs !! id = Some p ->
     players gs' !! id = Some p /\ memory gs' p = memory gs p) /\
  (forall gid game p, games gs !! gid = Some game ->
     PlayerX game = Some p \/ PlayerO game = Some p -> memory gs' p = memory gs p) /\
  matchmaking gs' = matchmaking gs /\ games gs' = games gs /\
  (HandleWebSocket_register gs c name uuid now).2
  = [SendToClient c MSG_PLAYER_UPDATE (PlayerInfo player);
     SendToClient c MSG_LEADERBOARD LeaderboardOf].
Proof.
  intros Hr. destruct (server_reachable_inv _ Hr) as (Hcl & Hp & _ & Hg).
  unfold HandleWebSocket_register. simpl. split_and!; try done.
  - apply lookup_insert_eq.
  - apply lookup_insert_eq.
  - by rewrite fn_lookup_insert.
  - intros c' p Hne Hl. rewrite lookup_insert_ne by done. split; [done|].
    destruct (Hcl _ _ Hl) as [Hlt _]. rewrite fn_lookup_insert_ne by lia. done.
  - intros id p Hne Hl. rewrite lookup_insert_ne by done. split; [done|].
    destruct (Hp _ _ Hl) as [Hlt _]. rewrite fn_lookup_insert_ne by lia. done.
  - intros gid game p Hl Hpl.
    destruct (Hg _ _ Hl) as (_ & _ & (p1 & p2 & Hx & Ho & Hlt1 & Hlt2 & _) & _).
    rewrite fn_lookup_insert_ne; [done|].
    destruct Hpl as [Hpl|Hpl]; [rewrite Hx in Hpl | rewrite Ho in Hpl];
      injection Hpl as <-; lia.
  - by rewrite fn_lookup_insert.
Qed.

(** ** The size of a rating change *)

Lemma within_64_buckets :
  forallb (fun bucket => (bucket =? -11)%Z || within_64_at bucket) (seqZ (-250) 501) = true.
Proof. vm_compute. reflexivity. Qed.

(** X17: away from the quotient -11, what one player gains the other
    loses, whatever the outcome, and no game moves more than 64 points
    (ratings up to 100000). *)
Theorem ratingChange_opposite ratingX ratingO score :
  0 <= ratingX <= 100000 -> 0 <= ratingO <= 100000 ->
  ratingBucket ratingX ratingO <> -11 ->
  score ∈ [1%float; 0%float; 0.5%float] ->
  ratingChangeO ratingX ratingO score = - ratingChangeX ratingX ratingO score /\
  - 64 <= ratingChangeX ratingX ratingO score <= 64.
Proof.
  intros HX HO Hb Hs.
  pose proof (ratingChange_zero_sum _ _ _ HX HO Hb Hs) as Hzero.
  split; [lia|].
  assert (Hw : wrap64 (ratingO - ratingX) = ratingO - ratingX).
  { unfold wrap64. rewrite Z.mod_small; lia. }
  assert (Hin : ratingBucket ratingX ratingO ∈ seqZ (-250) 501).
  { apply elem_of_seqZ. unfold ratingBucket. rewrite Hw.
    pose proof (Z.quot_le_mono (ratingO - ratingX) 100000 400 ltac:(lia) ltac:(lia)).
    pose proof (Z.quot_le_mono (-100000) (ratingO - ratingX) 400 ltac:(lia) ltac:(lia)).
    change (100000 ÷ 400) with 250 in *. change (-100000 ÷ 400) with (-250) in *. lia. }
  pose proof within_64_buckets as Hall. rewrite forallb_forall in Hall.
  apply list_elem_of_In in Hin. specialize (Hall _ Hin).
  apply orb_true_iff in Hall as [Heq%Z.eqb_eq|Hz]; [done|].
  unfold within_64_at in Hz. rewrite forallb_forall in Hz.
  apply list_elem_of_In in Hs. specialize (Hz _ Hs).
  apply andb_true_iff in Hz as [Hz _]. apply Z.leb_le in Hz.
  unfold ratingChangeX, expectedX. fold (ratingBucket ratingX ratingO). lia.
Qed.

(** ** The leaderboard *)

Lemma StronglySorted_lookup {A} (R : relation A) (l : list A) i j a b :
  StronglySorted R l -> (i < j)%nat -> l !! i = Some a -> l !! j = Some b -> R a b.
Proof.
  intros Hs. revert i j. induction Hs as [|x l Hs IH Hall]; intros i j Hij Hi Hj; [done|].
  destruct j as [|j]; [lia|]. simpl in Hj. destruct i as [|i]; simpl in Hi.
  - injection Hi as <-. rewrite Forall_lookup in Hall. by eapply Hall.
  - eapply IH; [|done|done]. lia.
Qed.

Lemma sample_sort_sorts : sorts_by_key sample_sort.
Proof.
  intros key l. cbv zeta. unfold sample_sort.
  set (R := not_less (fun i j => bool_decide (key i > key j))).
  assert (HR : forall a b, R a b <-> key b <= key a).
  { intros a b. unfold R, not_less. rewrite bool_decide_eq_false. lia. }
  assert (Transitive R) by (intros a b d; rewrite !HR; lia).
  assert (Total R) by (intros a b; rewrite !HR; lia).
  split; [apply merge_sort_Permutation|].
  intros i j a b Hij Hi Hj. apply HR.
  eapply (StronglySorted_lookup R); [|exact Hij|exact Hi|exact Hj].
  by apply StronglySorted_merge_sort.
Qed.

(** X18: the leaderboard is the top ten by rating of the players with a
    game on record. Whatever the order in which the players are ranged
    over, and for every sort that does what [sort.Slice] promises,
    [getLeaderboard] returns at most 10 players, each of them ranged over
    and with at least one game counted, in descending order of rating; a
    player with a game who is left out has ten players listed ahead, none
    rated lower. *)
Theorem getLeaderboard_top sortSlice h ranged :
  sorts_by_key sortSlice ->
  let leaders := getLeaderboard sortSlice h ranged in
  let counted := fun p => wrap64 (wrap64 (Wins (h p) + Losses (h p)) + Draws (h p)) in
  (length leaders <= 10)%nat /\
  (forall p, p ∈ leaders -> p ∈ ranged /\ counted p > 0) /\
  (forall i j a b, (i < j)%nat -> leaders !! i = Some a -> leaders !! j = Some b ->
     Rating (h b) <= Rating (h a)) /\
  (forall p, p ∈ ranged -> counted p > 0 -> p ∉ leaders ->
     length leaders = 10%nat /\ forall q, q ∈ leaders -> Rating (h p) <= Rating (h q)) /\
  ((length ranged <= 10)%nat ->
   forall p, p ∈ leaders <-> p ∈ ranged /\ counted p > 0).
Proof.
  intros Hsort. cbv zeta. unfold getLeaderboard. cbv zeta.
  set (eligible := filter _ ranged).
  destruct (Hsort (fun p => Rating (h p)) eligible) as [Hperm Hord].
  cbv zeta in Hperm, Hord.
  set (sorted := sortSlice _ eligible) in *.
  assert (Hmem : forall p, p ∈ sorted <->
            p ∈ ranged /\
            wrap64 (wrap64 (Wins (h p) + Losses (h p)) + Draws (h p)) > 0).
  { intros p. rewrite Hperm. unfold eligible. rewrite list_elem_of_filter. tauto. }
  split_and!.
  - case_decide; [rewrite length_take|]; lia.
  - intros p Hp. apply Hmem. case_decide; [|done].
    apply elem_of_take in Hp as (i & Hi & _). by eapply list_elem_of_lookup_2.
  - intros i j a b Hij Hi Hj. case_decide.
    + apply lookup_take_Some in Hi as [Hi _]. apply lookup_take_Some in Hj as [Hj _].
      exact (Hord i j a b Hij Hi Hj).
    + exact (Hord i j a b Hij Hi Hj).
  - intros p Hp Hc Hout.
    assert (Hin : p ∈ sorted) by (by apply Hmem).
    apply list_elem_of_lookup_1 in Hin as [k Hk].
    case_decide as Hlen; [|by destruct Hout; eapply list_elem_of_lookup_2].
    assert (10 <= k)%nat as Hk10.
    { destruct (decide (k < 10)%nat) as [Hlt|]; [|lia].
      destruct Hout. apply elem_of_take. eauto. }
    split; [rewrite length_take; lia|].
    intros q (i & Hi & Hi10)%elem_of_take.
    exact (Hord i k q p ltac:(lia) Hi Hk).
  - intros Hshort p. rewrite <- Hmem. case_decide as Hlen; [|done].
    exfalso. rewrite Hperm in Hlen. unfold eligible in Hlen.
    pose proof (length_filter (fun player =>
      wrap64 (wrap64 (Wins (h player) + Losses (h player)) + Draws (h player)) > 0)
      ranged). lia.
Qed.

(** ** Moves that are made *)

Lemma GetGameStateForPlayer_fields h game playerID :
  gameId (GetGameStateForPlayer h game playerID) = Game_ID game /\
  board (GetGameStateForPlayer h game playerID) = Board game /\
  currentTurn (GetGameStateForPlayer h game playerID) = CurrentTurn game /\
  status (GetGameStateForPlayer h game playerID) = Status game /\
  winner (GetGameStateForPlayer h game playerID) = Winner game.
Proof.
  unfold GetGameStateForPlayer.
  by destruct (is_player h (PlayerX game) playerID),
              (is_player h (PlayerO game) playerID).
Qed.

(** X19: a move that passes the validation, on a game of the registry in
    any state of the server: the game and the players are what [MakeMove]
    leaves (with the end time recorded when the game is finished), both
    players are sent an update with the same board, status and winner, X
    to the player of X and O to the player of O, a leaderboard broadcast
    follows exactly when the game is finished, and while the game goes on
    exactly one of the two is told that the turn is theirs. *)
Theorem handleMakeMove_accepted gs msg now gameID position game :
  server_reachable gs ->
  moveData (Msg_Data msg) "gameId" = Some (JString gameID) ->
  moveData (Msg_Data msg) "position" = Some (JNumber position) ->
  games gs !! gameID = Some game ->
  IsValidMove (memory gs) game (Msg_PlayerID msg) (int_of_float64 position) = None ->
  exists h' game' pX pO vX vO,
    MakeMove (memory gs) game (Msg_PlayerID msg) (int_of_float64 position)
    = (h', game', None) /\
    PlayerX game = Some pX /\ PlayerO game = Some pO /\
    memory (handleMakeMove gs msg now).1 = h' /\
    games (handleMakeMove gs msg now).1 !! gameID
    = Some (if decide (Status game' = STATUS_FINISHED)
            then set_EndTime (Some now) game' else game') /\
    (handleMakeMove gs msg now).2
    = ([SendToPlayer (ID (memory gs pX)) MSG_GAME_UPDATE (GameStateOf vX) gameID;
        SendToPlayer (ID (memory gs pO)) MSG_GAME_UPDATE (GameStateOf vO) gameID]
       ++ if decide (Status game' = STATUS_FINISHED)
          then [Broadcast MSG_LEADERBOARD LeaderboardOf] else [])%list /\
    (board vX = Board game' /\ board vO = Board game') /\
    (status vX = Status game' /\ status vO = Status game') /\
    (winner vX = Winner game' /\ winner vO = Winner game') /\
    (mySymbol vX = "X" /\ mySymbol vO = "O") /\
    (Status game' = STATUS_FINISHED -> isMyTurn vX = false /\ isMyTurn vO = false) /\
    (Status game' = STATUS_PLAYING ->
     isMyTurn vX = negb (isMyTurn vO) /\
     isMyTurn vX = bool_decide (CurrentTurn game' = "X")).
Proof.
  intros Hr Hg Hp Hgame Hv.
  destruct (server_reachable_inv _ Hr) as (_ & _ & _ & Hgames).
  destruct (Hgames _ _ Hgame)
    as (Hid & Hreach & (pX & pO & HX & HO & _ & _ & Hdiff) & _ & _).
  pose proof (MakeMove_fields (memory gs) game (Msg_PlayerID msg) (int_of_float64 position))
    as (_ & Hid' & HX' & HO' & _). cbv zeta in *.
  pose proof (reachable_turn _ (reachable_MakeMove game (memory gs) (Msg_PlayerID msg)
                                  (int_of_float64 position) Hreach)) as Hturn.
  pose proof (MakeMove_ID (memory gs) game (Msg_PlayerID msg) (int_of_float64 position))
    as HID.
  assert (He : (MakeMove (memory gs) game (Msg_PlayerID msg)
                  (int_of_float64 position)).2 = None).
  { pose proof (MakeMove_valid _ _ _ _ Hv) as Hm. simpl in Hm. rewrite Hm.
    by destruct (evaluateTermination _). }
  unfold handleMakeMove. rewrite Hg, Hp, Hgame.
  destruct (MakeMove (memory gs) game (Msg_PlayerID msg) (int_of_float64 position))
    as [[h' game'] e] eqn:Hm. simpl in *. subst e.
  rewrite HX, HO in *.
  assert (HidX : ID (h' pX) = ID (memory gs pX)) by apply HID.
  assert (HidO : ID (h' pO) = ID (memory gs pO)) by apply HID.
  assert (HvX : is_player h' (Some pX) (ID (memory gs pX)) = true)
    by (simpl; by rewrite HidX, bool_decide_eq_true_2).
  assert (HvO1 : is_player h' (Some pX) (ID (memory gs pO)) = false)
    by (simpl; by rewrite HidX, bool_decide_eq_false_2).
  assert (HvO2 : is_player h' (Some pO) (ID (memory gs pO)) = true)
    by (simpl; by rewrite HidO, bool_decide_eq_true_2).
  exists h', game', pX, pO,
    (GetGameStateForPlayer h' game' (ID (memory gs pX))),
    (GetGameStateForPlayer h' game' (ID (memory gs pO))).
  assert (Hviews :
    mySymbol (GetGameStateForPlayer h' game' (ID (memory gs pX))) = "X" /\
    mySymbol (GetGameStateForPlayer h' game' (ID (memory gs pO))) = "O" /\
    isMyTurn (GetGameStateForPlayer h' game' (ID (memory gs pX)))
    = bool_decide (CurrentTurn game' = "X") && bool_decide (Status game' = STATUS_PLAYING) /\
    isMyTurn (GetGameStateForPlayer h' game' (ID (memory gs pO)))
    = bool_decide (CurrentTurn game' = "O") && bool_decide (Status game' = STATUS_PLAYING)).
  { unfold GetGameStateForPlayer. rewrite HX', HO', HvX, HvO1, HvO2. by simpl. }
  destruct Hviews as (HsX & HsO & HtX & HtO).
  assert (Hfin : Status game' = STATUS_FINISHED ->
            isMyTurn (GetGameStateForPlayer h' game' (ID (memory gs pX))) = false /\
            isMyTurn (GetGameStateForPlayer h' game' (ID (memory gs pO))) = false).
  { intros Hf. rewrite HtX, HtO, Hf. by rewrite !andb_false_r. }
  assert (Hplay : Status game' = STATUS_PLAYING ->
            isMyTurn (GetGameStateForPlayer h' game' (ID (memory gs pX)))
            = negb (isMyTurn (GetGameStateForPlayer h' game' (ID (memory gs pO)))) /\
            isMyTurn (GetGameStateForPlayer h' game' (ID (memory gs pX)))
            = bool_decide (CurrentTurn game' = "X")).
  { intros Hs. rewrite HtX, HtO, Hs. simpl. rewrite !andb_true_r.
    split; [|done]. destruct Hturn as [-> | ->]; done. }
  assert (Hev : sendGameUpdate h' game'
                = [SendToPlayer (ID (memory gs pX)) MSG_GAME_UPDATE
                     (GameStateOf (GetGameStateForPlayer h' game' (ID (memory gs pX))))
                     gameID;
                   SendToPlayer (ID (memory gs pO)) MSG_GAME_UPDATE
                     (GameStateOf (GetGameStateForPlayer h' game' (ID (memory gs pO))))
                     gameID]).
  { unfold sendGameUpdate. by rewrite HX', HO', HidX, HidO, Hid', Hid. }
  pose proof (GetGameStateForPlayer_fields h' game' (ID (memory gs pX)))
    as (_ & ? & _ & ? & ?).
  pose proof (GetGameStateForPlayer_fields h' game' (ID (memory gs pO)))
    as (_ & ? & _ & ? & ?).
  destruct (decide (Status game' = STATUS_FINISHED)) as [Hf|Hf]; simpl;
    rewrite Hev; split_and!; try done; apply lookup_insert_eq.
Qed.

(** ** Delivery *)

Lemma sendToPlayer_Some h ranged playerID c :
  sendToPlayer h ranged playerID = Some c ->
  exists p, (c, p) ∈ ranged /\ ID (h p) = playerID.
Proof.
  induction ranged as [|[c' p'] rest IH]; simpl; [done|].
  case_decide as Hid.
  - intros [= <-]. exists p'. split; [apply list_elem_of_here | done].
  - intros Hs. destruct (IH Hs) as (p & Hin & Hp). exists p.
    split; [by apply list_elem_of_further | done].
Qed.

Lemma sendToPlayer_None h ranged playerID :
  sendToPlayer h ranged playerID = None <->
  forall c p, (c, p) ∈ ranged -> ID (h p) <> playerID.
Proof.
  induction ranged as [|[c' p'] rest IH]; simpl.
  - split; [|done]. intros _ c p Hin. by apply elem_of_nil in Hin.
  - case_decide as Hid.
    + split; [done|]. intros Hall. destruct (Hall c' p'); [apply list_elem_of_here | done].
    + rewrite IH. split.
      * intros Hall c p Hin. apply elem_of_cons in Hin as [[= -> ->]|Hin]; [done|].
        by apply (Hall c).
      * intros Hall c p Hin. apply (Hall c). by apply list_elem_of_further.
Qed.

Lemma ranged_clients (m : gmap conn ptr) ranged c p :
  ranged ≡ₚ map_to_list m -> (c, p) ∈ ranged <-> m !! c = Some p.
Proof. intros Hperm. rewrite Hperm. apply elem_of_map_to_list. Qed.

(** X20: where a message to a player goes. Whatever the order in which
    the connections are ranged over, [sendToPlayer] writes to a connection
    of a player with the identifier, and to none exactly when no connected
    player has it; when one connection only has the identifier the message
    goes there, and once that connection has dropped it goes nowhere: an
    update for a player who has left is lost. A broadcast is written once
    to each connection of the table. *)
Theorem sendToPlayer_delivery gs ranged playerID :
  ranged ≡ₚ map_to_list (clients gs) ->
  (forall c, sendToPlayer (memory gs) ranged playerID = Some c ->
     exists p, clients gs !! c = Some p /\ ID (memory gs p) = playerID) /\
  (sendToPlayer (memory gs) ranged playerID = None <->
   forall c p, clients gs !! c = Some p -> ID (memory gs p) <> playerID) /\
  (forall c p,
     clients gs !! c = Some p -> ID (memory gs p) = playerID ->
     (forall c' p', clients gs !! c' = Some p' -> ID (memory gs p') = playerID -> c' = c) ->
     sendToPlayer (memory gs) ranged playerID = Some c /\
     forall now ranged',
       ranged' ≡ₚ map_to_list (clients (handleDisconnect gs c now)) ->
       sendToPlayer (memory (handleDisconnect gs c now)) ranged' playerID = None) /\
  (forall c, c ∈ handleBroadcast ranged <-> is_Some (clients gs !! c)) /\
  NoDup (handleBroadcast ranged).
Proof.
  intros Hperm. split_and!.
  - intros c Hs. destruct (sendToPlayer_Some _ _ _ _ Hs) as (p & Hin & Hp).
    exists p. split; [by apply (ranged_clients _ ranged) | done].
  - rewrite sendToPlayer_None. split.
    + intros Hall c p Hc. apply (Hall c). by apply (ranged_clients (clients gs)).
    + intros Hall c p Hin. apply (Hall c). by apply (ranged_clients _ ranged).
  - intros c p Hc Hp Honly. split.
    + destruct (sendToPlayer (memory gs) ranged playerID) as [c'|] eqn:Hs.
      * destruct (sendToPlayer_Some _ _ _ _ Hs) as (p' & Hin & Hp').
        apply (ranged_clients (clients gs)) in Hin; [|done].
        by rewrite (Honly c' p' Hin Hp').
      * pose proof (proj1 (sendToPlayer_None _ _ _) Hs) as Hall.
        destruct (Hall c p); [|done]. by apply (ranged_clients (clients gs)).
    + intros now ranged' Hperm'. apply sendToPlayer_None. intros c' p' Hin.
      apply (ranged_clients _ ranged' c' p' Hperm') in Hin.
      unfold handleDisconnect in *. rewrite Hc in *. simpl in *.
      apply lookup_delete_Some in Hin as [Hne Hc'].
      intros Hp'. apply Hne. symmetry. apply (Honly c' p' Hc').
      destruct (decide (p' = p)) as [->|Hpp].
      * by rewrite fn_lookup_insert in Hp'.
      * by rewrite fn_lookup_insert_ne in Hp'.
  - intros c. unfold handleBroadcast. rewrite list_elem_of_fmap. split.
    + intros ([c' p] & -> & Hin). exists p. by apply (ranged_clients _ ranged).
    + intros [p Hc]. exists (c, p). split; [done|]. by apply (ranged_clients (clients gs)).
  - unfold handleBroadcast. rewrite Hperm. apply NoDup_fst_map_to_list.
Qed.

(** ** Games of the registry *)

Lemma createMatch_games gs uuid now gid :
  gid <> uuid -> games (createMatch gs uuid now).1 !! gid = games gs !! gid.
Proof.
  intros Hne. unfold createMatch.
  destruct (matchmaking gs) as [|a [|b rest]]; simpl; try done.
  destruct (players gs !! a), (players gs !! b); simpl; try done.
  by rewrite lookup_insert_ne.
Qed.

Lemma handleMakeMove_games gs msg now gid game :
  games gs !! gid = Some game ->
  (exists game', games (handleMakeMove gs msg now).1 !! gid = Some game' /\
     Game_ID game' = Game_ID game /\ PlayerX game' = PlayerX game /\
     PlayerO game' = PlayerO game /\ StartTime game' = StartTime game) /\
  (Status game = STATUS_FINISHED ->
   handleMakeMove gs msg now
   = (gs, [sendError (Msg_PlayerID msg) NotPlaying]) \/
   (handleMakeMove gs msg now).1 = gs \/
   games (handleMakeMove gs msg now).1 !! gid = Some game).
Proof.
  intros Hg.
  assert (Hsame : exists game', games gs !! gid = Some game' /\
     Game_ID game' = Game_ID game /\ PlayerX game' = PlayerX game /\
     PlayerO game' = PlayerO game /\ StartTime game' = StartTime game)
    by (by exists game).
  unfold handleMakeMove.
  destruct (moveData _ "gameId") as [[| | |gameID| |]|]; try (split; [done | auto]).
  destruct (moveData _ "position") as [[| |position| | |]|]; try (split; [done | auto]).
  destruct (games gs !! gameID) as [g|] eqn:Hl; [|split; [done | auto]].
  destruct (decide (gameID = gid)) as [->|Hne].
  - rewrite Hg in Hl. injection Hl as <-.
    pose proof (MakeMove_fields (memory gs) game (Msg_PlayerID msg)
                  (int_of_float64 position)) as (_ & Hid & HX & HO & Hst & _).
    simpl in *. split.
    + destruct (MakeMove _ _ _ _) as [[h g'] [e|]]; simpl in *.
      * exists g'. by rewrite lookup_insert_eq.
      * case_decide; simpl.
        -- exists (set_EndTime (Some now) g'). by rewrite lookup_insert_eq.
        -- exists g'. by rewrite lookup_insert_eq.
    + intros Hfin. left.
      assert (Hv : IsValidMove (memory gs) game (Msg_PlayerID msg)
                     (int_of_float64 position) = Some NotPlaying).
      { destruct (IsValidMove_cases (memory gs) game (Msg_PlayerID msg)
                    (int_of_float64 position))
          as [[_ H]|[(Hs & _)|[(Hs & _)|[(Hs & _)|[(Hs & _)|(Hs & _)]]]]];
          [done|rewrite Hfin in Hs; discriminate..]. }
      rewrite (MakeMove_invalid _ _ _ _ _ Hv). f_equal. by apply write_back_same.
  - destruct (MakeMove _ _ _ _) as [[h g'] [e|]]; simpl.
    + rewrite lookup_insert_ne by done. split; [done | auto].
    + case_decide; simpl; rewrite ?lookup_insert_ne by done; split; [done|auto|done|auto].
Qed.

(** X21: the registry never loses a game, and a finished game is final.
    Whatever the message, a game of the registry is still there afterwards
    under its identifier, with the same players and start time (unless
    [createMatch] draws its identifier anew); if it was finished it is
    exactly what it was, and a move sent for it is answered with "game is
    not in playing state" and changes nothing at all. *)
Theorem finished_game_final gs c msg uuid now gid game :
  games gs !! gid = Some game ->
  uuid <> gid ->
  (exists game', games (handleMessage gs c msg uuid now).1 !! gid = Some game' /\
     Game_ID game' = Game_ID game /\ PlayerX game' = PlayerX game /\
     PlayerO game' = PlayerO game /\ StartTime game' = StartTime game) /\
  (Status game = STATUS_FINISHED ->
   games (handleMessage gs c msg uuid now).1 !! gid = Some game /\
   forall player position,
     clients gs !! c = Some player ->
     Msg_Type msg = MSG_MAKE_MOVE ->
     moveData (Msg_Data msg) "gameId" = Some (JString gid) ->
     moveData (Msg_Data msg) "position" = Some (JNumber position) ->
     handleMessage gs c msg uuid now
     = (gs, [SendToPlayer (ID (memory gs player)) MSG_ERROR (ErrorText NotPlaying) ""])).
Proof.
  intros Hg Hne.
  assert (Hsame : exists game', games gs !! gid = Some game' /\
     Game_ID game' = Game_ID game /\ PlayerX game' = PlayerX game /\
     PlayerO game' = PlayerO game /\ StartTime game' = StartTime game)
    by (by exists game).
  assert (Hgames : forall gs', games gs' !! gid = games gs !! gid ->
            (exists game', games gs' !! gid = Some game' /\
               Game_ID game' = Game_ID game /\ PlayerX game' = PlayerX game /\
               PlayerO game' = PlayerO game /\ StartTime game' = StartTime game) /\
            games gs' !! gid = Some game).
  { intros gs' ->. by split. }
  assert (Hjoin : forall player,
            games (handleJoinQueue gs player uuid now).1 !! gid = games gs !! gid).
  { intros player. unfold handleJoinQueue. repeat case_decide; try done.
    by rewrite createMatch_games. }
  split.
  - unfold handleMessage. destruct (clients gs !! c) as [player|]; [|done]. simpl.
    repeat case_decide; try done.
    + by apply Hgames.
    + by apply handleMakeMove_games.
  - intros Hfin. split.
    + unfold handleMessage. destruct (clients gs !! c) as [player|]; [|done]. simpl.
      repeat case_decide; try done.
      * by rewrite Hjoin.
      * destruct (proj2 (handleMakeMove_games gs
                           (set_Msg_PlayerID (ID (memory gs player)) msg) now gid game Hg)
                    Hfin) as [-> |[-> | ->]]; done.
    + intros player position Hc Ht Hid Hpos.
      rewrite (handleMessage_make_move _ _ _ _ _ _ Hc Ht).
      unfold handleMakeMove. simpl. rewrite Hid, Hpos, Hg.
      assert (Hv : IsValidMove (memory gs) game (ID (memory gs player))
                     (int_of_float64 position) = Some NotPlaying).
      { destruct (IsValidMove_cases (memory gs) game (ID (memory gs player))
                    (int_of_float64 position))
          as [[_ H]|[(Hs & _)|[(Hs & _)|[(Hs & _)|[(Hs & _)|(Hs & _)]]]]];
          [done|rewrite Hfin in Hs; discriminate..]. }
      rewrite (MakeMove_invalid _ _ _ _ _ Hv). f_equal. by apply write_back_same.
Qed.

(** ** The lock and the match *)

Lemma run_deliver sent evs rest :
  run Free sent (concat (deliver <$> evs) ++ rest) = run Free (sent ++ evs) rest.
Proof.
  revert sent. induction evs as [|e evs IH]; intros sent; simpl.
  - by rewrite app_nil_r.
  - rewrite <- app_assoc.
    replace (sent ++ e :: evs)%list with ((sent ++ [e]) ++ evs)%list
      by (by rewrite <- app_assoc).
    rewrite <- IH. by destruct e as [c t [| | |]|id t d g|t [| | |]].
Qed.

Lemma run_deliver_all sent evs :
  run Free sent (concat (deliver <$> evs)) = Returns Free (sent ++ evs).
Proof.
  pose proof (run_deliver sent evs []) as H. by rewrite app_nil_r in H.
Qed.

Lemma handleJoinQueue_events gs player uuid now :
  (handleJoinQueue gs player uuid now).2 = [] \/
  exists playerID type data gameID rest,
    (handleJoinQueue gs player uuid now).2
    = SendToPlayer playerID type data gameID :: rest.
Proof.
  unfold handleJoinQueue. repeat case_decide; auto.
  unfold createMatch. simpl.
  destruct (matchmaking gs ++ [ID (memory gs player)])%list as [|a [|b rest]];
    simpl; auto.
  destruct (players gs !! a), (players gs !! b); simpl; eauto 10.
Qed.

Lemma second_join_found gs c player uuid now waiting :
  server_reachable gs ->
  clients gs !! c = Some player ->
  matchmaking gs = [waiting] ->
  ID (memory gs player) <> waiting ->
  is_Some (games (handleJoinQueue gs player uuid now).1 !! uuid) /\
  (handleJoinQueue gs player uuid now).2 <> [].
Proof.
  intros Hr Hc Hq Hne.
  destruct (server_reachable_inv _ Hr) as (Hcl & Hp & [Hqueue _] & _).
  destruct (Hqueue waiting) as [p1 H1]; [rewrite Hq; by left|].
  destruct (Hcl _ _ Hc) as [_ [p2 H2]].
  rewrite handleJoinQueue_absent
    by (rewrite Hq; intros ?%list_elem_of_singleton; done).
  cbv zeta. rewrite Hq. simpl. unfold createMatch. simpl. rewrite H1, H2. simpl.
  split; [|done]. rewrite lookup_insert_eq. by eexists.
Qed.

(** X22: the lock and the match. Run on its own from a free lock, the
    handling of a message returns with the lock free and the messages of
    the handler written, in every case but one: a join that makes a match.
    There [createMatch] calls [sendToPlayer], which asks for the read
    lock, while [handleJoinQueue] holds the write lock: the goroutine
    waits for itself, nothing is written, and the lock stays held. This is
    what happens in every state of the server when a registered player
    joins while another waits, with the game already stored; from then on
    every message, registration and disconnection waits at its first
    [Lock]. *)
Theorem createMatch_blocks gs c msg uuid now :
  (run Free [] (handleMessage_actions gs c msg uuid now)
   = Returns Free (handleMessage gs c msg uuid now).2 \/
   (run Free [] (handleMessage_actions gs c msg uuid now) = Blocks Writing [] /\
    Msg_Type msg = MSG_JOIN_QUEUE /\ (handleMessage gs c msg uuid now).2 <> [])) /\
  (forall player waiting,
     server_reachable gs ->
     clients gs !! c = Some player ->
     matchmaking gs = [waiting] ->
     ID (memory gs player) <> waiting ->
     Msg_Type msg = MSG_JOIN_QUEUE ->
     run Free [] (handleMessage_actions gs c msg uuid now) = Blocks Writing [] /\
     is_Some (games (handleMessage gs c msg uuid now).1 !! uuid)) /\
  (forall name,
     run Writing [] (handleMessage_actions gs c msg uuid now) = Blocks Writing [] /\
     run Writing [] handleDisconnect_actions = Blocks Writing [] /\
     run Writing [] (HandleWebSocket_register_actions gs c name uuid now)
     = Blocks Writing []) /\
  (forall name,
     run Free [] handleDisconnect_actions = Returns Free [] /\
     run Free [] (HandleWebSocket_register_actions gs c name uuid now)
     = Returns Free (HandleWebSocket_register gs c name uuid now).2).
Proof.
  split_and!.
  - unfold handleMessage_actions, handleMessage.
    destruct (clients gs !! c) as [player|]; simpl; [|by left].
    repeat case_decide; simpl; try (by left).
    + unfold handleJoinQueue_actions. simpl.
      destruct (handleJoinQueue_events gs player uuid now)
        as [Hnone|(id & t & d & g & rest & Hev)].
      * left. by rewrite Hnone.
      * right. rewrite Hev. simpl. by split_and!.
    + left. unfold handleMakeMove_actions, handleMakeMove. simpl.
      destruct (moveData _ "gameId") as [[| | |gameID| |]|]; try done.
      destruct (moveData _ "position") as [[| |position| | |]|]; try done.
      simpl. apply run_deliver_all.
  - intros player waiting Hr Hc Hq Hne Ht.
    destruct (second_join_found gs c player uuid now waiting Hr Hc Hq Hne) as [Hg Hev].
    unfold handleMessage_actions, handleMessage. rewrite Hc. simpl.
    case_decide; [|done]. split; [|done].
    unfold handleJoinQueue_actions. simpl.
    destruct (handleJoinQueue_events gs player uuid now)
      as [Hnone|(id & t & d & g & rest & Hev')]; [done|].
    by rewrite Hev'.
  - done.
  - intros name. split; [done|].
    unfold HandleWebSocket_register_actions. simpl. done.
Qed.

End server.

(** C9: a draw between ratings 5400 and 1000. The quotient
    [(1000 - 5400) / 400] is -11 and [10 xor -11] is -1, so the expected
    score is [1 / 0], infinite; the two changes are the conversions to
    [int] of minus and plus infinity, which no platform makes opposite:
    on amd64 both are [-2^63], on arm64 [-2^63] and [2^63 - 1]. Either way
    the draw leaves both players at rating 0. Such ratings occur: 125 wins
    in a row over players rated 1000 take a newcomer to 5425. *)
Theorem updateRating_draw_not_zero_sum :
  ratingBucket 5400 1000 = -11 /\
  Z.lxor 10 (-11) = -1 /\
  expectedX 5400 1000 = infinity /\
  (forall unrepresentable,
     ratingChangeX unrepresentable 5400 1000 0.5 = unrepresentable neg_infinity /\
     ratingChangeO unrepresentable 5400 1000 0.5 = unrepresentable infinity) /\
  (ratingChangeX amd64_unrepresentable 5400 1000 0.5 = - 2 ^ 63 /\
   ratingChangeO amd64_unrepresentable 5400 1000 0.5 = - 2 ^ 63) /\
  (ratingChangeX arm64_unrepresentable 5400 1000 0.5 = - 2 ^ 63 /\
   ratingChangeO arm64_unrepresentable 5400 1000 0.5 = 2 ^ 63 - 1) /\
  (let h := updateRating amd64_unrepresentable (rated_heap 5400 1000) 0%nat 1%nat 0.5 in
   Rating (h 0%nat) = 0 /\ Rating (h 1%nat) = 0) /\
  (let h := updateRating arm64_unrepresentable (rated_heap 5400 1000) 0%nat 1%nat 0.5 in
   Rating (h 0%nat) = 0 /\ Rating (h 1%nat) = 0) /\
  (forall unrepresentable, winStreak unrepresentable 125 = 5425) /\
  ratingBucket 5425 1000 = -11 /\
  expectedX 5425 1000 = infinity.
Proof.
  split_and!; try (vm_compute; reflexivity);
    try (intros; vm_compute; reflexivity);
    intros; split; vm_compute; reflexivity.
Qed.

(** * The properties at the sample data *)

Lemma IsValidMove_outcome_witness :
  IsValidMove sample_heap (NewGame "game-0" 0) "alice" 0 = Some NotPlaying /\
  IsValidMove sample_heap sample_game "alice" 9 = Some OutOfRange /\
  IsValidMove sample_heap (set_Board drawn_board sample_game) "alice" 0 = Some CellOccupied /\
  IsValidMove sample_heap sample_game "carol" 0 = Some PlayerNotInGame /\
  IsValidMove sample_heap sample_game "bob" 0 = Some NotYourTurn /\
  IsValidMove sample_heap sample_game "alice" 0 = None.
Proof.
  split_and!.
  - apply (IsValidMove_outcome sample_heap (NewGame "game-0" 0) "alice" 0). discriminate.
  - apply (IsValidMove_outcome sample_heap sample_game "alice" 9); [reflexivity | lia].
  - apply (IsValidMove_outcome sample_heap (set_Board drawn_board sample_game) "alice" 0);
      [reflexivity | lia | discriminate].
  - apply (IsValidMove_outcome sample_heap sample_game "carol" 0);
      [reflexivity | lia | reflexivity |].
    split; intros p [= <-]; discriminate.
  - apply (proj1 (proj2 (proj2 (proj2 (proj2
             (IsValidMove_outcome sample_heap sample_game "bob" 0))))))
      with (s := "O"); [reflexivity | lia | reflexivity | | discriminate].
    apply (matching_O _ _ _ 1%nat); [intros q [= <-]; discriminate | reflexivity | reflexivity].
  - apply (proj2 (proj2 (proj2 (proj2 (proj2
             (IsValidMove_outcome sample_heap sample_game "alice" 0))))))
      with (s := "X"); [reflexivity | lia | reflexivity | | reflexivity].
    apply (matching_X _ _ _ 0%nat); reflexivity.
Defined.

Lemma MakeMove_applies_move_witness :
  length (Board sample_game) = 9%nat /\
  IsValidMove sample_heap sample_game "alice" 0 = None /\
  exists h' game',
    MakeMove amd64_unrepresentable sample_heap sample_game "alice" 0 = (h', game', None) /\
    Board game' = ["X"; ""; ""; ""; ""; ""; ""; ""; ""] /\
    Status game' = STATUS_PLAYING /\ CurrentTurn game' = "O".
Proof.
  split; [reflexivity|]. split; [reflexivity|].
  destruct (MakeMove_applies_move amd64_unrepresentable sample_heap sample_game "alice" 0
              eq_refl eq_refl) as (h' & game' & Hm & Hb & _ & _ & Ht).
  exists h', game'. rewrite Hb in Ht. simpl in Ht.
  destruct Ht as (Hs & _ & _ & [[_ Hturn]|[Hturn _]]); [|discriminate].
  split_and!; done.
Defined.

Lemma evaluateTermination_correct_witness :
  let final := (playMoves amd64_unrepresentable sample_heap sample_game scenario).2 in
  played amd64_unrepresentable 5 final /\
  evaluateTermination (Board final) = WinnerIs "X" /\
  (5 <= 5)%nat /\
  evaluateTermination drawn_board = Draw /\
  ((forall i, (i < 9)%nat -> cell drawn_board i <> "") /\ ~ has_line drawn_board).
Proof.
  pose proof (evaluateTermination_correct amd64_unrepresentable)
    as (_ & _ & _ & _ & Hfive & Hdraw & _).
  cbv zeta.
  assert (Hp : played amd64_unrepresentable 5
                 (playMoves amd64_unrepresentable sample_heap sample_game scenario).2).
  { pose proof (played_start amd64_unrepresentable "game-1" 0 0%nat 1%nat) as P.
    apply (played_step amd64_unrepresentable 0 _ sample_heap "alice" 0) in P;
      [|vm_compute; reflexivity].
    vm_compute in P.
    apply (played_step amd64_unrepresentable 1 _ sample_heap "bob" 4) in P;
      [|vm_compute; reflexivity].
    vm_compute in P.
    apply (played_step amd64_unrepresentable 2 _ sample_heap "alice" 1) in P;
      [|vm_compute; reflexivity].
    vm_compute in P.
    apply (played_step amd64_unrepresentable 3 _ sample_heap "bob" 5) in P;
      [|vm_compute; reflexivity].
    vm_compute in P.
    apply (played_step amd64_unrepresentable 4 _ sample_heap "alice" 2) in P;
      [|vm_compute; reflexivity].
    vm_compute in P. vm_compute. exact P. }
  assert (He : evaluateTermination
                 (Board (playMoves amd64_unrepresentable sample_heap sample_game scenario).2)
               = WinnerIs "X") by (vm_compute; reflexivity).
  assert (Hd : evaluateTermination drawn_board = Draw) by (vm_compute; reflexivity).
  split; [exact Hp|]. split; [exact He|].
  split; [apply (Hfive 5%nat _ Hp); exists "X"; exact He|].
  split; [exact Hd|].
  apply (Hdraw drawn_board eq_refl). exact Hd.
Defined.

Lemma MakeMove_rejected_unchanged_witness :
  matches_neither sample_heap sample_game "carol" /\
  MakeMove amd64_unrepresentable sample_heap sample_game "carol" 0
  = (sample_heap, sample_game, Some PlayerNotInGame).
Proof.
  assert (Hn : matches_neither sample_heap sample_game "carol")
    by (split; intros p [= <-]; discriminate).
  split; [exact Hn|].
  destruct (proj2 (MakeMove_rejected_unchanged amd64_unrepresentable sample_heap sample_game
                     "carol" 0) Hn) as (e & Hm & He).
  rewrite (He eq_refl ltac:(lia) eq_refl) in Hm. exact Hm.
Defined.

Lemma createMatch_fifo_witness :
  let queued := set_matchmaking ["alice"; "bob"] sample_server in
  let gs' := (handleJoinQueue queued 2%nat "game-2" 7).1 in
  matchmaking gs' = ["carol"] /\
  games gs' !! "game-2" = Some (matchGame "game-2" 7 0%nat 1%nat).
Proof.
  cbv zeta.
  destruct (createMatch_fifo (set_matchmaking ["alice"; "bob"] sample_server) 2%nat
              "game-2" 7 "alice" "bob" ["carol"]) as (Hq & Hg & _ & _).
  - intros Hin. apply elem_of_cons in Hin as [Hin|Hin]; [discriminate|].
    apply elem_of_cons in Hin as [Hin|Hin]; [discriminate|].
    by apply elem_of_nil in Hin.
  - reflexivity.
  - split; [exact Hq|].
    assert (H1 : players (set_matchmaking ["alice"; "bob"] sample_server) !! "alice"
                 = Some 0%nat) by (vm_compute; reflexivity).
    assert (H2 : players (set_matchmaking ["alice"; "bob"] sample_server) !! "bob"
                 = Some 1%nat) by (vm_compute; reflexivity).
    destruct (Hg 0%nat 1%nat H1 H2) as (Hgames & _).
    rewrite Hgames. apply lookup_insert_eq.
Defined.

Lemma matchmaking_NoDup_witness :
  let once := (handleJoinQueue sample_server 0%nat "game-2" 1).1 in
  let twice := (handleJoinQueue once 0%nat "game-3" 2).1 in
  matchmaking once = ["alice"] /\ twice = once /\ length (matchmaking twice) = 1%nat.
Proof.
  destruct (matchmaking_NoDup amd64_unrepresentable) as (_ & Htwice & _ & _).
  exact (Htwice sample_server 0%nat "game-2" 1 "game-3" 2 eq_refl).
Defined.

Lemma winner_iff_finished_witness :
  let final := (playMoves amd64_unrepresentable sample_heap sample_game scenario).2 in
  reachable amd64_unrepresentable final /\
  Winner final = "X" /\ Status final = STATUS_FINISHED.
Proof.
  cbv zeta.
  assert (Hr : reachable amd64_unrepresentable
                 (playMoves amd64_unrepresentable sample_heap sample_game scenario).2)
    by apply reachable_playMoves, reachable_match.
  destruct (winner_iff_finished amd64_unrepresentable _ Hr) as [Hiff _].
  assert (Hw : Winner (playMoves amd64_unrepresentable sample_heap sample_game scenario).2
               = "X") by (vm_compute; reflexivity).
  split; [exact Hr|]. split; [exact Hw|].
  apply Hiff. rewrite Hw. discriminate.
Defined.

Lemma handleMessage_ignores_claimed_identity_witness :
  handleMessage amd64_unrepresentable sample_server 0%nat honest_move "game-2" 5 =
  handleMessage amd64_unrepresentable sample_server 0%nat forged_move "game-2" 5.
Proof.
  destruct (handleMessage_ignores_claimed_identity amd64_unrepresentable sample_server
              0%nat honest_move forged_move "game-2" 5 eq_refl eq_refl eq_refl)
    as [Hsame _].
  exact Hsame.
Defined.

(** * The further properties at the sample data *)

Lemma lobby_reachable u : server_reachable u lobby.
Proof. apply server_register, server_register, server_new. Qed.

Lemma waiting_room_reachable u : server_reachable u (waiting_room u).
Proof. apply server_message, lobby_reachable. Qed.

Lemma match_room_reachable u : server_reachable u (match_room u).
Proof. apply server_message, waiting_room_reachable. Qed.

Lemma scenario_played :
  played amd64_unrepresentable 4
    (playMoves amd64_unrepresentable sample_heap sample_game (take 4 scenario)).2 /\
  played amd64_unrepresentable 5
    (playMoves amd64_unrepresentable sample_heap sample_game scenario).2.
Proof.
  pose proof (played_start amd64_unrepresentable "game-1" 0 0%nat 1%nat) as P.
  apply (played_step amd64_unrepresentable 0 _ sample_heap "alice" 0) in P;
    [|vm_compute; reflexivity].
  vm_compute in P.
  apply (played_step amd64_unrepresentable 1 _ sample_heap "bob" 4) in P;
    [|vm_compute; reflexivity].
  vm_compute in P.
  apply (played_step amd64_unrepresentable 2 _ sample_heap "alice" 1) in P;
    [|vm_compute; reflexivity].
  vm_compute in P.
  apply (played_step amd64_unrepresentable 3 _ sample_heap "bob" 5) in P;
    [|vm_compute; reflexivity].
  vm_compute in P.
  split; [vm_compute; exact P|].
  apply (played_step amd64_unrepresentable 4 _ sample_heap "alice" 2) in P;
    [|vm_compute; reflexivity].
  vm_compute in P. vm_compute. exact P.
Qed.

Lemma MakeMove_out_of_play_witness :
  Status (NewGame "game-0" 0) = STATUS_WAITING /\
  playMoves amd64_unrepresentable sample_heap (NewGame "game-0" 0) scenario
  = (sample_heap, NewGame "game-0" 0) /\
  MakeMove amd64_unrepresentable sample_heap (NewGame "game-0" 0) "alice" 0
  = (sample_heap, NewGame "game-0" 0, Some NotPlaying).
Proof.
  destruct (MakeMove_out_of_play amd64_unrepresentable sample_heap (NewGame "game-0" 0)
              scenario) as [Hall Hone]; [discriminate|].
  split; [reflexivity|]. split; [exact Hall | exact (Hone "alice" 0)].
Defined.

Lemma playMoves_settles_once_witness :
  let final := playMoves amd64_unrepresentable sample_heap sample_game scenario in
  Status sample_game = STATUS_PLAYING /\
  Status final.2 = STATUS_FINISHED /\
  final.1 = updatePlayerStats amd64_unrepresentable sample_heap final.2 /\
  Wins (final.1 0%nat) = 1 /\ Losses (final.1 1%nat) = 1.
Proof.
  cbv zeta. split; [reflexivity|].
  destruct (playMoves_settles_once amd64_unrepresentable sample_heap sample_game scenario
              eq_refl) as [[Hs _]|[Hs Hh]].
  - vm_compute in Hs. discriminate Hs.
  - split; [exact Hs|]. split; [exact Hh|]. split; vm_compute; reflexivity.
Defined.

Lemma MakeMove_keeps_witness :
  let game := (playMoves amd64_unrepresentable sample_heap sample_game (take 4 scenario)).2 in
  let game' := (MakeMove amd64_unrepresentable sample_heap game "alice" 2).1.2 in
  cell (Board game) 4 = "O" /\ cell (Board game') 4 = "O" /\
  Status game = STATUS_PLAYING /\ Status game' = STATUS_FINISHED /\
  PlayerX game' = Some 0%nat /\ PlayerO game' = Some 1%nat.
Proof.
  cbv zeta.
  pose proof (MakeMove_keeps amd64_unrepresentable sample_heap
                (playMoves amd64_unrepresentable sample_heap sample_game
                   (take 4 scenario)).2 "alice" 2) as (Hcell & _ & _ & _ & HX & HO & _).
  assert (H4 : cell (Board (playMoves amd64_unrepresentable sample_heap sample_game
                              (take 4 scenario)).2) 4 = "O") by (vm_compute; reflexivity).
  split; [exact H4|].
  split; [rewrite (Hcell 4%nat); [exact H4 | rewrite H4; discriminate]|].
  split; [vm_compute; reflexivity|]. split; [vm_compute; reflexivity|].
  split; [rewrite HX | rewrite HO]; vm_compute; reflexivity.
Defined.

Lemma updatePlayerStats_counts_witness :
  let game := set_Winner "draw" sample_game in
  let h' := updatePlayerStats amd64_unrepresentable sample_heap game in
  (Wins (h' 0%nat), Losses (h' 0%nat), Draws (h' 0%nat)) = (0, 0, 1) /\
  (Wins (h' 1%nat), Losses (h' 1%nat), Draws (h' 1%nat)) = (0, 0, 1) /\
  h' 2%nat = carol.
Proof.
  cbv zeta.
  destruct (updatePlayerStats_counts amd64_unrepresentable sample_heap
              (set_Winner "draw" sample_game)) as [_ Hboth].
  destruct (Hboth 0%nat 1%nat eq_refl eq_refl ltac:(discriminate))
    as (_ & _ & Hdraw & _ & Hrest & _).
  destruct (Hdraw eq_refl) as [HX HO].
  split; [exact HX|]. split; [exact HO|].
  exact (Hrest 2%nat ltac:(discriminate) ltac:(discriminate)).
Defined.

Lemma MakeMove_ratings_nonneg_witness :
  let h := rated_heap 5 5000 in
  let game := (playMoves amd64_unrepresentable h sample_game (take 4 scenario)).2 in
  (forall p, 0 <= Rating (h p)) /\
  forall p, 0 <= Rating ((MakeMove amd64_unrepresentable h game "alice" 2).1.1 p).
Proof.
  cbv zeta.
  assert (Hh : forall p, 0 <= Rating (rated_heap 5 5000 p)).
  { intros [|[|p]]; simpl; lia. }
  split; [exact Hh|].
  exact (proj2 (MakeMove_ratings_nonneg amd64_unrepresentable (rated_heap 5 5000)
                  (playMoves amd64_unrepresentable (rated_heap 5 5000) sample_game
                     (take 4 scenario)).2 "alice" 2) Hh).
Defined.

Lemma played_at_most_nine_witness :
  let final := (playMoves amd64_unrepresentable sample_heap sample_game scenario).2 in
  played amd64_unrepresentable 5 final /\
  (5 <= 9)%nat /\
  (Status final = STATUS_PLAYING \/ Status final = STATUS_FINISHED).
Proof.
  cbv zeta. destruct scenario_played as [_ Hp].
  destruct (played_at_most_nine amd64_unrepresentable 5 _ Hp) as (Hn & _ & _ & Hs).
  split; [exact Hp|]. split; [exact Hn | exact Hs].
Defined.

Lemma winner_is_mover_witness :
  let game := (playMoves amd64_unrepresentable sample_heap sample_game (take 4 scenario)).2 in
  let game' := (MakeMove amd64_unrepresentable sample_heap game "alice" 2).1.2 in
  played amd64_unrepresentable 4 game /\
  (MakeMove amd64_unrepresentable sample_heap game "alice" 2).2 = None /\
  Winner game' = "X" /\ CurrentTurn game = "X" /\
  matching_symbol sample_heap game "alice" "X".
Proof.
  cbv zeta. destruct scenario_played as [Hp _].
  split; [exact Hp|]. split; [vm_compute; reflexivity|].
  assert (Hw : Winner (MakeMove amd64_unrepresentable sample_heap
                         (playMoves amd64_unrepresentable sample_heap sample_game
                            (take 4 scenario)).2 "alice" 2).1.2 = "X")
    by (vm_compute; reflexivity).
  split; [exact Hw|].
  destruct (MakeMove amd64_unrepresentable sample_heap
              (playMoves amd64_unrepresentable sample_heap sample_game
                 (take 4 scenario)).2 "alice" 2) as [[h' game'] e] eqn:Hm.
  assert (He : e = None) by (apply (f_equal snd) in Hm; vm_compute in Hm; congruence).
  subst e. simpl in Hw.
  destruct (winner_is_mover amd64_unrepresentable 4 _ _ _ _ _ _ Hp Hm)
    as [Hnone|[Hdraw|(Hturn & Hsym & _)]].
  - rewrite Hw in Hnone. discriminate Hnone.
  - rewrite Hw in Hdraw. discriminate Hdraw.
  - rewrite Hw in Hturn, Hsym. split; [symmetry; exact Hturn | exact Hsym].
Defined.

Lemma isMyTurn_agrees_witness :
  let view := GetGameStateForPlayer sample_heap sample_game "alice" in
  reachable amd64_unrepresentable sample_game /\
  isMyTurn view = true /\
  IsValidMove sample_heap sample_game "alice" 4 = None /\
  isMyTurn (GetGameStateForPlayer sample_heap sample_game "bob") = false /\
  exists e, IsValidMove sample_heap sample_game "bob" 4 = Some e.
Proof.
  cbv zeta.
  assert (Hr : reachable amd64_unrepresentable sample_game) by apply reachable_match.
  split; [exact Hr|]. split; [reflexivity|].
  destruct (isMyTurn_agrees amd64_unrepresentable sample_heap sample_game "alice" Hr)
    as (_ & Hacc & _).
  split; [exact (Hacc eq_refl 4 ltac:(lia) eq_refl)|].
  destruct (isMyTurn_agrees amd64_unrepresentable sample_heap sample_game "bob" Hr)
    as (_ & _ & Hrej & _).
  split; [reflexivity | exact (Hrej eq_refl 4)].
Defined.

Lemma queue_at_most_one_witness :
  let gs := waiting_room amd64_unrepresentable in
  server_reachable amd64_unrepresentable gs /\
  matchmaking gs = ["alice"] /\
  (length (matchmaking gs) <= 1)%nat /\
  exists p, players gs !! "alice" = Some p /\ ID (memory gs p) = "alice" /\ (p < brk gs)%nat.
Proof.
  cbv zeta.
  pose proof (waiting_room_reachable amd64_unrepresentable) as Hr.
  assert (Hq : matchmaking (waiting_room amd64_unrepresentable) = ["alice"])
    by (vm_compute; reflexivity).
  destruct (queue_at_most_one amd64_unrepresentable _ Hr) as [Hlen Hreg].
  split; [exact Hr|]. split; [exact Hq|]. split; [exact Hlen|].
  apply Hreg. rewrite Hq. apply list_elem_of_here.
Defined.

Lemma stored_games_in_order_witness :
  let gs := match_room amd64_unrepresentable in
  let game := matchGame "game-1" 2 0%nat 1%nat in
  server_reachable amd64_unrepresentable gs /\
  games gs !! "game-1" = Some game /\
  Game_ID game = "game-1" /\
  (Winner game <> "" <-> Status game = STATUS_FINISHED) /\
  (is_Some (EndTime game) <-> Status game = STATUS_FINISHED).
Proof.
  cbv zeta.
  pose proof (match_room_reachable amd64_unrepresentable) as Hr.
  assert (Hg : games (match_room amd64_unrepresentable) !! "game-1"
               = Some (matchGame "game-1" 2 0%nat 1%nat)) by (vm_compute; reflexivity).
  destruct (stored_games_in_order amd64_unrepresentable _ _ _ Hr Hg)
    as (Hid & _ & _ & Hw & He & _).
  split; [exact Hr|]. split; [exact Hg|]. split; [exact Hid|]. split; [exact Hw | exact He].
Defined.

Lemma second_join_matches_witness :
  let gs := waiting_room amd64_unrepresentable in
  let gs' := (handleJoinQueue gs 1%nat "game-1" 2).1 in
  server_reachable amd64_unrepresentable gs /\
  clients gs !! 1%nat = Some 1%nat /\
  matchmaking gs = ["alice"] /\
  ID (memory gs 1%nat) = "bob" /\
  matchmaking gs' = [] /\
  games gs' !! "game-1" = Some (matchGame "game-1" 2 0%nat 1%nat) /\
  (Symbol (memory gs' 0%nat) = "X" /\ Symbol (memory gs' 1%nat) = "O").
Proof.
  cbv zeta.
  pose proof (waiting_room_reachable amd64_unrepresentable) as Hr.
  assert (Hc : clients (waiting_room amd64_unrepresentable) !! 1%nat = Some 1%nat)
    by (vm_compute; reflexivity).
  assert (Hq : matchmaking (waiting_room amd64_unrepresentable) = ["alice"])
    by (vm_compute; reflexivity).
  assert (Hb : ID (memory (waiting_room amd64_unrepresentable) 1%nat) = "bob")
    by (vm_compute; reflexivity).
  assert (Ha : players (waiting_room amd64_unrepresentable) !! "alice" = Some 0%nat)
    by (vm_compute; reflexivity).
  assert (Hp : players (waiting_room amd64_unrepresentable) !! "bob" = Some 1%nat)
    by (vm_compute; reflexivity).
  split; [exact Hr|]. split; [exact Hc|]. split; [exact Hq|]. split; [exact Hb|].
  destruct (second_join_matches amd64_unrepresentable _ 1%nat 1%nat "game-1" 2 "alice"
              Hr Hc Hq) as (p1 & p2 & H1 & H2 & Hm & Hg & Hsym & _).
  { rewrite Hb. discriminate. }
  rewrite Hb in H2.
  assert (E1 : Some p1 = Some 0%nat) by (rewrite <- H1; exact Ha).
  assert (E2 : Some p2 = Some 1%nat) by (rewrite <- H2; exact Hp).
  injection E1 as ->. injection E2 as ->.
  split; [exact Hm|].
  split; [rewrite Hg; apply lookup_insert_eq | exact Hsym].
Defined.

Lemma handleDisconnect_cleans_witness :
  let gs := waiting_room amd64_unrepresentable in
  let gs' := handleDisconnect gs 0%nat 9 in
  clients gs !! 0%nat = Some 0%nat /\
  clients gs' !! 0%nat = None /\
  ("alice" ∉ matchmaking gs') /\
  players gs' = players gs /\
  LastSeen (memory gs' 0%nat) = 9 /\
  handleDisconnect gs' 0%nat 10 = gs'.
Proof.
  cbv zeta.
  pose proof (waiting_room_reachable amd64_unrepresentable) as Hr.
  assert (Hc : clients (waiting_room amd64_unrepresentable) !! 0%nat = Some 0%nat)
    by (vm_compute; reflexivity).
  assert (Ha : ID (memory (waiting_room amd64_unrepresentable) 0%nat) = "alice")
    by (vm_compute; reflexivity).
  destruct (handleDisconnect_cleans amd64_unrepresentable
              (waiting_room amd64_unrepresentable) 0%nat 9) as [_ Hdrop].
  destruct (Hdrop 0%nat Hr Hc) as (Hgone & _ & Hq & Hp & _ & Hm & _ & Hagain).
  rewrite Ha in Hq.
  split; [exact Hc|]. split; [exact Hgone|]. split; [exact Hq|]. split; [exact Hp|].
  split; [rewrite Hm; reflexivity | exact (Hagain 10)].
Defined.

Lemma join_leave_round_trip_witness :
  matchmaking sample_server = [] /\
  matchmaking (handleJoinQueue sample_server 0%nat "game-2" 1).1 = ["alice"] /\
  handleLeaveQueue (handleJoinQueue sample_server 0%nat "game-2" 1).1 0%nat
  = (sample_server, []).
Proof.
  split; [reflexivity|]. split; [vm_compute; reflexivity|].
  exact (proj2 (join_leave_round_trip sample_server 0%nat "game-2" 1 eq_refl)).
Defined.

Lemma handleMakeMove_refusals_witness :
  handleMakeMove amd64_unrepresentable sample_server join_queue 5 = (sample_server, []) /\
  handleMakeMove amd64_unrepresentable lobby honest_move 5
  = (lobby, [SendToPlayer "alice" MSG_ERROR (ErrorText "Game not found") ""]) /\
  handleMakeMove amd64_unrepresentable sample_server forged_move 5
  = (sample_server, [SendToPlayer "bob" MSG_ERROR (ErrorText NotYourTurn) ""]).
Proof.
  split_and!.
  - apply (proj1 (handleMakeMove_refusals amd64_unrepresentable sample_server join_queue 5)).
    intros gameID. discriminate.
  - apply (proj1 (proj2 (proj2 (handleMakeMove_refusals amd64_unrepresentable lobby
                                  honest_move 5))) "game-1" 0%float);
      vm_compute; reflexivity.
  - apply (proj2 (proj2 (proj2 (handleMakeMove_refusals amd64_unrepresentable sample_server
                                  forged_move 5))) "game-1" 0%float sample_game);
      vm_compute; reflexivity.
Defined.

Lemma handleMessage_keeps_registry_witness :
  let gs' := (handleMessage amd64_unrepresentable sample_server 0%nat honest_move
                "game-2" 5).1 in
  clients gs' = clients sample_server /\ players gs' = players sample_server /\
  handleMessage amd64_unrepresentable sample_server 7%nat honest_move "game-2" 5
  = (sample_server, []) /\
  handleMessage amd64_unrepresentable sample_server 0%nat
    (set_Msg_PlayerID "alice" {| Msg_Type := "chat"; Msg_Data := JNull;
                                 Msg_GameID := ""; Msg_PlayerID := "" |}) "game-2" 5
  = (sample_server, []).
Proof.
  cbv zeta.
  destruct (handleMessage_keeps_registry amd64_unrepresentable sample_server 0%nat
              honest_move "game-2" 5) as (Hc & Hp & _).
  split; [exact Hc|]. split; [exact Hp|]. split.
  - apply (proj1 (proj2 (proj2 (proj2
             (handleMessage_keeps_registry amd64_unrepresentable sample_server 7%nat
                honest_move "game-2" 5))))).
    vm_compute; reflexivity.
  - apply (proj2 (proj2 (proj2 (proj2
             (handleMessage_keeps_registry amd64_unrepresentable sample_server 0%nat
                _ "game-2" 5))))).
    intros Hin. repeat (apply elem_of_cons in Hin as [Hin|Hin]; [discriminate Hin|]).
    by apply elem_of_nil in Hin.
Defined.

Lemma register_fresh_witness :
  let gs' := (HandleWebSocket_register lobby 2%nat "" "carol" 3).1 in
  server_reachable amd64_unrepresentable lobby /\
  clients gs' !! 2%nat = Some 2%nat /\
  players gs' !! "carol" = Some 2%nat /\
  memory gs' 2%nat = NewPlayer "carol" 3 "Anonymous" /\
  (clients gs' !! 0%nat = Some 0%nat /\ memory gs' 0%nat = memory lobby 0%nat).
Proof.
  cbv zeta.
  pose proof (lobby_reachable amd64_unrepresentable) as Hr.
  destruct (register_fresh amd64_unrepresentable lobby 2%nat "" "carol" 3 Hr)
    as (Hc & Hp & Hm & _ & Hothers & _).
  split; [exact Hr|]. split; [exact Hc|]. split; [exact Hp|]. split; [exact Hm|].
  assert (H0 : clients lobby !! 0%nat = Some 0%nat) by (vm_compute; reflexivity).
  exact (Hothers 0%nat 0%nat ltac:(discriminate) H0).
Defined.

Lemma ratingChange_opposite_witness :
  ratingBucket 1200 1000 = 0 /\
  ratingChangeO amd64_unrepresentable 1200 1000 1
  = - ratingChangeX amd64_unrepresentable 1200 1000 1 /\
  - 64 <= ratingChangeX amd64_unrepresentable 1200 1000 1 <= 64.
Proof.
  split; [reflexivity|].
  apply (ratingChange_opposite amd64_unrepresentable 1200 1000 1%float);
    [lia | lia | discriminate | apply list_elem_of_here].
Defined.

Lemma getLeaderboard_top_witness :
  let leaders := getLeaderboard sample_sort veterans (seq 0 12) in
  sorts_by_key sample_sort /\
  leaders = [11; 10; 9; 8; 7; 6; 5; 4; 3; 2]%nat /\
  (length leaders <= 10)%nat /\
  (forall i j a b, (i < j)%nat -> leaders !! i = Some a -> leaders !! j = Some b ->
     Rating (veterans b) <= Rating (veterans a)) /\
  (forall q, q ∈ leaders -> Rating (veterans 0%nat) <= Rating (veterans q)).
Proof.
  cbv zeta.
  destruct (getLeaderboard_top sample_sort veterans (seq 0 12) sample_sort_sorts)
    as (Hlen & _ & Hord & Hout & _).
  assert (Hl : getLeaderboard sample_sort veterans (seq 0 12)
               = [11; 10; 9; 8; 7; 6; 5; 4; 3; 2]%nat) by (vm_compute; reflexivity).
  split; [exact sample_sort_sorts|]. split; [exact Hl|]. split; [exact Hlen|].
  split; [exact Hord|].
  apply (Hout 0%nat).
  - apply list_elem_of_here.
  - reflexivity.
  - rewrite Hl. intros Hin.
    repeat (apply elem_of_cons in Hin as [Hin|Hin]; [discriminate Hin|]).
    by apply elem_of_nil in Hin.
Defined.

Lemma handleMakeMove_accepted_witness :
  let gs := match_room amd64_unrepresentable in
  let game := matchGame "game-1" 2 0%nat 1%nat in
  server_reachable amd64_unrepresentable gs /\
  games gs !! "game-1" = Some game /\
  IsValidMove (memory gs) game "alice" 0 = None /\
  exists game' vX vO,
    games (handleMakeMove amd64_unrepresentable gs honest_move 3).1 !! "game-1"
    = Some game' /\
    Board game' = ["X"; ""; ""; ""; ""; ""; ""; ""; ""] /\
    (handleMakeMove amd64_unrepresentable gs honest_move 3).2
    = [SendToPlayer "alice" MSG_GAME_UPDATE (GameStateOf vX) "game-1";
       SendToPlayer "bob" MSG_GAME_UPDATE (GameStateOf vO) "game-1"] /\
    (board vX = Board game' /\ board vO = Board game') /\
    (mySymbol vX = "X" /\ mySymbol vO = "O") /\
    (isMyTurn vX = false /\ isMyTurn vO = true).
Proof.
  cbv zeta.
  pose proof (match_room_reachable amd64_unrepresentable) as Hr.
  assert (Hg : games (match_room amd64_unrepresentable) !! "game-1"
               = Some (matchGame "game-1" 2 0%nat 1%nat)) by (vm_compute; reflexivity).
  assert (Hv : IsValidMove (memory (match_room amd64_unrepresentable))
                 (matchGame "game-1" 2 0%nat 1%nat) "alice" 0 = None)
    by (vm_compute; reflexivity).
  split; [exact Hr|]. split; [exact Hg|]. split; [exact Hv|].
  destruct (handleMakeMove_accepted amd64_unrepresentable _ honest_move 3 "game-1" 0%float
              _ Hr eq_refl eq_refl Hg Hv)
    as (h' & game' & pX & pO & vX & vO & Hm & HX & HO & _ & Hst & Hev & Hb & _ & _ & Hsym
        & _ & Hturn).
  injection HX as <-. injection HO as <-.
  assert (Hgame : (MakeMove amd64_unrepresentable (memory (match_room amd64_unrepresentable))
                     (matchGame "game-1" 2 0%nat 1%nat) "alice" 0).1.2 = game')
    by (change (Msg_PlayerID honest_move) with "alice" in Hm;
        change (int_of_float64 amd64_unrepresentable 0%float) with 0 in Hm;
        rewrite Hm; reflexivity).
  assert (Hs : Status game' = STATUS_PLAYING) by (rewrite <- Hgame; vm_compute; reflexivity).
  assert (Hc : CurrentTurn game' = "O") by (rewrite <- Hgame; vm_compute; reflexivity).
  assert (Hboard : Board game' = ["X"; ""; ""; ""; ""; ""; ""; ""; ""])
    by (rewrite <- Hgame; vm_compute; reflexivity).
  rewrite decide_False in Hst by (rewrite Hs; discriminate).
  rewrite decide_False in Hev by (rewrite Hs; discriminate).
  rewrite app_nil_r in Hev.
  destruct (Hturn Hs) as [Hneg HtX].
  rewrite bool_decide_eq_false_2 in HtX by (rewrite Hc; discriminate).
  rewrite HtX in Hneg.
  exists game', vX, vO.
  split; [exact Hst|]. split; [exact Hboard|]. split; [exact Hev|].
  split; [exact Hb|]. split; [exact Hsym|].
  split; [exact HtX | by destruct (isMyTurn vO)].
Defined.

Lemma sendToPlayer_delivery_witness :
  let ranged := reverse (map_to_list (clients sample_server)) in
  let dropped := handleDisconnect sample_server 1%nat 9 in
  ranged ≡ₚ map_to_list (clients sample_server) /\
  clients sample_server !! 1%nat = Some 1%nat /\
  sendToPlayer (memory sample_server) ranged "bob" = Some 1%nat /\
  sendToPlayer (memory dropped) (map_to_list (clients dropped)) "bob" = None.
Proof.
  cbv zeta.
  assert (Hperm : reverse (map_to_list (clients sample_server))
                  ≡ₚ map_to_list (clients sample_server)) by apply reverse_Permutation.
  assert (Hc : clients sample_server !! 1%nat = Some 1%nat) by (vm_compute; reflexivity).
  assert (Hall : Forall (fun cp : conn * ptr => cp.1 = cp.2)
                   (map_to_list (clients sample_server))).
  { vm_compute. repeat constructor. }
  assert (Honly : forall c' p', clients sample_server !! c' = Some p' ->
                    ID (memory sample_server p') = "bob" -> c' = 1%nat).
  { intros c' p' Hc' Hp'.
    pose proof (proj2 (elem_of_map_to_list (clients sample_server) c' p') Hc') as Hin.
    rewrite Forall_forall in Hall. pose proof (Hall _ Hin) as Heq. simpl in Heq. subst c'.
    destruct p' as [|[|p']]; [discriminate Hp' | reflexivity | discriminate Hp']. }
  destruct (sendToPlayer_delivery sample_server _ "bob" Hperm) as (_ & _ & Hone & _).
  destruct (Hone 1%nat 1%nat Hc eq_refl Honly) as [Hsent Hlost].
  split; [exact Hperm|]. split; [exact Hc|]. split; [exact Hsent|].
  apply Hlost. reflexivity.
Defined.

Lemma finished_game_final_witness :
  let final := (playMoves amd64_unrepresentable sample_heap sample_game scenario).2 in
  let gs := set_games {[ "game-1" := final ]} sample_server in
  games gs !! "game-1" = Some final /\
  Status final = STATUS_FINISHED /\
  handleMessage amd64_unrepresentable gs 0%nat honest_move "game-2" 5
  = (gs, [SendToPlayer "alice" MSG_ERROR (ErrorText NotPlaying) ""]).
Proof.
  cbv zeta.
  assert (Hg : games (set_games
                        {[ "game-1" := (playMoves amd64_unrepresentable sample_heap
                                          sample_game scenario).2 ]} sample_server)
               !! "game-1"
               = Some (playMoves amd64_unrepresentable sample_heap sample_game scenario).2)
    by (vm_compute; reflexivity).
  assert (Hf : Status (playMoves amd64_unrepresentable sample_heap sample_game scenario).2
               = STATUS_FINISHED) by (vm_compute; reflexivity).
  destruct (finished_game_final amd64_unrepresentable _ 0%nat honest_move "game-2" 5
              "game-1" _ Hg ltac:(discriminate)) as [_ Hfin].
  destruct (Hfin Hf) as [_ Hmove].
  split; [exact Hg|]. split; [exact Hf|].
  exact (Hmove 0%nat 0%float ltac:(vm_compute; reflexivity) eq_refl eq_refl eq_refl).
Defined.

Lemma createMatch_blocks_witness :
  let gs := waiting_room amd64_unrepresentable in
  server_reachable amd64_unrepresentable gs /\
  clients gs !! 1%nat = Some 1%nat /\
  matchmaking gs = ["alice"] /\
  ID (memory gs 1%nat) = "bob" /\
  run Free [] (handleMessage_actions amd64_unrepresentable gs 1%nat join_queue "game-1" 2)
  = Blocks Writing [] /\
  is_Some (games (handleMessage amd64_unrepresentable gs 1%nat join_queue "game-1" 2).1
           !! "game-1").
Proof.
  cbv zeta.
  pose proof (waiting_room_reachable amd64_unrepresentable) as Hr.
  assert (Hc : clients (waiting_room amd64_unrepresentable) !! 1%nat = Some 1%nat)
    by (vm_compute; reflexivity).
  assert (Hq : matchmaking (waiting_room amd64_unrepresentable) = ["alice"])
    by (vm_compute; reflexivity).
  assert (Hb : ID (memory (waiting_room amd64_unrepresentable) 1%nat) = "bob")
    by (vm_compute; reflexivity).
  destruct (createMatch_blocks amd64_unrepresentable (waiting_room amd64_unrepresentable)
              1%nat join_queue "game-1" 2) as (_ & Hblocks & _).
  split; [exact Hr|]. split; [exact Hc|]. split; [exact Hq|]. split; [exact Hb|].
  apply (Hblocks 1%nat "alice" Hr Hc Hq); [rewrite Hb; discriminate | reflexivity].
Defined.
